(** * The remote storage protocol core of the desktop client

    A shallow embedding of [src/renderer/lib/api/api.ts]: the transport
    ([doAPIRequest], [apiRequest]), the transfer engine ([uploadChunk],
    [downloadChunk]), directory creation behind the 1-permit semaphore
    ([createFolder]), trash / move / rename, and the list of items that
    the metadata propagator builds for a folder
    ([checkIfItemParentIsShared]).

    JavaScript values are modelled as JSON trees plus [undefined];
    promises as outcomes (resolved, rejected, still pending); callbacks
    scheduled with [setTimeout] and network callbacks as inputs that the
    environment feeds to a step function. *)

From Stdlib Require Import ZArith String Ascii List Bool Lia.
From Stdlib Require Import Init.Byte.
From stdpp Require Import base gmap strings pretty.
Import ListNotations.
Open Scope string_scope.
Open Scope list_scope.

(* ================================================================= *)
(** ** JavaScript values *)

(** What [JSON.parse] returns. Numbers that occur in this file (status
    codes, retry counts, timeouts) are integers. An object is the list
    of its fields, looked up by [assoc]. *)
#[local] Unset Elimination Schemes.
Inductive JSON : Type :=
| JNull
| JBool (b : bool)
| JNum (n : Z)
| JStr (s : string)
| JArr (items : list JSON)
| JObj (fields : list (string * JSON)).
#[local] Set Elimination Schemes.

(** A JavaScript value: [None] is [undefined]. *)
Abbreviation JSValue := (option JSON).

Definition typeof (v : JSValue) : string :=
  match v with
  | None => "undefined"
  | Some JNull => "object"
  | Some (JBool _) => "boolean"
  | Some (JNum _) => "number"
  | Some (JStr _) => "string"
  | Some (JArr _) => "object"
  | Some (JObj _) => "object"
  end.

(** ToBoolean, as used by [!x] and [if (x)]. *)
Definition truthy (v : JSValue) : bool :=
  match v with
  | None => false
  | Some JNull => false
  | Some (JBool b) => b
  | Some (JNum n) => negb (n =? 0)%Z
  | Some (JStr s) => negb (s =? "")
  | Some (JArr _) => true
  | Some (JObj _) => true
  end.

Fixpoint assoc (k : string) (fs : list (string * JSON)) : JSValue :=
  match fs with
  | [] => None
  | (k', v) :: rest => if k' =? k then Some v else assoc k rest
  end.

(** What a rejected promise or a [throw] carries. *)
Inductive Exn : Type :=
| JsError (message : JSValue)   (* new Error(message) *)
| TypeError                     (* property read on null / undefined, call of a non-function *)
| SyntaxError                   (* JSON.parse on malformed text *)
| Reason (v : JSValue)          (* reject(v) with a plain value *)
| Foreign (tag : string).       (* raised inside a collaborator *)

(** [v.k] for the field names read in this file ([status], [code],
    [message], [data], [existsUUID], [uuid]): reading a property of
    [null] or [undefined] throws, a primitive or an array has none of
    these fields. *)
Definition get (v : JSValue) (k : string) : Exn + JSValue :=
  match v with
  | None => inl TypeError
  | Some JNull => inl TypeError
  | Some (JObj fs) => inr (assoc k fs)
  | Some _ => inr None
  end.

(** [v === "literal"] *)
Definition is_str (v : JSValue) (lit : string) : bool :=
  match v with
  | Some (JStr s) => s =? lit
  | _ => false
  end.

(** [s.indexOf(needle)]: position of the first occurrence, or -1. *)
Definition indexOf (s needle : string) : Z :=
  match String.index 0 needle s with
  | Some n => Z.of_nat n
  | None => (-1)%Z
  end.

(** State of a promise. *)
Inductive Outcome (A : Type) : Type :=
| Resolved (a : A)
| Rejected (e : Exn)
| Pending.
Arguments Resolved {A} a.
Arguments Rejected {A} e.
Arguments Pending {A}.

(* ================================================================= *)
(** ** Collaborators that live outside api.ts *)

(** The JavaScript runtime and the build information. *)
Class Runtime : Type := {
  JSON_stringify : JSON -> string;
  JSON_parse : string -> option JSON;        (* None: SyntaxError *)
  toLowerCase : string -> string;
  toUpperCase : string -> string;
  ToString : JSValue -> string;              (* "Bearer " + apiKey *)
  textEncoder_encode : string -> list byte;  (* UTF-8 bytes *)
  encodeURIComponent : string -> string;
  URLSearchParams : string -> list (string * string);
  striptags : JSValue -> Exn + string;
  packageJSON_version : string;
  packageJSON_buildNumber : string;
  process_platform : string
}.

(** [../crypto] and [../helpers]. *)
Class Crypto : Type := {
  hashFn : string -> string;
  bufferToHash : list byte -> string -> Exn + string;
  encryptMetadata : string -> JSValue -> Outcome string;
  decryptFolderName : string -> JSValue -> Exn + JSValue;
  decryptFileMetadata : string -> JSValue -> Exn + JSValue;
  parseURLParamsSearch : list (string * string) -> JSON
}.

(** [constants.json]. *)
Class Constants : Type := {
  maxRetryAPIRequest : Z;
  retryAPIRequestTimeout : Z;
  maxRetryUpload : Z;
  retryUploadTimeout : Z;
  maxRetryDownload : Z;
  retryDownloadTimeout : Z;
  apiServers : list string
}.

(* ================================================================= *)
(** ** The wire *)

(** What is written to a request: text passed to [req.write], or the
    chunk piped into it. *)
Inductive Body : Type :=
| Text (s : string)
| Bytes (b : list byte).

Record HttpRequest : Type := {
  rq_method : string;
  rq_hostname : string;
  rq_path : string;
  rq_port : Z;
  rq_headers : list (string * string);
  rq_body : option Body
}.

Fixpoint header (name : string) (hs : list (string * string)) : option string :=
  match hs with
  | [] => None
  | (n, v) :: rest => if n =? name then Some v else header name rest
  end.

(** What the environment delivers to a request loop: a scheduled
    [doRequest] runs and reads [navigator.onLine]; or the request in
    flight gets its response (status line, then the body at "end"), an
    "error" event, or a "timeout" event. A request ends with one of the
    three. *)
Inductive NetEvent : Type :=
| Timer (onLine : bool)
| Response (statusCode : Z) (body : string)
| ReqError
| ReqTimeout.

(** Where a request loop stands: a [doRequest] is scheduled, a request
    is in flight, or the promise has settled. *)
Inductive Ctl : Type :=
| Scheduled
| InFlight
| Settled (o : Exn + JSValue).

Record Loop : Type := {
  currentTries : Z;
  ctl : Ctl;
  sent : list HttpRequest;   (* requests issued, oldest first *)
  sleeps : list Z            (* delays passed to setTimeout, oldest first *)
}.

Definition loop_init : Loop :=
  {| currentTries := 0; ctl := Scheduled; sent := []; sleeps := [] |}.

(** [setTimeout(doRequest, ms)] *)
Definition reschedule (ms : Z) (st : Loop) : Loop :=
  {| currentTries := currentTries st; ctl := Scheduled;
     sent := sent st; sleeps := sleeps st ++ [ms] |}.

Definition settle (o : Exn + JSValue) (st : Loop) : Loop :=
  {| currentTries := currentTries st; ctl := Settled o;
     sent := sent st; sleeps := sleeps st |}.

(** [currentTries += 1] followed by [https.request(...)]. *)
Definition issue (r : HttpRequest) (st : Loop) : Loop :=
  {| currentTries := currentTries st + 1; ctl := InFlight;
     sent := sent st ++ [r]; sleeps := sleeps st |}.

Definition userAgent `{Runtime} : string :=
  "filen-desktop/" +:+ packageJSON_version +:+ "-" +:+ packageJSON_buildNumber
    +:+ "-" +:+ process_platform.

(* ================================================================= *)
(** ** Transport: doAPIRequest *)

Record ApiArgs : Type := {
  arg_method : string;
  arg_endpoint : string;
  arg_data : JSValue;        (* undefined: the default {} applies *)
  arg_timeout : Z;
  arg_includeRaw : bool;
  arg_apiKey : JSValue
}.

Section Transport.
Context `{Runtime} `{Crypto} `{Constants}.

(** The parameter default [data = {}]. *)
Definition api_data (a : ApiArgs) : JSON :=
  match arg_data a with
  | Some d => d
  | None => JObj []
  end.

Definition getAPIServer (getRandomArbitrary : Z -> Z -> Z) : option string :=
  let i := getRandomArbitrary 0%Z (Z.of_nat (length apiServers) - 1)%Z in
  if (i <? 0)%Z then None else nth_error apiServers (Z.to_nat i).

(** [bufferToHash(textEncoder.encode(JSON.stringify(
      typeof data !== "undefined" ? data : {})), "SHA-512")] *)
Definition api_checksum (a : ApiArgs) : Exn + string :=
  let data := api_data a in
  bufferToHash
    (textEncoder_encode
       (JSON_stringify
          (if typeof (Some data) =? "undefined" then JObj [] else data)))
    "SHA-512".

Definition api_request (a : ApiArgs) (checksum : string) : HttpRequest :=
  {| rq_method := toUpperCase (arg_method a);
     rq_hostname := "gateway.filen.io";
     rq_path := arg_endpoint a;
     rq_port := 443;
     rq_headers :=
       [ ("Content-Type", "application/json");
         ("User-Agent", userAgent);
         ("Authorization", "Bearer " +:+ ToString (arg_apiKey a));
         ("Checksum", checksum) ];
     rq_body :=
       if toUpperCase (arg_method a) =? "POST"
       then Some (Text (JSON_stringify (api_data a)))
       else None |}.

Definition api_max_retries_error (a : ApiArgs) : Exn :=
  JsError (Some (JStr
    ("Maximum retries (" +:+ ToString (Some (JNum maxRetryAPIRequest))
      +:+ ") reached for API request: "
      +:+ JSON_stringify (JObj [ ("method", JStr (arg_method a));
                                 ("endpoint", JStr (arg_endpoint a));
                                 ("data", api_data a);
                                 ("timeout", JNum (arg_timeout a)) ])))).

(** One run of the inner [doRequest]. *)
Definition api_doRequest (a : ApiArgs) (checksum : string)
           (onLine : bool) (st : Loop) : Loop :=
  if negb onLine then reschedule retryAPIRequestTimeout st
  else if (maxRetryAPIRequest <=? currentTries st)%Z
       then settle (inl (api_max_retries_error a)) st
       else issue (api_request a checksum) st.

(** The response callback and its "end" handler. *)
Definition api_on_response (a : ApiArgs) (statusCode : Z) (body : string)
           (st : Loop) : Loop :=
  if negb (statusCode =? 200)%Z then reschedule retryAPIRequestTimeout st
  else
    match JSON_parse body with
    | None => settle (inl SyntaxError) st
    | Some obj =>
        match get (Some obj) "code" with
        | inl e => settle (inl e) st
        | inr code =>
            if (typeof code =? "string") && is_str code "internal_error"
            then reschedule retryAPIRequestTimeout st
            else if arg_includeRaw a
                 then settle (inr (Some (JObj [("data", obj); ("raw", JStr body)]))) st
                 else settle (inr (Some obj)) st
        end
    end.

Definition api_step (a : ApiArgs) (checksum : string)
           (e : NetEvent) (st : Loop) : Loop :=
  match ctl st, e with
  | Scheduled, Timer onLine => api_doRequest a checksum onLine st
  | InFlight, Response statusCode body => api_on_response a statusCode body st
  | InFlight, ReqError => reschedule retryAPIRequestTimeout st
  | InFlight, ReqTimeout => reschedule retryAPIRequestTimeout st
  | _, _ => st
  end.

Definition api_run (a : ApiArgs) (checksum : string)
           (evs : list NetEvent) (st : Loop) : Loop :=
  fold_left (fun s e => api_step a checksum e s) evs st.

(** [doAPIRequest] under the network events [evs]. *)
Definition doAPIRequest (a : ApiArgs) (evs : list NetEvent) : Loop :=
  match api_checksum a with
  | inl e => settle (inl e) loop_init
  | inr checksum => api_run a checksum evs loop_init
  end.

Definition loop_outcome (st : Loop) : Outcome JSValue :=
  match ctl st with
  | Settled (inr v) => Resolved v
  | Settled (inl e) => Rejected e
  | _ => Pending
  end.

End Transport.

(* ================================================================= *)
(** ** Asynchronous functions: state, log and outcome *)

(** Observable effects of a call, in order. [EvShared] and
    [EvSharedForRename] stand for a call of [checkIfItemParentIsShared]
    and of [checkIfItemIsSharedForRename]. *)
Inductive Event : Type :=
| EvHttp (r : HttpRequest)
| EvLogout
| EvAcquire
| EvRelease
| EvShared (type parent : string) (metaData : JSON)
| EvSharedForRename (type uuid : string) (metaData : JSON).

Record World : Type := {
  db : gmap string JSON;     (* the configuration store *)
  permits : Z;               (* free permits of createFolderSemaphore *)
  log : list Event
}.

(** What the surroundings do to one call: the network events each API
    request meets, whether a read of the store fails, and how the
    metadata propagation settles. *)
Record Env : Type := {
  network : ApiArgs -> list NetEvent;
  db_get_fault : string -> option Exn;
  shared_outcome : string -> string -> JSON -> Outcome unit;
  shared_for_rename_outcome : string -> string -> JSON -> Outcome unit
}.

Definition M (A : Type) : Type := World -> World * Outcome A.

Definition ret {A} (a : A) : M A := fun w => (w, Resolved a).

Definition throw {A} (e : Exn) : M A := fun w => (w, Rejected e).

Definition bind {A B} (c : M A) (k : A -> M B) : M B :=
  fun w =>
    match c w with
    | (w', Resolved a) => k a w'
    | (w', Rejected e) => (w', Rejected e)
    | (w', Pending) => (w', Pending)
    end.

(** [try { c } catch (e) { h e }] *)
Definition try_catch {A} (c : M A) (h : Exn -> M A) : M A :=
  fun w =>
    match c w with
    | (w', Rejected e) => h e w'
    | r => r
    end.

Notation "'let*' x ':=' c 'in' k" := (bind c (fun x => k))
  (at level 10, x name, c at level 100, k at level 200).
Notation "c1 ';;' c2" := (bind c1 (fun _ => c2))
  (at level 100, c2 at level 200, right associativity).

Definition emit (e : Event) : M unit :=
  fun w => ({| db := db w; permits := permits w; log := log w ++ [e] |}, Resolved tt).

Definition emit_all (es : list Event) : M unit :=
  fun w => ({| db := db w; permits := permits w; log := log w ++ es |}, Resolved tt).

(** A synchronous step that may throw. *)
Definition lift {A} (r : Exn + A) : M A :=
  match r with
  | inl e => throw e
  | inr a => ret a
  end.

(** [await p] for a promise whose outcome is known. *)
Definition await {A} (o : Outcome A) : M A := fun w => (w, o).

Definition db_get (env : Env) (key : string) : M JSValue :=
  fun w =>
    match db_get_fault env key with
    | Some e => (w, Rejected e)
    | None => (w, Resolved (db w !! key))
    end.

(** Modelled from the spec: the [Semaphore] class of [../helpers] is
    not part of api.ts. Sections 4.4 and 5 describe
    [createFolderSemaphore] as a process-global 1-permit gate that
    serializes [createFolder]: [acquire] takes a permit and waits while
    none is free, [release] gives one back. *)
Definition acquire : M unit :=
  fun w =>
    if (0 <? permits w)%Z
    then ({| db := db w; permits := permits w - 1; log := log w ++ [EvAcquire] |}, Resolved tt)
    else (w, Pending).

Definition release : M unit :=
  fun w =>
    ({| db := db w; permits := permits w + 1; log := log w ++ [EvRelease] |}, Resolved tt).

Definition count_releases (l : list Event) : nat :=
  length (List.filter (fun e => match e with EvRelease => true | _ => false end) l).

Definition count_logouts (l : list Event) : nat :=
  length (List.filter (fun e => match e with EvLogout => true | _ => false end) l).

Definition is_shared_event (e : Event) : bool :=
  match e with
  | EvShared _ _ _ => true
  | EvSharedForRename _ _ _ => true
  | _ => false
  end.

(** [masterKeys[masterKeys.length - 1]] *)
Definition last_element (v : JSValue) : Exn + JSValue :=
  match v with
  | None => inl TypeError
  | Some JNull => inl TypeError
  | Some (JArr items) => inr (last items)
  | Some (JStr s) =>
      inr (match String.get (String.length s - 1) s with
           | Some c => if (String.length s =? 0)%nat then None
                       else Some (JStr (String c EmptyString))
           | None => None
           end)
  | Some _ => inr None
  end.

Section Calls.
Context `{Runtime} `{Crypto} `{Constants}.
Variable env : Env.

(** The call [doAPIRequest({...})] seen from an async caller. *)
Definition call_doAPIRequest (a : ApiArgs) : M JSValue :=
  let st := doAPIRequest a (network env a) in
  emit_all (map EvHttp (sent st)) ;;
  await (loop_outcome st).

(** [logout().catch(console.error)] *)
Definition logout : M unit := emit EvLogout.

(** The first two lines of [apiRequest]: pick the key, await
    [doAPIRequest]. *)
Definition apiRequest_response (method endpoint : string) (data apiKey : JSValue)
           (includeRaw : bool) : M JSValue :=
  let* dbAPIKey :=
    match apiKey with
    | Some (JStr k) =>
        if (String.length k =? 64)%nat then ret apiKey else db_get env "apiKey"
    | _ => db_get env "apiKey"
    end in
  call_doAPIRequest
    {| arg_method := method; arg_endpoint := endpoint; arg_data := data;
       arg_timeout := 500000; arg_includeRaw := includeRaw;
       arg_apiKey := dbAPIKey |}.

(** The tests [typeof response.code === "string"] and
    [typeof response.message === "string"] are the two [JStr]
    patterns. *)
Definition apiRequest (method endpoint : string) (data apiKey : JSValue)
           (includeRaw : bool) : M JSValue :=
  let* response := apiRequest_response method endpoint data apiKey includeRaw in
  if typeof response =? "object" then
    let* code := lift (get response "code") in
    let* message := lift (get response "message") in
    match code, message with
    | Some (JStr c), Some (JStr m) =>
        if negb (indexOf (toLowerCase m) "api key not found" =? -1)%Z
           || negb (indexOf (toLowerCase m) "invalid api key" =? -1)%Z
           || (c =? "api_key_not_found")
        then logout ;; throw (JsError (Some (JStr "Session invalidated")))
        else ret response
    | _, _ => ret response
    end
  else ret response.

(** [checkIfItemParentIsShared({type, parent, metaData})] as a call
    whose settlement the environment decides. *)
Definition call_checkIfItemParentIsShared (type parent : string) (metaData : JSON)
  : M unit :=
  emit (EvShared type parent metaData) ;;
  await (shared_outcome env type parent metaData).

Definition call_checkIfItemIsSharedForRename (type uuid : string) (metaData : JSON)
  : M unit :=
  emit (EvSharedForRename type uuid metaData) ;;
  await (shared_for_rename_outcome env type uuid metaData).

(** The first half of the [try] block of [createFolder]: hash the
    name, encrypt it under the last master key, and await the
    response of [/v3/dir/create]. *)
Definition createFolder_response (uuid name parent : string) : M JSValue :=
  let nameHashed := hashFn (toLowerCase name) in
  let* masterKeys := db_get env "masterKeys" in
  let* key := lift (last_element masterKeys) in
  let* encrypted :=
    await (encryptMetadata (JSON_stringify (JObj [("name", JStr name)])) key) in
  apiRequest "POST" "/v3/dir/create"
    (Some (JObj [ ("uuid", JStr uuid); ("name", JStr encrypted);
                  ("nameHashed", JStr nameHashed); ("parent", JStr parent) ]))
    None false.

Definition createFolder (uuid name parent : string) : M JSValue :=
  acquire ;;
  try_catch
    (let* response := createFolder_response uuid name parent in
     let* status := lift (get response "status") in
     if negb (truthy status) then
       let* data := lift (get response "data") in
       let* existsUUID :=
         if typeof data =? "undefined" then ret None
         else lift (get data "existsUUID") in
       if negb (typeof existsUUID =? "undefined") then
         release ;; ret existsUUID
       else
         let* message := lift (get response "message") in
         throw (JsError message)
     else
       call_checkIfItemParentIsShared "folder" parent
         (JObj [("uuid", JStr uuid); ("name", JStr name)]) ;;
       release ;;
       ret (Some (JStr uuid)))
    (fun e => release ;; throw e).

End Calls.

(* ================================================================= *)
(** ** Trash, move, rename *)

Record FileArg : Type := {
  file_uuid : string;
  file_name : string;
  file_size : Z;
  file_mime : string;
  file_key : string;
  file_lastModified : Z
}.

Record FolderArg : Type := {
  folder_uuid : string;
  folder_name : string
}.

(** [codes.includes(v)] for an array of string literals. *)
Definition includes (codes : list string) (v : JSValue) : bool :=
  existsb (is_str v) codes.

(** [chunkedPromiseAll([p1, p2])] of [../helpers], for two promises:
    rejected as soon as one is, resolved when both are. *)
Definition both {A B} (o1 : Outcome A) (o2 : Outcome B) : Outcome (A * B) :=
  match o1, o2 with
  | Rejected e, _ => Rejected e
  | _, Rejected e => Rejected e
  | Resolved a, Resolved b => Resolved (a, b)
  | _, _ => Pending
  end.

(** The fields [{name, size: file.size, mime: file.mime, key: file.key,
    lastModified: file.lastModified}]. *)
Definition file_fields (name : string) (f : FileArg) : list (string * JSON) :=
  [ ("name", JStr name); ("size", JNum (file_size f));
    ("mime", JStr (file_mime f)); ("key", JStr (file_key f));
    ("lastModified", JNum (file_lastModified f)) ].

Section Mutations.
Context `{Runtime} `{Crypto} `{Constants}.
Variable env : Env.

(** The common tail of the five operations:
    [if (!response.status) { if (codes.includes(response.code)) return; throw new Error(response.message) }] *)
Definition swallow_not_found (codes : list string) (response : JSValue)
           (onSuccess : M unit) : M unit :=
  let* status := lift (get response "status") in
  if negb (truthy status) then
    let* code := lift (get response "code") in
    if includes codes code then ret tt
    else
      let* message := lift (get response "message") in
      throw (JsError message)
  else onSuccess.

(** Each operation awaits the response of its endpoint, then decides. *)
Definition trashItem_response (type uuid : string) : M JSValue :=
  apiRequest env "POST"
    (if type =? "folder" then "/v3/dir/trash" else "/v3/file/trash")
    (Some (JObj [("uuid", JStr uuid)])) None false.

Definition trashItem (type uuid : string) : M unit :=
  let* response := trashItem_response type uuid in
  swallow_not_found ["folder_not_found"; "file_not_found"] response (ret tt).

Definition moveFile_response (file : FileArg) (parent : string) : M JSValue :=
  apiRequest env "POST" "/v3/file/move"
    (Some (JObj [("uuid", JStr (file_uuid file)); ("to", JStr parent)]))
    None false.

Definition moveFile (file : FileArg) (parent : string) : M unit :=
  let* response := moveFile_response file parent in
  swallow_not_found ["file_not_found"] response
    (call_checkIfItemParentIsShared env "file" parent
       (JObj (("uuid", JStr (file_uuid file)) :: file_fields (file_name file) file))).

Definition moveFolder_response (folder : FolderArg) (parent : string) : M JSValue :=
  apiRequest env "POST" "/v3/dir/move"
    (Some (JObj [("uuid", JStr (folder_uuid folder)); ("to", JStr parent)]))
    None false.

Definition moveFolder (folder : FolderArg) (parent : string) : M unit :=
  let* response := moveFolder_response folder parent in
  swallow_not_found ["folder_not_found"] response
    (call_checkIfItemParentIsShared env "folder" parent
       (JObj [ ("name", JStr (folder_name folder));
               ("uuid", JStr (folder_uuid folder)) ])).

Definition renameFile_response (file : FileArg) (name : string) : M JSValue :=
  let nameHashed := hashFn (toLowerCase name) in
  let* masterKeys := db_get env "masterKeys" in
  let* key := lift (last_element masterKeys) in
  let* pair :=
    await (both (encryptMetadata (JSON_stringify (JObj (file_fields name file))) key)
                (encryptMetadata name (Some (JStr (file_key file))))) in
  apiRequest env "POST" "/v3/file/rename"
    (Some (JObj [ ("uuid", JStr (file_uuid file)); ("name", JStr (snd pair));
                  ("nameHashed", JStr nameHashed);
                  ("metadata", JStr (fst pair)) ]))
    None false.

Definition renameFile (file : FileArg) (name : string) : M unit :=
  let* response := renameFile_response file name in
  swallow_not_found ["file_not_found"] response
    (call_checkIfItemIsSharedForRename env "file" (file_uuid file)
       (JObj (file_fields name file))).

Definition renameFolder_response (folder : FolderArg) (name : string) : M JSValue :=
  let nameHashed := hashFn (toLowerCase name) in
  let* masterKeys := db_get env "masterKeys" in
  let* key := lift (last_element masterKeys) in
  let* encrypted :=
    await (encryptMetadata (JSON_stringify (JObj [("name", JStr name)])) key) in
  apiRequest env "POST" "/v3/dir/rename"
    (Some (JObj [ ("uuid", JStr (folder_uuid folder)); ("name", JStr encrypted);
                  ("nameHashed", JStr nameHashed) ]))
    None false.

Definition renameFolder (folder : FolderArg) (name : string) : M unit :=
  let* response := renameFolder_response folder name in
  swallow_not_found ["folder_not_found"] response
    (call_checkIfItemIsSharedForRename env "folder" (folder_uuid folder)
       (JObj [("name", JStr name)])).

End Mutations.

(* ================================================================= *)
(** ** Transfer engine: pause gate, uploadChunk, downloadChunk *)

(** A transfer first polls the pause flags, then runs its attempts. *)
Inductive Phase : Type :=
| Gate
| Attempts.

Record Xfer : Type := {
  x_db : gmap string JSON;            (* the configuration store *)
  x_pausedLocations : gset string;    (* uuids for which isSyncLocationPaused holds *)
  x_phase : Phase;
  x_loop : Loop
}.

(** What happens around a transfer: a scheduled [getPausedStatus] runs
    and its reads settle ([ok = false]: one of them rejects; [onLine] is
    what [navigator.onLine] reads should [doRequest] start right away);
    a network event of the attempt loop; or somebody else writes the
    store or pauses / resumes a sync location. *)
Inductive XferInput : Type :=
| Poll (ok onLine : bool)
| Net (e : NetEvent)
| StoreSet (key : string) (v : JSON)
| LocationPaused (uuid : string) (paused : bool).

(** [typeof location !== "undefined" && typeof location.uuid == "string"],
    read only when [from == "sync"]. *)
Definition gate_location (from : string) (location : JSValue) : Exn + option string :=
  if from =? "sync" then
    if typeof location =? "undefined" then inr None
    else
      match get location "uuid" with
      | inl e => inl e
      | inr (Some (JStr u)) => inr (Some u)
      | inr _ => inr None
      end
  else inr None.

(** The key read by the non-sync branch of [getPausedStatus]. *)
Definition pause_key (from : string) : string :=
  if negb (indexOf from "download" =? -1)%Z then "downloadPaused"
  else if negb (indexOf from "upload" =? -1)%Z then "uploadPaused"
  else "paused".

(** Whether [getPausedStatus] finds a flag set. *)
Definition paused_now (from : string) (loc : option string)
           (store : gmap string JSON) (locs : gset string) : bool :=
  if from =? "sync" then
    match loc with
    | Some u => truthy (store !! "paused") || bool_decide (u ∈ locs)
    | None => truthy (store !! "paused")
    end
  else truthy (store !! pause_key from).

Definition with_loop (x : Xfer) (l : Loop) : Xfer :=
  {| x_db := x_db x; x_pausedLocations := x_pausedLocations x;
     x_phase := x_phase x; x_loop := l |}.

Definition enter_attempts (x : Xfer) (l : Loop) : Xfer :=
  {| x_db := x_db x; x_pausedLocations := x_pausedLocations x;
     x_phase := Attempts; x_loop := l |}.

(** [db.set(key, v)]: the store is a map with atomic reads and writes; a
    write that fails would only be logged. *)
Definition store_set (key : string) (v : JSON) (x : Xfer) : Xfer :=
  {| x_db := <[key := v]> (x_db x); x_pausedLocations := x_pausedLocations x;
     x_phase := x_phase x; x_loop := x_loop x |}.

Definition location_set (uuid : string) (paused : bool) (x : Xfer) : Xfer :=
  {| x_db := x_db x;
     x_pausedLocations :=
       if paused then {[uuid]} ∪ x_pausedLocations x
       else x_pausedLocations x ∖ {[uuid]};
     x_phase := x_phase x; x_loop := x_loop x |}.

(** A call that rejects before the gate. *)
Definition xfer_rejected (store : gmap string JSON) (locs : gset string) (e : Exn) : Xfer :=
  {| x_db := store; x_pausedLocations := locs; x_phase := Attempts;
     x_loop := settle (inl e) loop_init |}.

Definition xfer_start (store : gmap string JSON) (locs : gset string) : Xfer :=
  {| x_db := store; x_pausedLocations := locs; x_phase := Gate;
     x_loop := loop_init |}.

Record UploadArgs : Type := {
  up_queryParams : string;
  up_data : list byte;
  up_from : string;
  up_location : JSValue
}.

Record DownloadArgs : Type := {
  dl_region : string;
  dl_bucket : string;
  dl_uuid : string;
  dl_index : Z;
  dl_from : string;
  dl_location : JSValue
}.

Fixpoint first_param (name : string) (ps : list (string * string)) : option string :=
  match ps with
  | [] => None
  | (k, v) :: rest => if k =? name then Some v else first_param name rest
  end.

Section Transfer.
Context `{Runtime} `{Crypto} `{Constants}.

(** *** uploadChunk *)

(** [queryParams + "&hash=" + encodeURIComponent(chunkHash)] *)
Definition upload_queryParams (a : UploadArgs) (chunkHash : string) : string :=
  up_queryParams a +:+ "&hash=" +:+ encodeURIComponent chunkHash.

(** [urlParams.get("uuid") || ""] *)
Definition upload_uuid (queryParams : string) : string :=
  match first_param "uuid" (URLSearchParams queryParams) with
  | Some u => u
  | None => ""
  end.

Definition upload_checksum (queryParams : string) : Exn + string :=
  bufferToHash
    (textEncoder_encode
       (JSON_stringify (parseURLParamsSearch (URLSearchParams queryParams))))
    "SHA-512".

Definition upload_request (a : UploadArgs) (apiKey : JSValue)
           (queryParams checksum : string) : HttpRequest :=
  {| rq_method := "POST";
     rq_hostname := "ingest.filen.io";
     rq_path := "/v3/upload?" +:+ queryParams;
     rq_port := 443;
     rq_headers :=
       [ ("User-Agent", userAgent);
         ("Authorization", "Bearer " +:+ ToString apiKey);
         ("Content-Type", "application/x-www-form-urlencoded");
         ("Checksum", checksum) ];
     rq_body := Some (Bytes (up_data a)) |}.

Definition upload_doRequest (a : UploadArgs) (apiKey : JSValue)
           (queryParams checksum : string) (onLine : bool) (st : Loop) : Loop :=
  if negb onLine then reschedule retryUploadTimeout st
  else if (maxRetryUpload <=? currentTries st)%Z
       then settle (inl (JsError (Some (JStr
              ("Max retries reached for upload " +:+ upload_uuid queryParams))))) st
       else issue (upload_request a apiKey queryParams checksum) st.

(** The response callback of an upload attempt and its "end" handler. *)
Definition upload_on_response (statusCode : Z) (body : string) (x : Xfer) : Xfer :=
  if negb (statusCode =? 200)%Z
  then with_loop x (reschedule retryUploadTimeout (x_loop x))
  else
    match JSON_parse body with
    | None => with_loop x (settle (inl SyntaxError) (x_loop x))
    | Some obj =>
        match get (Some obj) "status" with
        | inl e => with_loop x (settle (inl e) (x_loop x))
        | inr status =>
            if negb (truthy status) then
              match get (Some obj) "message" with
              | inr (Some (JStr m)) =>
                  let x' :=
                    if negb (indexOf (toLowerCase m) "storage" =? -1)%Z
                    then store_set "maxStorageReached" (JBool true)
                           (store_set "paused" (JBool true) x)
                    else x in
                  with_loop x' (settle (inl (Reason (Some (JStr m)))) (x_loop x'))
              | _ => with_loop x (settle (inl TypeError) (x_loop x))
              end
            else with_loop x (settle (inr (Some obj)) (x_loop x))
        end
    end.

Definition upload_step (a : UploadArgs) (apiKey : JSValue) (chunkHash : string)
           (loc : option string) (i : XferInput) (x : Xfer) : Xfer :=
  let queryParams := upload_queryParams a chunkHash in
  match i with
  | StoreSet key v => store_set key v x
  | LocationPaused uuid p => location_set uuid p x
  | Poll ok _ =>
      match x_phase x with
      | Gate =>
          if ok && negb (paused_now (up_from a) loc (x_db x) (x_pausedLocations x))
          then
            match upload_checksum queryParams with
            | inl e => enter_attempts x (settle (inl e) (x_loop x))
            | inr _ => enter_attempts x (x_loop x)
            end
          else with_loop x (reschedule 1000 (x_loop x))
      | Attempts => x
      end
  | Net e =>
      match x_phase x, ctl (x_loop x), e with
      | Attempts, Scheduled, Timer onLine =>
          match upload_checksum queryParams with
          | inr checksum =>
              with_loop x
                (upload_doRequest a apiKey queryParams checksum onLine (x_loop x))
          | inl _ => x
          end
      | Attempts, InFlight, Response statusCode body =>
          upload_on_response statusCode body x
      | Attempts, InFlight, ReqError =>
          with_loop x (settle (inl (Foreign "request error")) (x_loop x))
      | Attempts, InFlight, ReqTimeout =>
          with_loop x (settle (inl (JsError (Some (JStr "Upload request timed out"))))
                              (x_loop x))
      | _, _, _ => x
      end
  end.

(** [uploadChunk] on the store [store], under the inputs [inputs].
    [fault] is the rejection of one of the initial reads, if any. *)
Definition uploadChunk (a : UploadArgs) (fault : option Exn)
           (store : gmap string JSON) (locs : gset string)
           (inputs : list XferInput) : Xfer :=
  match fault with
  | Some e => xfer_rejected store locs e
  | None =>
      match bufferToHash (up_data a) "SHA-512" with
      | inl e => xfer_rejected store locs e
      | inr chunkHash =>
          if truthy (store !! "maxStorageReached")
          then xfer_rejected store locs (JsError (Some (JStr "Max storage reached")))
          else
            match gate_location (up_from a) (up_location a) with
            | inl e => xfer_rejected store locs e
            | inr loc =>
                fold_left (fun x i => upload_step a (store !! "apiKey") chunkHash loc i x)
                          inputs (xfer_start store locs)
            end
      end
  end.

(** *** downloadChunk *)

Definition download_path (a : DownloadArgs) : string :=
  "/" +:+ dl_region a +:+ "/" +:+ dl_bucket a +:+ "/" +:+ dl_uuid a
    +:+ "/" +:+ ToString (Some (JNum (dl_index a))).

Definition download_request (a : DownloadArgs) : HttpRequest :=
  {| rq_method := "GET";
     rq_hostname := "down.filen.io";
     rq_path := download_path a;
     rq_port := 443;
     rq_headers := [ ("User-Agent", userAgent) ];
     rq_body := None |}.

Definition download_doRequest (a : DownloadArgs) (onLine : bool) (st : Loop) : Loop :=
  if negb onLine then reschedule retryDownloadTimeout st
  else if (maxRetryDownload <=? currentTries st)%Z
       then settle (inl (JsError (Some (JStr
              ("Max retries reached for " +:+ download_path a))))) st
       else issue (download_request a) st.

Definition download_step (a : DownloadArgs) (loc : option string)
           (i : XferInput) (x : Xfer) : Xfer :=
  match i with
  | StoreSet key v => store_set key v x
  | LocationPaused uuid p => location_set uuid p x
  | Poll ok onLine =>
      match x_phase x with
      | Gate =>
          if ok && negb (paused_now (dl_from a) loc (x_db x) (x_pausedLocations x))
          then enter_attempts x (download_doRequest a onLine (x_loop x))
          else with_loop x (reschedule 1000 (x_loop x))
      | Attempts => x
      end
  | Net e =>
      match x_phase x, ctl (x_loop x), e with
      | Attempts, Scheduled, Timer onLine =>
          with_loop x (download_doRequest a onLine (x_loop x))
      | Attempts, InFlight, Response statusCode body =>
          if negb (statusCode =? 200)%Z
          then with_loop x (reschedule retryDownloadTimeout (x_loop x))
          else with_loop x (settle (inr (Some (JStr body))) (x_loop x))
      | Attempts, InFlight, ReqError =>
          with_loop x (reschedule retryDownloadTimeout (x_loop x))
      | Attempts, InFlight, ReqTimeout =>
          with_loop x (reschedule retryDownloadTimeout (x_loop x))
      | _, _, _ => x
      end
  end.

Definition downloadChunk (a : DownloadArgs) (fault : option Exn)
           (store : gmap string JSON) (locs : gset string)
           (inputs : list XferInput) : Xfer :=
  match fault with
  | Some e => xfer_rejected store locs e
  | None =>
      match gate_location (dl_from a) (dl_location a) with
      | inl e => xfer_rejected store locs e
      | inr loc =>
          fold_left (fun x i => download_step a loc i x)
                    inputs (xfer_start store locs)
      end
  end.

End Transfer.

(* ================================================================= *)
(** ** Metadata propagator: the items of a folder *)

(** An entry of [itemsToShare] / [itemsToLink]. The metadata of a
    folder is its name, that of a file an object. *)
Record Item : Type := {
  it_uuid : string;
  it_parent : string;
  it_metadata : JSValue;
  it_type : string
}.

(** Entries of [contents.files] and [contents.folders] as returned by
    [/v3/dir/download]. *)
Record FileEntry : Type := {
  fe_uuid : string;
  fe_parent : string;
  fe_metadata : string
}.

Record FolderEntry : Type := {
  fo_uuid : string;
  fo_parent : string;
  fo_name : string
}.

(** A field of an object literal; a field whose value is [undefined]
    does not survive serialization. *)
Definition field (k : string) (v : JSValue) : list (string * JSON) :=
  match v with
  | Some j => [(k, j)]
  | None => []
  end.

Section Propagator.
Context `{Runtime} `{Crypto}.
Variable masterKeys : JSValue.
Variable metaData_uuid : string.

(** One round of the loop over [contents.files]: [None] when the file
    is skipped. An exception leaves the enclosing [then] callback. *)
Definition file_item (f : FileEntry) : Exn + option Item :=
  match decryptFileMetadata (fe_metadata f) masterKeys with
  | inl e => inl e
  | inr decrypted =>
      if typeof decrypted =? "object" then
        match get decrypted "name" with
        | inl e => inl e
        | inr (Some (JStr n)) =>
            match striptags (Some (JStr n)) with
            | inl e => inl e
            | inr name =>
                if negb (name =? "") then
                  match get decrypted "size", get decrypted "mime",
                        get decrypted "key", get decrypted "lastModified" with
                  | inr size, inr mime, inr key, inr lastModified =>
                      match striptags mime with
                      | inl e => inl e
                      | inr mime' =>
                          inr (Some
                            {| it_uuid := fe_uuid f;
                               it_parent := fe_parent f;
                               it_metadata :=
                                 Some (JObj (("name", JStr name) :: field "size" size
                                               ++ [("mime", JStr mime')]
                                               ++ field "key" key
                                               ++ field "lastModified" lastModified));
                               it_type := "file" |})
                      end
                  | _, _, _, _ => inl TypeError
                  end
                else inr None
            end
        | inr _ => inr None
        end
      else inr None
  end.

Fixpoint files_loop (files : list FileEntry) (acc : list Item) : Exn + list Item :=
  match files with
  | [] => inr acc
  | f :: rest =>
      match file_item f with
      | inl e => inl e
      | inr (Some it) => files_loop rest (acc ++ [it])
      | inr None => files_loop rest acc
      end
  end.

(** The [try { var decrypted = striptags(await decryptFolderName(...)) } catch (e) {}]
    of the loop over [contents.folders]. [decrypted] is declared with
    [var], so it belongs to the whole callback: when the [try] block
    throws, the variable keeps the value of the previous round. *)
Definition folder_decrypted (d : FolderEntry) (decrypted : JSValue) : JSValue :=
  match decryptFolderName (fo_name d) masterKeys with
  | inl _ => decrypted
  | inr v =>
      match striptags v with
      | inl _ => decrypted
      | inr s => Some (JStr s)
      end
  end.

Definition folder_push (i : nat) (d : FolderEntry) (decrypted : JSValue)
           (acc : list Item) : list Item :=
  match decrypted with
  | Some (JStr s) =>
      if negb (s =? "") then
        if negb (fo_uuid d =? metaData_uuid) && negb (fo_parent d =? "base") then
          acc ++ [ {| it_uuid := fo_uuid d;
                      it_parent := if (i =? 0)%nat then "none" else fo_parent d;
                      it_metadata := Some (JStr s);
                      it_type := "folder" |} ]
        else acc
      else acc
  | _ => acc
  end.

Fixpoint folders_loop (i : nat) (folders : list FolderEntry)
         (decrypted : JSValue) (acc : list Item) : list Item :=
  match folders with
  | [] => acc
  | d :: rest =>
      let decrypted' := folder_decrypted d decrypted in
      folders_loop (S i) rest decrypted' (folder_push i d decrypted' acc)
  end.

(** The list built in the folder branch of the share fan-out. *)
Definition itemsToShare (metaData_name parent : string)
           (files : list FileEntry) (folders : list FolderEntry) : Exn + list Item :=
  match files_loop files
          [ {| it_uuid := metaData_uuid; it_parent := parent;
               it_metadata := Some (JStr metaData_name); it_type := "folder" |} ] with
  | inl e => inl e
  | inr acc => inr (folders_loop 0 folders None acc)
  end.

(** The folder branch of the link fan-out builds its list with the
    same statements. *)
Definition itemsToLink (metaData_name parent : string)
           (files : list FileEntry) (folders : list FolderEntry) : Exn + list Item :=
  match files_loop files
          [ {| it_uuid := metaData_uuid; it_parent := parent;
               it_metadata := Some (JStr metaData_name); it_type := "folder" |} ] with
  | inl e => inl e
  | inr acc => inr (folders_loop 0 folders None acc)
  end.

(** *** The list as the specification words it *)

(** A folder is decryptable when its name decrypts, without an
    exception, to a non-empty string. *)
Definition folder_name_of (d : FolderEntry) : option string :=
  match decryptFolderName (fo_name d) masterKeys with
  | inl _ => None
  | inr v =>
      match striptags v with
      | inl _ => None
      | inr s => if s =? "" then None else Some s
      end
  end.

(** Decryptable descendant folders, other than the folder itself and
    those under ["base"], each with its real parent, except the one at
    index 0, whose parent is ["none"]. *)
Fixpoint spec_folder_items (i : nat) (folders : list FolderEntry) : list Item :=
  match folders with
  | [] => []
  | d :: rest =>
      match folder_name_of d with
      | Some s =>
          if negb (fo_uuid d =? metaData_uuid) && negb (fo_parent d =? "base") then
            {| it_uuid := fo_uuid d;
               it_parent := if (i =? 0)%nat then "none" else fo_parent d;
               it_metadata := Some (JStr s);
               it_type := "folder" |} :: spec_folder_items (S i) rest
          else spec_folder_items (S i) rest
      | None => spec_folder_items (S i) rest
      end
  end.

Fixpoint spec_file_items (files : list FileEntry) : list Item :=
  match files with
  | [] => []
  | f :: rest =>
      match file_item f with
      | inr (Some it) => it :: spec_file_items rest
      | _ => spec_file_items rest
      end
  end.

Definition spec_items (metaData_name parent : string)
           (files : list FileEntry) (folders : list FolderEntry) : list Item :=
  {| it_uuid := metaData_uuid; it_parent := parent;
     it_metadata := Some (JStr metaData_name); it_type := "folder" |}
    :: spec_file_items files ++ spec_folder_items 0 folders.

End Propagator.

(* ================================================================= *)
(** ** A concrete runtime, for running the definitions *)

Module Sample.

Definition quote : string := String "034"%char EmptyString.

(** Compact serialization, fields in order. *)
Fixpoint stringify (j : JSON) : string :=
  match j with
  | JNull => "null"
  | JBool b => if b then "true" else "false"
  | JNum n => pretty.pretty n
  | JStr s => quote +:+ s +:+ quote
  | JArr items =>
      "[" +:+ (fix go (l : list JSON) : string :=
                 match l with
                 | [] => ""
                 | x :: r =>
                     stringify x +:+ match r with [] => "" | _ => "," +:+ go r end
                 end) items +:+ "]"
  | JObj fields =>
      "{" +:+ (fix go (l : list (string * JSON)) : string :=
                 match l with
                 | [] => ""
                 | (k, v) :: r =>
                     quote +:+ k +:+ quote +:+ ":" +:+ stringify v
                       +:+ match r with [] => "" | _ => "," +:+ go r end
                 end) fields +:+ "}"
  end.

Definition lower (c : ascii) : ascii :=
  let n := nat_of_ascii c in
  if (65 <=? n)%nat && (n <=? 90)%nat then ascii_of_nat (n + 32) else c.

Definition upper (c : ascii) : ascii :=
  let n := nat_of_ascii c in
  if (97 <=? n)%nat && (n <=? 122)%nat then ascii_of_nat (n - 32) else c.

Fixpoint map_string (f : ascii -> ascii) (s : string) : string :=
  match s with
  | EmptyString => EmptyString
  | String c r => String (f c) (map_string f r)
  end.

(** Split at every occurrence of [sep]. *)
Fixpoint split (sep : ascii) (s : string) : list string :=
  match s with
  | EmptyString => [EmptyString]
  | String c r =>
      if Ascii.eqb c sep then EmptyString :: split sep r
      else
        match split sep r with
        | [] => [String c EmptyString]
        | w :: ws => String c w :: ws
        end
  end.

Definition key_value (s : string) : string * string :=
  match split "="%char s with
  | [] => (s, "")
  | k :: vs => (k, String.concat "=" vs)
  end.

Definition searchParams (s : string) : list (string * string) :=
  map key_value (List.filter (fun p => negb (p =? "")) (split "&"%char s)).

(** The response bodies used below. *)
Definition r_invalid_key : JSON :=
  JObj [ ("status", JBool false); ("code", JStr "invalid_api_key");
         ("message", JStr "Invalid API key") ].

Definition r_message_only : JSON :=
  JObj [ ("status", JBool false); ("message", JStr "Invalid API key") ].

Definition r_exists : JSON :=
  JObj [ ("status", JBool false); ("code", JStr "folder_exists");
         ("message", JStr "Folder already exists");
         ("data", JObj [("existsUUID", JStr "uuid-of-existing")]) ].

Definition r_denied : JSON :=
  JObj [ ("status", JBool false); ("code", JStr "denied");
         ("message", JStr "Not allowed") ].

Definition r_file_not_found : JSON :=
  JObj [ ("status", JBool false); ("code", JStr "file_not_found");
         ("message", JStr "File not found") ].

Definition r_folder_not_found : JSON :=
  JObj [ ("status", JBool false); ("code", JStr "folder_not_found");
         ("message", JStr "Folder not found") ].

Definition r_storage : JSON :=
  JObj [ ("status", JBool false); ("message", JStr "Storage limit reached") ].

Definition r_ok : JSON :=
  JObj [ ("status", JBool true); ("data", JObj [("x", JNum 1)]) ].

Definition bodies : list JSON :=
  [ r_invalid_key; r_message_only; r_exists; r_denied; r_file_not_found;
    r_folder_not_found; r_storage; r_ok ].

(** Parses exactly the serializations of [bodies]. *)
Definition parse (s : string) : option JSON :=
  List.find (fun j => stringify j =? s) bodies.

Definition toStr (v : JSValue) : string :=
  match v with
  | None => "undefined"
  | Some JNull => "null"
  | Some (JBool b) => if b then "true" else "false"
  | Some (JNum n) => pretty.pretty n
  | Some (JStr s) => s
  | Some (JArr _) => ""
  | Some (JObj _) => "[object Object]"
  end.

Definition strip (v : JSValue) : Exn + string :=
  match v with
  | None => inr ""
  | Some (JStr s) => inr s
  | Some _ => inl TypeError
  end.

Definition runtime : Runtime :=
  {| JSON_stringify := stringify;
     JSON_parse := parse;
     toLowerCase := map_string lower;
     toUpperCase := map_string upper;
     ToString := toStr;
     textEncoder_encode := list_byte_of_string;
     encodeURIComponent := fun s => s;
     URLSearchParams := searchParams;
     striptags := strip;
     packageJSON_version := "2.0.0";
     packageJSON_buildNumber := "200";
     process_platform := "linux" |}.

(** Blobs that start with [bad] do not decrypt: the call throws. *)
Definition crypto : Crypto :=
  {| hashFn := fun s => "hash:" +:+ s;
     bufferToHash := fun b alg => inr (alg +:+ ":" +:+ string_of_list_byte b);
     encryptMetadata := fun s _ => Resolved ("enc:" +:+ s);
     decryptFolderName := fun blob _ =>
       if String.prefix "bad" blob then inl (Foreign "decrypt")
       else inr (Some (JStr blob));
     decryptFileMetadata := fun blob _ =>
       inr (Some (JObj [ ("name", JStr blob); ("size", JNum 1);
                         ("mime", JStr "text/plain"); ("key", JStr "k");
                         ("lastModified", JNum 0) ]));
     parseURLParamsSearch := fun ps => JObj (map (fun p => (fst p, JStr (snd p))) ps) |}.

Definition constants : Constants :=
  {| maxRetryAPIRequest := 2;
     retryAPIRequestTimeout := 1000;
     maxRetryUpload := 2;
     retryUploadTimeout := 1000;
     maxRetryDownload := 2;
     retryDownloadTimeout := 1000;
     apiServers := ["gateway.filen.io"; "gateway.filen.net"] |}.

(** Every API request goes out at once and is answered 200 with [body]. *)
Definition env_replying (body : JSON) : Env :=
  {| network := fun _ => [Timer true; Response 200 (stringify body)];
     db_get_fault := fun _ => None;
     shared_outcome := fun _ _ _ => Resolved tt;
     shared_for_rename_outcome := fun _ _ _ => Resolved tt |}.

Definition store : gmap string JSON :=
  <["apiKey" := JStr "key"]> (<["masterKeys" := JArr [JStr "mk1"; JStr "mk2"]]> ∅).

Definition world : World :=
  {| db := store; permits := 1; log := [] |}.

Definition post (endpoint : string) (data : JSON) : ApiArgs :=
  {| arg_method := "post"; arg_endpoint := endpoint; arg_data := Some data;
     arg_timeout := 500000; arg_includeRaw := false;
     arg_apiKey := Some (JStr "key") |}.

Definition upload : UploadArgs :=
  {| up_queryParams := "uuid=f1&index=0"; up_data := [x61; x62]%byte;
     up_from := "sync"; up_location := None |}.

Definition download : DownloadArgs :=
  {| dl_region := "de-1"; dl_bucket := "b1"; dl_uuid := "f1"; dl_index := 0;
     dl_from := "sync"; dl_location := None |}.

Definition file : FileArg :=
  {| file_uuid := "f1"; file_name := "a.txt"; file_size := 3;
     file_mime := "text/plain"; file_key := "k"; file_lastModified := 0 |}.

Definition folder : FolderArg :=
  {| folder_uuid := "d1"; folder_name := "Docs" |}.

End Sample.

(* ================================================================= *)
(** ** Predicates used in the statements *)

(** [attempts_inv max P st]: the counter equals the number of requests
    issued, it never exceeds [max] (nor 0 when [max] is negative), and
    every request issued satisfies [P]. *)
Definition attempts_inv (max : Z) (P : HttpRequest -> Prop) (st : Loop) : Prop :=
  Z.of_nat (length (sent st)) = currentTries st
  /\ (currentTries st <= Z.max 0 max)%Z
  /\ Forall P (sent st).

(** Requests of an upload: all equal, built from the query string with
    the hash appended and from its checksum. *)
Definition is_upload_request `{Runtime} `{Crypto}
           (a : UploadArgs) (apiKey : JSValue) (chunkHash : string)
           (r : HttpRequest) : Prop :=
  exists checksum,
    upload_checksum (upload_queryParams a chunkHash) = inr checksum
    /\ r = upload_request a apiKey (upload_queryParams a chunkHash) checksum.

(** Events that neither move a permit nor start a propagation. *)
Definition quiet_event (e : Event) : Prop :=
  match e with
  | EvHttp _ => True
  | EvLogout => True
  | _ => False
  end.

Definition http_event (e : Event) : Prop :=
  match e with
  | EvHttp _ => True
  | _ => False
  end.

(** [w'] is [w] with more events logged, all of them in [Q]; store and
    permits are the same. *)
Definition extends_with (Q : Event -> Prop) (w w' : World) : Prop :=
  permits w' = permits w
  /\ db w' = db w
  /\ exists es, log w' = log w ++ es /\ Forall Q es.

(** A computation that logs events of [Q] only. *)
Definition only {A} (Q : Event -> Prop) (c : M A) : Prop :=
  forall w w' o, c w = (w', o) -> extends_with Q w w'.

(** The world once [acquire] has taken a permit, and once [release]
    has given one back. *)
Definition acquired (w : World) : World :=
  {| db := db w; permits := permits w - 1; log := log w ++ [EvAcquire] |}.

Definition released (w : World) : World :=
  {| db := db w; permits := permits w + 1; log := log w ++ [EvRelease] |}.

Definition logged_out (w : World) : World :=
  {| db := db w; permits := permits w; log := log w ++ [EvLogout] |}.



(** The verdict of the five operations on a response with a false
    status: swallowed when its code is listed, else the server message. *)
Definition swallowed_or_failed (codes : list string) (fs : list (string * JSON))
           (w1 : World) (r : World * Outcome unit) : Prop :=
  (includes codes (assoc "code" fs) = true -> r = (w1, Resolved tt))
  /\ (includes codes (assoc "code" fs) = false ->
      r = (w1, Rejected (JsError (assoc "message" fs)))).

(** The inputs contain a poll that found the gate open: before it the
    machine was still at the gate, had sent nothing, and no applicable
    flag was set in the store as it was then. *)
Definition gate_opened (run : list XferInput -> Xfer) (from : string)
           (loc : option string) (inputs : list XferInput) : Prop :=
  exists pre onLine post,
    inputs = pre ++ Poll true onLine :: post
    /\ x_phase (run pre) = Gate
    /\ sent (x_loop (run pre)) = []
    /\ paused_now from loc (x_db (run pre)) (x_pausedLocations (run pre)) = false.

(* ================================================================= *)
(** ** Further parts of api.ts *)

(** *** Scripts of network events *)







(** *** Progress reports *)

(** The message passed to [sendToAllPorts]. *)
Record ProgressEvent : Type := {
  pe_type : string;
  pe_uuid : string;
  pe_bytes : Z;
  pe_from : string
}.

(** [calcProgress(written)] of an upload attempt, on the variable
    [lastBytes]: the bytes to report and the new [lastBytes]. The byte
    counts of the progress stream are integers, on which [Math.floor]
    does nothing. *)
Definition calcProgress (lastBytes written : Z) : Z * Z :=
  if (lastBytes =? 0)%Z then (written, written)
  else ((written - lastBytes)%Z, written).

(** The events of one upload attempt whose progress stream reports the
    totals [transferred], one after the other; [lastBytes] is 0 when
    the attempt starts. *)
Fixpoint upload_progress_from (from uuid : string) (lastBytes : Z)
         (transferred : list Z) : list ProgressEvent :=
  match transferred with
  | [] => []
  | written :: rest =>
      let (bytes, lastBytes') := calcProgress lastBytes written in
      {| pe_type := if from =? "sync" then "uploadProgress" else "uploadProgressSeperate";
         pe_uuid := uuid; pe_bytes := bytes; pe_from := from |}
        :: upload_progress_from from uuid lastBytes' rest
  end.

Definition upload_progress (from uuid : string) (transferred : list Z)
  : list ProgressEvent :=
  upload_progress_from from uuid 0 transferred.

(** The events of one download attempt that receives the slices
    [chunks], and the buffer it resolves with. *)
Definition download_progress (from uuid : string) (chunks : list string)
  : list ProgressEvent :=
  map (fun chunk =>
         {| pe_type := if from =? "sync" then "downloadProgress"
                       else "downloadProgressSeperate";
            pe_uuid := uuid;
            pe_bytes := Z.of_nat (String.length chunk);
            pe_from := from |})
      chunks.

Definition buffer_concat (chunks : list string) : string :=
  String.concat "" chunks.

Definition reported_bytes (es : list ProgressEvent) : Z :=
  fold_right Z.add 0%Z (map pe_bytes es).

(** *** Thin wrappers around apiRequest *)

Section Wrappers.
Context `{Runtime} `{Crypto} `{Constants}.
Variable env : Env.

(** [if (!response.status) throw new Error(response.message); return response.data] *)
Definition checked (response : JSValue) : M JSValue :=
  let* status := lift (get response "status") in
  if negb (truthy status) then
    let* message := lift (get response "message") in
    throw (JsError message)
  else lift (get response "data").

Definition userInfo (passedApiKey : JSValue) : M JSValue :=
  let* apiKey :=
    if truthy passedApiKey then ret passedApiKey else db_get env "apiKey" in
  let* response := apiRequest env "GET" "/v3/user/info" None apiKey false in
  checked response.


End Wrappers.

(** *** Metadata propagator: the two fan-outs *)

(** What the server lists for a shared or linked item. *)
Record User : Type := {
  user_id : JSValue;
  user_email : JSValue;
  user_publicKey : JSValue
}.

Record Link : Type := {
  link_linkUUID : JSValue;
  link_linkKey : JSValue
}.

(** What [isSharingFolder] / [isSharingItem] and
    [isPublicLinkingFolder] / [isItemInPublicLink] resolve with; the
    server sends the recipients and the links as arrays. *)
Record SharingInfo : Type := {
  sh_sharing : JSValue;
  sh_users : list User
}.

Record LinkingInfo : Type := {
  lk_linking : JSValue;
  lk_links : list Link
}.

(** What [getFolderContents] resolves with. *)
Record Contents : Type := {
  ct_files : list FileEntry;
  ct_folders : list FolderEntry
}.

(** The [metaData] argument; a folder has a uuid and a name only. *)
Record MetaData : Type := {
  md_uuid : string;
  md_name : string;
  md_size : JSValue;
  md_mime : JSValue;
  md_key : JSValue;
  md_lastModified : JSValue
}.

(** The arguments of the four calls a fan-out dispatches. *)
Record ShareItemReq : Type := {
  si_uuid : string;
  si_parent : string;
  si_email : JSValue;
  si_type : string;
  si_metadata : string
}.

Record AddLinkReq : Type := {
  al_uuid : string;
  al_parent : string;
  al_linkUUID : JSValue;
  al_type : string;
  al_metadata : string;
  al_key : JSValue;
  al_expiration : string
}.

Record RenameSharedReq : Type := {
  rs_uuid : string;
  rs_receiverId : JSValue;
  rs_metadata : string
}.

Record RenameLinkReq : Type := {
  rl_uuid : string;
  rl_linkUUID : JSValue;
  rl_metadata : string
}.

(** How the calls made by a fan-out settle. *)
Record Fanout : Type := {
  encryptMetadataPublicKey : string -> JSValue -> Outcome string;
  decryptFolderLinkKey : JSValue -> JSValue -> Outcome JSValue;
  isSharingFolder_outcome : string -> Outcome SharingInfo;
  isPublicLinkingFolder_outcome : string -> Outcome LinkingInfo;
  isSharingItem_outcome : string -> Outcome SharingInfo;
  isItemInPublicLink_outcome : string -> Outcome LinkingInfo;
  getFolderContents_outcome : string -> Outcome Contents;
  shareItem_outcome : ShareItemReq -> Outcome unit;
  addItemToPublicLink_outcome : AddLinkReq -> Outcome unit;
  renameSharedItem_outcome : RenameSharedReq -> Outcome unit;
  renameItemInPublicLink_outcome : RenameLinkReq -> Outcome unit
}.

(** One side of a fan-out: the calls dispatched, in the order of the
    loop that starts them, the counter ([doneUsers], [itemsShared],
    [linksDone], [itemsLinked]) and the flag ([shareCheckDone],
    [linkCheckDone]). *)
Record Arm (R : Type) : Type := {
  arm_requests : list R;
  arm_count : nat;
  arm_done : bool
}.
Arguments arm_requests {R} a.
Arguments arm_count {R} a.
Arguments arm_done {R} a.

Definition arm_idle {R} : Arm R :=
  {| arm_requests := []; arm_count := 0; arm_done := false |}.

(** [shareCheckDone = true] (or [linkCheckDone = true]) set directly. *)
Definition arm_finish {R} (st : Arm R) : Arm R :=
  {| arm_requests := arm_requests st; arm_count := arm_count st; arm_done := true |}.

Definition arm_send {R} (r : R) (st : Arm R) : Arm R :=
  {| arm_requests := arm_requests st ++ [r]; arm_count := arm_count st;
     arm_done := arm_done st |}.

(** [doneSharing], [doneSharingItem], [doneLinking], [itemLinked]: count
    one, and set the flag when the count has reached the total. *)
Definition arm_tick {R} (total : nat) (st : Arm R) : Arm R :=
  {| arm_requests := arm_requests st;
     arm_count := S (arm_count st);
     arm_done := arm_done st || (total <=? S (arm_count st))%nat |}.

(** [call(req).then(tick).catch(tick)] *)
Definition send_and_tick {R} (settles : R -> Outcome unit) (total : nat)
           (req : R) (st : Arm R) : Arm R :=
  match settles req with
  | Pending => arm_send req st
  | _ => arm_tick total (arm_send req st)
  end.

(** [encrypt.then(encrypted => call(mk encrypted).then(tick).catch(tick)).catch(tick)] *)
Definition dispatch {R} (settles : R -> Outcome unit) (total : nat)
           (enc : Outcome string) (mk : string -> R) (st : Arm R) : Arm R :=
  match enc with
  | Resolved encrypted => send_and_tick settles total (mk encrypted) st
  | Rejected _ => arm_tick total st
  | Pending => st
  end.

(** Whether the chain of [dispatch] comes to call its tick. *)
Definition chain_settles {R} (settles : R -> Outcome unit)
           (enc : Outcome string) (mk : string -> R) : bool :=
  match enc with
  | Resolved encrypted =>
      match settles (mk encrypted) with
      | Pending => false
      | _ => true
      end
  | Rejected _ => true
  | Pending => false
  end.

Definition is_resolved {A} (o : Outcome A) : bool :=
  match o with
  | Resolved _ => true
  | _ => false
  end.

(** The result of a fan-out. *)
Record FanoutRun (S L : Type) : Type := {
  fr_share : Arm S;
  fr_link : Arm L;
  fr_outcome : Outcome JSValue
}.
Arguments fr_share {S L} f.
Arguments fr_link {S L} f.
Arguments fr_outcome {S L} f.

(** [done()] resolves with [true] once both flags are set; nothing in
    the two sides rejects. *)
Definition rendezvous {S L} (share : Arm S) (link : Arm L) : FanoutRun S L :=
  {| fr_share := share; fr_link := link;
     fr_outcome := if arm_done share && arm_done link
                   then Resolved (Some (JBool true)) else Pending |}.

Section Fanouts.
Context `{Runtime} `{Crypto}.
Variable F : Fanout.
Variable masterKeys : JSValue.

(** [JSON.stringify({name, size, mime, key, lastModified})] of [metaData] *)
Definition metadata_text (md : MetaData) : string :=
  JSON_stringify
    (JObj (("name", JStr (md_name md)) :: field "size" (md_size md)
             ++ field "mime" (md_mime md) ++ field "key" (md_key md)
             ++ field "lastModified" (md_lastModified md))).

(** [JSON.stringify({name: metaData.name})] *)
Definition name_text (md : MetaData) : string :=
  JSON_stringify (JObj [("name", JStr (md_name md))]).

(** The text encrypted for an entry of [itemsToShare] / [itemsToLink]. *)
Definition item_text (it : Item) : Exn + string :=
  if it_type it =? "file" then
    match get (it_metadata it) "name", get (it_metadata it) "size",
          get (it_metadata it) "mime", get (it_metadata it) "key",
          get (it_metadata it) "lastModified" with
    | inr n, inr s, inr m, inr k, inr l =>
        inr (JSON_stringify
               (JObj (field "name" n ++ field "size" s ++ field "mime" m
                        ++ field "key" k ++ field "lastModified" l)))
    | _, _, _, _, _ => inl TypeError
    end
  else inr (JSON_stringify (JObj (field "name" (it_metadata it)))).

(** **** checkIfItemParentIsShared, share side *)

Definition share_file_request (type parent : string) (md : MetaData) (user : User)
           (encrypted : string) : ShareItemReq :=
  {| si_uuid := md_uuid md; si_parent := parent; si_email := user_email user;
     si_type := type; si_metadata := encrypted |}.

Definition share_file_loop (type parent : string) (md : MetaData)
           (us : list User) : Arm ShareItemReq :=
  fold_left
    (fun st user =>
       dispatch (shareItem_outcome F) (length us)
         (encryptMetadataPublicKey F (metadata_text md) (user_publicKey user))
         (share_file_request type parent md user) st)
    us arm_idle.

Definition share_item_request (it : Item) (user : User) (encrypted : string)
  : ShareItemReq :=
  {| si_uuid := it_uuid it; si_parent := it_parent it; si_email := user_email user;
     si_type := it_type it; si_metadata := encrypted |}.

(** The two nested loops over [itemsToShare] and the recipients. An
    exception leaves the callback; its [catch] sets the flag. *)
Fixpoint share_pairs_loop (total : nat) (pairs : list (Item * User))
         (st : Arm ShareItemReq) : Arm ShareItemReq :=
  match pairs with
  | [] => st
  | (it, user) :: rest =>
      match item_text it with
      | inl _ => arm_finish st
      | inr text =>
          share_pairs_loop total rest
            (dispatch (shareItem_outcome F) total
               (encryptMetadataPublicKey F text (user_publicKey user))
               (share_item_request it user) st)
      end
  end.

Definition share_arm (type parent : string) (md : MetaData) : Arm ShareItemReq :=
  match isSharingFolder_outcome F parent with
  | Rejected _ => arm_finish arm_idle
  | Pending => arm_idle
  | Resolved data =>
      if negb (truthy (sh_sharing data)) then arm_finish arm_idle
      else if type =? "file" then share_file_loop type parent md (sh_users data)
      else
        match getFolderContents_outcome F (md_uuid md) with
        | Rejected _ => arm_finish arm_idle
        | Pending => arm_idle
        | Resolved contents =>
            match itemsToShare masterKeys (md_uuid md) (md_name md) parent
                    (ct_files contents) (ct_folders contents) with
            | inl _ => arm_finish arm_idle
            | inr items =>
                share_pairs_loop (length items * length (sh_users data))
                  (list_prod items (sh_users data)) arm_idle
            end
        end
  end.

(** **** checkIfItemParentIsShared, link side *)

(** The loop over the links of a file runs inside one async callback:
    [key] and [encrypted] are declared with [var] in [try] blocks and
    keep their value from one round to the next when a block throws.
    [sl_stopped]: an awaited promise never settles, the loop goes no
    further. *)
Record SeqLoop : Type := {
  sl_arm : Arm AddLinkReq;
  sl_key : JSValue;
  sl_encrypted : JSValue;
  sl_stopped : bool
}.

Definition sl_stop (s : SeqLoop) : SeqLoop :=
  {| sl_arm := sl_arm s; sl_key := sl_key s; sl_encrypted := sl_encrypted s;
     sl_stopped := true |}.

Definition link_file_request (type parent : string) (md : MetaData) (link : Link)
           (encrypted : string) : AddLinkReq :=
  {| al_uuid := md_uuid md; al_parent := parent; al_linkUUID := link_linkUUID link;
     al_type := type; al_metadata := encrypted; al_key := link_linkKey link;
     al_expiration := "never" |}.

Definition link_file_round (type parent : string) (md : MetaData) (total : nat)
           (s : SeqLoop) (link : Link) : SeqLoop :=
  if sl_stopped s then s
  else
    match decryptFolderLinkKey F (link_linkKey link) masterKeys with
    | Pending => sl_stop s
    | decrypted =>
        let key := match decrypted with Resolved v => v | _ => sl_key s end in
        match key with
        | Some (JStr k) =>
            if negb (k =? "") then
              match encryptMetadata (metadata_text md) (Some (JStr k)) with
              | Pending =>
                  {| sl_arm := sl_arm s; sl_key := key;
                     sl_encrypted := sl_encrypted s; sl_stopped := true |}
              | enc =>
                  let encrypted :=
                    match enc with
                    | Resolved e => Some (JStr e)
                    | _ => sl_encrypted s
                    end in
                  {| sl_arm :=
                       match encrypted with
                       | Some (JStr e) =>
                           if negb (e =? "") then
                             send_and_tick (addItemToPublicLink_outcome F) total
                               (link_file_request type parent md link e) (sl_arm s)
                           else arm_tick total (sl_arm s)
                       | _ => arm_tick total (sl_arm s)
                       end;
                     sl_key := key; sl_encrypted := encrypted;
                     sl_stopped := false |}
              end
            else
              {| sl_arm := arm_tick total (sl_arm s); sl_key := key;
                 sl_encrypted := sl_encrypted s; sl_stopped := false |}
        | _ =>
            {| sl_arm := arm_tick total (sl_arm s); sl_key := key;
               sl_encrypted := sl_encrypted s; sl_stopped := false |}
        end
    end.

Definition link_file_loop (type parent : string) (md : MetaData)
           (ls : list Link) : SeqLoop :=
  fold_left (link_file_round type parent md (length ls)) ls
    {| sl_arm := arm_idle; sl_key := None; sl_encrypted := None;
       sl_stopped := false |}.

Definition link_item_request (it : Item) (link : Link) (encrypted : string)
  : AddLinkReq :=
  {| al_uuid := it_uuid it; al_parent := it_parent it;
     al_linkUUID := link_linkUUID link; al_type := it_type it;
     al_metadata := encrypted; al_key := link_linkKey link;
     al_expiration := "never" |}.

(** In the loops over [itemsToLink] and the links, [key] is a [const]
    awaited outside any [try]: a rejection leaves the callback, whose
    [catch] sets the flag. [encrypted] is again a [var]. *)
Definition link_item_round (total : nat) (s : SeqLoop) (p : Item * Link) : SeqLoop :=
  if sl_stopped s then s
  else
    match decryptFolderLinkKey F (link_linkKey (snd p)) masterKeys with
    | Pending => sl_stop s
    | Rejected _ =>
        {| sl_arm := arm_finish (sl_arm s); sl_key := sl_key s;
           sl_encrypted := sl_encrypted s; sl_stopped := true |}
    | Resolved (Some (JStr k)) =>
        if negb (k =? "") then
          match item_text (fst p) with
          | inl _ =>
              {| sl_arm := arm_finish (sl_arm s); sl_key := sl_key s;
                 sl_encrypted := sl_encrypted s; sl_stopped := true |}
          | inr text =>
              match encryptMetadata text (Some (JStr k)) with
              | Pending => sl_stop s
              | enc =>
                  let encrypted :=
                    match enc with
                    | Resolved e => Some (JStr e)
                    | _ => sl_encrypted s
                    end in
                  {| sl_arm :=
                       match encrypted with
                       | Some (JStr e) =>
                           if negb (e =? "") then
                             send_and_tick (addItemToPublicLink_outcome F) total
                               (link_item_request (fst p) (snd p) e) (sl_arm s)
                           else arm_tick total (sl_arm s)
                       | _ => arm_tick total (sl_arm s)
                       end;
                     sl_key := sl_key s; sl_encrypted := encrypted;
                     sl_stopped := false |}
              end
          end
        else
          {| sl_arm := arm_tick total (sl_arm s); sl_key := sl_key s;
             sl_encrypted := sl_encrypted s; sl_stopped := false |}
    | Resolved _ =>
        {| sl_arm := arm_tick total (sl_arm s); sl_key := sl_key s;
           sl_encrypted := sl_encrypted s; sl_stopped := false |}
    end.

Definition link_arm (type parent : string) (md : MetaData) : Arm AddLinkReq :=
  match isPublicLinkingFolder_outcome F parent with
  | Rejected _ => arm_finish arm_idle
  | Pending => arm_idle
  | Resolved data =>
      if negb (truthy (lk_linking data)) then arm_finish arm_idle
      else if type =? "file"
      then sl_arm (link_file_loop type parent md (lk_links data))
      else
        match getFolderContents_outcome F (md_uuid md) with
        | Rejected _ => arm_finish arm_idle
        | Pending => arm_idle
        | Resolved contents =>
            match itemsToLink masterKeys (md_uuid md) (md_name md) parent
                    (ct_files contents) (ct_folders contents) with
            | inl _ => arm_finish arm_idle
            | inr items =>
                sl_arm
                  (fold_left
                     (link_item_round (length items * length (lk_links data)))
                     (list_prod items (lk_links data))
                     {| sl_arm := arm_idle; sl_key := None; sl_encrypted := None;
                        sl_stopped := false |})
            end
        end
  end.

(** [fault]: the rejection of [db.get("apiKey")] or of
    [db.get("masterKeys")], if any; it is passed to [reject] and neither
    side starts. *)
Definition checkIfItemParentIsShared (fault : option Exn) (type parent : string)
           (md : MetaData) : FanoutRun ShareItemReq AddLinkReq :=
  match fault with
  | Some e => {| fr_share := arm_idle; fr_link := arm_idle; fr_outcome := Rejected e |}
  | None => rendezvous (share_arm type parent md) (link_arm type parent md)
  end.

(** **** checkIfItemIsSharedForRename *)

Definition rename_text (type : string) (md : MetaData) : string :=
  if type =? "file" then metadata_text md else name_text md.

Definition rename_share_arm (type uuid : string) (md : MetaData)
  : Arm RenameSharedReq :=
  match isSharingItem_outcome F uuid with
  | Rejected _ => arm_finish arm_idle
  | Pending => arm_idle
  | Resolved data =>
      if negb (truthy (sh_sharing data)) then arm_finish arm_idle
      else
        fold_left
          (fun st user =>
             dispatch (renameSharedItem_outcome F) (length (sh_users data))
               (encryptMetadataPublicKey F (rename_text type md) (user_publicKey user))
               (fun encrypted =>
                  {| rs_uuid := uuid; rs_receiverId := user_id user;
                     rs_metadata := encrypted |})
               st)
          (sh_users data) arm_idle
  end.

(** [decryptFolderLinkKey(...).then(key => encryptMetadata(text, key)...)]:
    the key is passed on as it comes. *)
Definition rename_link_encrypted (type : string) (md : MetaData) (link : Link)
  : Outcome string :=
  match decryptFolderLinkKey F (link_linkKey link) masterKeys with
  | Resolved key => encryptMetadata (rename_text type md) key
  | Rejected e => Rejected e
  | Pending => Pending
  end.

Definition rename_link_arm (type uuid : string) (md : MetaData)
  : Arm RenameLinkReq :=
  match isItemInPublicLink_outcome F uuid with
  | Rejected _ => arm_finish arm_idle
  | Pending => arm_idle
  | Resolved data =>
      if negb (truthy (lk_linking data)) then arm_finish arm_idle
      else
        fold_left
          (fun st link =>
             dispatch (renameItemInPublicLink_outcome F) (length (lk_links data))
               (rename_link_encrypted type md link)
               (fun encrypted =>
                  {| rl_uuid := uuid; rl_linkUUID := link_linkUUID link;
                     rl_metadata := encrypted |})
               st)
          (lk_links data) arm_idle
  end.

Definition checkIfItemIsSharedForRename (fault : option Exn) (type uuid : string)
           (md : MetaData) : FanoutRun RenameSharedReq RenameLinkReq :=
  match fault with
  | Some e => {| fr_share := arm_idle; fr_link := arm_idle; fr_outcome := Rejected e |}
  | None => rendezvous (rename_share_arm type uuid md) (rename_link_arm type uuid md)
  end.

End Fanouts.

(** *** Notions used in the further statements *)

(** The key [apiRequest] authenticates with: the one passed when it is
    a string of 64 characters, else the one in the store. *)
Definition chosen_key (apiKey : JSValue) (store : gmap string JSON) : JSValue :=
  match apiKey with
  | Some (JStr k) => if (String.length k =? 64)%nat then apiKey else store !! "apiKey"
  | _ => store !! "apiKey"
  end.

(** The arguments [apiRequest] hands to [doAPIRequest]. *)
Definition api_args (method endpoint : string) (data : JSValue) (includeRaw : bool)
           (key : JSValue) : ApiArgs :=
  {| arg_method := method; arg_endpoint := endpoint; arg_data := data;
     arg_timeout := 500000; arg_includeRaw := includeRaw; arg_apiKey := key |}.

(** What [doAPIRequest] resolves with for the parsed body [obj] of the
    text [body]. *)
Definition api_result (includeRaw : bool) (body : string) (obj : JSON) : JSValue :=
  if includeRaw then Some (JObj [("data", obj); ("raw", JStr body)]) else Some obj.

(** What a 200 answer with the text [body] settles [doAPIRequest]
    with, when it settles it. *)
Definition api_answer `{Runtime} (a : ApiArgs) (body : string)
           (o : Exn + JSValue) : Prop :=
  match JSON_parse body with
  | None => o = inl SyntaxError
  | Some obj =>
      match get (Some obj) "code" with
      | inl e => o = inl e
      | inr code =>
          is_str code "internal_error" = false
          /\ o = inr (api_result (arg_includeRaw a) body obj)
      end
  end.

(** The two ways the request loop of [doAPIRequest] settles: the budget
    is used up, or a request was answered 200. *)
Definition api_settled_by `{Runtime} `{Crypto} `{Constants} (a : ApiArgs)
           (evs : list NetEvent) (st : Loop) (o : Exn + JSValue) : Prop :=
  (o = inl (api_max_retries_error a)
   /\ (maxRetryAPIRequest <= Z.of_nat (length (sent st)))%Z)
  \/ exists body, In (Response 200 body) evs /\ api_answer a body o.


(** A transfer that is still at the gate has a poll scheduled and has
    sent nothing. *)
Definition at_gate_inv (x : Xfer) : Prop :=
  x_phase x = Gate -> ctl (x_loop x) = Scheduled /\ sent (x_loop x) = [].




(** A request of [apiRequest] for [method] and [endpoint],
    authenticated with [key]. *)
Definition is_api_request_of `{Runtime} (method endpoint : string) (key : JSValue)
           (r : HttpRequest) : Prop :=
  rq_hostname r = "gateway.filen.io"
  /\ rq_port r = 443%Z
  /\ rq_path r = endpoint
  /\ rq_method r = toUpperCase method
  /\ header "Authorization" (rq_headers r) = Some ("Bearer " +:+ ToString key).

(** *** Notions used in the statements about the fan-outs *)

(** For a loop that starts one chain per element of [xs]: the number of
    chains that come to call their tick, and the calls made. *)
Definition settled_chains {R X} (settles : R -> Outcome unit)
           (enc : X -> Outcome string) (mk : X -> string -> R) (xs : list X) : nat :=
  length (List.filter (fun x => chain_settles settles (enc x) (mk x)) xs).

Definition dispatched {R X} (enc : X -> Outcome string) (mk : X -> string -> R)
           (xs : list X) : list R :=
  flat_map (fun x => match enc x with Resolved e => [mk x e] | _ => [] end) xs.

(** The flag of a side is set by a tick only, and then the counter has
    reached the total. *)
Definition flag_by_count {R} (total : nat) (st : Arm R) : Prop :=
  arm_done st = (0 <? arm_count st)%nat && (total <=? arm_count st)%nat.

(** Calls that have not settled. *)
Definition unsettled {R} (settles : R -> Outcome unit) (rs : list R) : nat :=
  length (List.filter (fun r => match settles r with Pending => true | _ => false end) rs).

Section FanoutNotions.
Context `{Runtime} `{Crypto}.
Variable F : Fanout.
Variable masterKeys : JSValue.

Definition rename_share_request (uuid : string) (user : User) (encrypted : string)
  : RenameSharedReq :=
  {| rs_uuid := uuid; rs_receiverId := user_id user; rs_metadata := encrypted |}.

Definition rename_link_request (uuid : string) (link : Link) (encrypted : string)
  : RenameLinkReq :=
  {| rl_uuid := uuid; rl_linkUUID := link_linkUUID link; rl_metadata := encrypted |}.

(** Whether the chain started for a recipient, and for a link, of a
    renamed item comes to an end. *)
Definition rename_share_settles (type uuid : string) (md : MetaData) (user : User) : bool :=
  chain_settles (renameSharedItem_outcome F)
    (encryptMetadataPublicKey F (rename_text type md) (user_publicKey user))
    (rename_share_request uuid user).

Definition rename_link_settles (type uuid : string) (md : MetaData) (link : Link) : bool :=
  chain_settles (renameItemInPublicLink_outcome F)
    (rename_link_encrypted F masterKeys type md link)
    (rename_link_request uuid link).

(** The same for a recipient of a file that was moved under a shared
    parent. *)
Definition share_file_settles (type parent : string) (md : MetaData) (user : User) : bool :=
  chain_settles (shareItem_outcome F)
    (encryptMetadataPublicKey F (metadata_text md) (user_publicKey user))
    (share_file_request type parent md user).

(** The text encrypted for an entry, and the chain started for an entry
    and a recipient. *)
Definition item_text_of (it : Item) : string :=
  match item_text it with
  | inr text => text
  | inl _ => ""
  end.

Definition share_item_encrypted (p : Item * User) : Outcome string :=
  encryptMetadataPublicKey F (item_text_of (fst p)) (user_publicKey (snd p)).

Definition share_item_settles (p : Item * User) : bool :=
  chain_settles (shareItem_outcome F) (share_item_encrypted p)
    (share_item_request (fst p) (snd p)).

End FanoutNotions.

(** What the loop over the links of a file keeps true after [i] rounds
    out of [total]: the flag follows the counter; every round that was
    run to its end has ticked or has a call outstanding, and a loop that
    is stuck in an [await] is short of that; every call names a link
    of [links] with that link's own key, and there is at most one call
    per round. *)
Definition link_file_inv `{Runtime} `{Crypto} (F : Fanout) (type parent : string)
           (md : MetaData) (total : nat) (links : list Link) (i : nat)
           (s : SeqLoop) : Prop :=
  flag_by_count total (sl_arm s)
  /\ (sl_stopped s = false ->
      (arm_count (sl_arm s)
       + unsettled (addItemToPublicLink_outcome F) (arm_requests (sl_arm s)) = i)%nat)
  /\ (sl_stopped s = true ->
      (arm_count (sl_arm s)
       + unsettled (addItemToPublicLink_outcome F) (arm_requests (sl_arm s)) < i)%nat)
  /\ Forall (fun r => exists link e,
                 In link links /\ e <> ""
                 /\ r = link_file_request type parent md link e)
       (arm_requests (sl_arm s))
  /\ (length (arm_requests (sl_arm s)) <= i)%nat.

(** An entry whose text can be built: [item_text] throws on a file
    entry without metadata only. *)
Definition item_has_text `{Runtime} (it : Item) : Prop :=
  exists text, item_text it = inr text.

(** The entry for the folder itself, first in both lists. *)
Definition folder_itself (parent : string) (md : MetaData) : Item :=
  {| it_uuid := md_uuid md; it_parent := parent;
     it_metadata := Some (JStr (md_name md)); it_type := "folder" |}.

(** How a move or a rename ends: with its requests only; with a
    [logout] after them and the error "Session invalidated"; or with the
    propagation [ev] after them, whose outcome [propagated] is then the
    outcome of the call. *)
Definition ends_with_propagation (w w' : World) (o : Outcome unit)
           (ev : Event) (propagated : Outcome unit) : Prop :=
  db w' = db w /\ permits w' = permits w
  /\ exists rs tail,
       log w' = log w ++ map EvHttp rs ++ tail
       /\ (tail = []
           \/ (tail = [EvLogout]
               /\ o = Rejected (JsError (Some (JStr "Session invalidated"))))
           \/ (tail = [ev] /\ o = propagated)).

(* ================================================================= *)
(** ** Concrete surroundings for the fan-outs *)

Module Cases.

Definition alice : User :=
  {| user_id := Some (JNum 1); user_email := Some (JStr "alice@example.org");
     user_publicKey := Some (JStr "pk-alice") |}.

Definition bob : User :=
  {| user_id := Some (JNum 2); user_email := Some (JStr "bob@example.org");
     user_publicKey := Some (JStr "pk-bob") |}.

Definition link1 : Link :=
  {| link_linkUUID := Some (JStr "l1"); link_linkKey := Some (JStr "lk1") |}.

(** A link whose key does not decrypt. *)
Definition link2 : Link :=
  {| link_linkUUID := Some (JStr "l2"); link_linkKey := Some (JStr "bad lk2") |}.

Definition sharing : SharingInfo :=
  {| sh_sharing := Some (JBool true); sh_users := [alice; bob] |}.

Definition linking : LinkingInfo :=
  {| lk_linking := Some (JBool true); lk_links := [link1; link2] |}.

Definition contents : Contents :=
  {| ct_files := [ {| fe_uuid := "f"; fe_parent := "root"; fe_metadata := "a.txt" |} ];
     ct_folders := [ {| fo_uuid := "a"; fo_parent := "root"; fo_name := "A" |} ] |}.

(** Every call settles; link keys that start with [bad] do not
    decrypt. *)
Definition fanout : Fanout :=
  {| encryptMetadataPublicKey := fun text _ => Resolved ("pk:" +:+ text);
     decryptFolderLinkKey := fun key _ =>
       match key with
       | Some (JStr k) =>
           if String.prefix "bad" k then Rejected (Foreign "decrypt")
           else Resolved (Some (JStr ("key:" +:+ k)))
       | _ => Rejected TypeError
       end;
     isSharingFolder_outcome := fun _ => Resolved sharing;
     isPublicLinkingFolder_outcome := fun _ => Resolved linking;
     isSharingItem_outcome := fun _ => Resolved sharing;
     isItemInPublicLink_outcome := fun _ => Resolved linking;
     getFolderContents_outcome := fun _ => Resolved contents;
     shareItem_outcome := fun _ => Resolved tt;
     addItemToPublicLink_outcome := fun _ => Resolved tt;
     renameSharedItem_outcome := fun _ => Resolved tt;
     renameItemInPublicLink_outcome := fun _ => Rejected (Foreign "server") |}.

Definition masterKeys : JSValue := Some (JArr [JStr "mk"]).

Definition file_md : MetaData :=
  {| md_uuid := "f1"; md_name := "a.txt"; md_size := Some (JNum 3);
     md_mime := Some (JStr "text/plain"); md_key := Some (JStr "k");
     md_lastModified := Some (JNum 0) |}.

Definition folder_md : MetaData :=
  {| md_uuid := "root"; md_name := "Root"; md_size := None; md_mime := None;
     md_key := None; md_lastModified := None |}.

(** The entries of the folder [root] with these contents. *)
Definition items : list Item :=
  [ {| it_uuid := "root"; it_parent := "parent";
       it_metadata := Some (JStr "Root"); it_type := "folder" |};
    {| it_uuid := "f"; it_parent := "root";
       it_metadata :=
         Some (JObj [ ("name", JStr "a.txt"); ("size", JNum 1);
                      ("mime", JStr "text/plain"); ("key", JStr "k");
                      ("lastModified", JNum 0) ]);
       it_type := "file" |};
    {| it_uuid := "a"; it_parent := "none";
       it_metadata := Some (JStr "A"); it_type := "folder" |} ].

(** The folder is created, the propagation never settles. *)
Definition env_hanging : Env :=
  {| network := network (Sample.env_replying Sample.r_ok);
     db_get_fault := fun _ => None;
     shared_outcome := fun _ _ _ => Pending;
     shared_for_rename_outcome := fun _ _ _ => Pending |}.

End Cases.

(* ================================================================= *)
(** * Properties *)

(** ** Request loops: an invariant shared by the three loops *)

(** A value that is there is not [undefined]. *)
Lemma typeof_defined d : (typeof (Some d) =? "undefined") = false.
Proof. destruct d; reflexivity. Qed.

Lemma attempts_inv_init max P : attempts_inv max P loop_init.
Proof.
  unfold attempts_inv, loop_init. simpl.
  split; [reflexivity | split; [lia | constructor]].
Qed.

Lemma attempts_inv_reschedule max P ms st :
  attempts_inv max P st -> attempts_inv max P (reschedule ms st).
Proof. intros Hi. exact Hi. Qed.

Lemma attempts_inv_settle max P o st :
  attempts_inv max P st -> attempts_inv max P (settle o st).
Proof. intros Hi. exact Hi. Qed.

Lemma attempts_inv_issue max P r st :
  (max <=? currentTries st)%Z = false -> P r ->
  attempts_inv max P st -> attempts_inv max P (issue r st).
Proof.
  intros Hlt Hr (Hlen & Hle & Hall). apply Z.leb_gt in Hlt.
  unfold attempts_inv, issue. simpl. repeat split.
  - rewrite length_app. simpl. lia.
  - lia.
  - apply Forall_app. split; [exact Hall | constructor; [exact Hr | constructor]].
Qed.

Create HintDb loops.
#[local] Hint Resolve attempts_inv_reschedule attempts_inv_settle attempts_inv_issue : loops.

(** Case analysis on every test or pattern match of the goal. *)
Ltac split_cases :=
  repeat match goal with
         | |- context [match ?x with _ => _ end] => destruct x eqn:?
         end.

Section TransportFacts.
Context `{Runtime} `{Crypto} `{Constants}.

Lemma api_doRequest_inv P a c onLine st :
  P (api_request a c) ->
  attempts_inv maxRetryAPIRequest P st ->
  attempts_inv maxRetryAPIRequest P (api_doRequest a c onLine st).
Proof.
  intros HP Hi. unfold api_doRequest. split_cases; auto with loops.
Qed.

Lemma api_step_inv P a c e st :
  P (api_request a c) ->
  attempts_inv maxRetryAPIRequest P st ->
  attempts_inv maxRetryAPIRequest P (api_step a c e st).
Proof.
  intros HP Hi. unfold api_step, api_on_response.
  split_cases; auto using api_doRequest_inv with loops.
Qed.

Lemma api_run_inv P a c evs : forall st,
  P (api_request a c) ->
  attempts_inv maxRetryAPIRequest P st ->
  attempts_inv maxRetryAPIRequest P (api_run a c evs st).
Proof.
  induction evs as [|e evs IH]; intros st HP Hi; simpl.
  - exact Hi.
  - apply IH; [exact HP | apply api_step_inv; assumption].
Qed.

Lemma doAPIRequest_inv (P : ApiArgs -> string -> HttpRequest -> Prop) a evs :
  (forall c, api_checksum a = inr c -> P a c (api_request a c)) ->
  attempts_inv maxRetryAPIRequest
    (fun r => exists c, api_checksum a = inr c /\ P a c r) (doAPIRequest a evs).
Proof.
  intros HP. unfold doAPIRequest.
  destruct (api_checksum a) as [e|c] eqn:Hc.
  - apply attempts_inv_settle, attempts_inv_init.
  - apply api_run_inv.
    + exists c. split; [reflexivity | apply HP; reflexivity].
    + apply attempts_inv_init.
Qed.

End TransportFacts.

(** ** Transfer engine: invariants of the two machines *)

Section TransferFacts.
Context `{Runtime} `{Crypto} `{Constants}.

Lemma upload_step_inv (P : HttpRequest -> Prop) a apiKey chunkHash loc i x :
  (forall r, is_upload_request a apiKey chunkHash r -> P r) ->
  attempts_inv maxRetryUpload P (x_loop x) ->
  attempts_inv maxRetryUpload P (x_loop (upload_step a apiKey chunkHash loc i x)).
Proof.
  intros HP Hi. unfold upload_step, upload_on_response, upload_doRequest.
  split_cases; simpl; auto with loops.
  apply attempts_inv_issue; [assumption | | exact Hi].
  apply HP. eexists. split; [eassumption | reflexivity].
Qed.

Lemma download_step_inv a loc i x :
  attempts_inv maxRetryDownload (fun r => r = download_request a) (x_loop x) ->
  attempts_inv maxRetryDownload (fun r => r = download_request a)
    (x_loop (download_step a loc i x)).
Proof.
  intros Hi. unfold download_step, download_doRequest.
  split_cases; simpl; auto with loops.
Qed.

Lemma fold_left_inv {A B} (f : A -> B -> A) (Q : A -> Prop) (l : list B) : forall x,
  (forall y i, Q y -> Q (f y i)) -> Q x -> Q (fold_left f l x).
Proof.
  induction l as [|i l IH]; intros x Hstep Hx; simpl; [exact Hx|].
  apply IH; [exact Hstep | apply Hstep, Hx].
Qed.

Lemma uploadChunk_inv a fault store locs inputs :
  attempts_inv maxRetryUpload
    (fun r => exists chunkHash,
                bufferToHash (up_data a) "SHA-512" = inr chunkHash
                /\ is_upload_request a (store !! "apiKey") chunkHash r)
    (x_loop (uploadChunk a fault store locs inputs)).
Proof.
  unfold uploadChunk.
  destruct fault as [e|].
  { apply attempts_inv_settle, attempts_inv_init. }
  destruct (bufferToHash (up_data a) "SHA-512") as [e|chunkHash] eqn:Hh.
  { apply attempts_inv_settle, attempts_inv_init. }
  destruct (truthy (store !! "maxStorageReached")).
  { apply attempts_inv_settle, attempts_inv_init. }
  destruct (gate_location (up_from a) (up_location a)) as [e|loc].
  { apply attempts_inv_settle, attempts_inv_init. }
  match goal with
  | |- attempts_inv ?m ?P _ =>
      apply (fold_left_inv _ (fun x => attempts_inv m P (x_loop x)))
  end.
  - intros y i Hy. apply upload_step_inv; [|exact Hy].
    intros r Hr. exists chunkHash. split; [reflexivity | exact Hr].
  - apply attempts_inv_init.
Qed.

Lemma downloadChunk_inv a fault store locs inputs :
  attempts_inv maxRetryDownload (fun r => r = download_request a)
    (x_loop (downloadChunk a fault store locs inputs)).
Proof.
  unfold downloadChunk.
  destruct fault as [e|].
  { apply attempts_inv_settle, attempts_inv_init. }
  destruct (gate_location (dl_from a) (dl_location a)) as [e|loc].
  { apply attempts_inv_settle, attempts_inv_init. }
  apply (fold_left_inv _
           (fun x => attempts_inv maxRetryDownload
                       (fun r => r = download_request a) (x_loop x))).
  - intros y i Hy. apply download_step_inv, Hy.
  - apply attempts_inv_init.
Qed.

End TransferFacts.

(** ** Transport and transfer: checksum, retry bound, host *)

Section TransportClaims.
Context `{Runtime} `{Crypto} `{Constants}.

(** C1. Every request that [doAPIRequest] issues with the method POST
    carries, as its body, the text [JSON.stringify(data)], and its
    [Checksum] header is the SHA-512 digest of the UTF-8 bytes of that
    same text. Every request that [uploadChunk] issues goes to the path
    [/v3/upload?] followed by the query string with [&hash=...]
    appended, and its [Checksum] header is the SHA-512 digest of the
    UTF-8 bytes of the JSON serialization of that query string once
    parsed. *)
Theorem checksum_faithful :
  (forall a evs r,
      In r (sent (doAPIRequest a evs)) ->
      rq_method r = "POST" ->
      exists body checksum,
        rq_body r = Some (Text body)
        /\ body = JSON_stringify (api_data a)
        /\ bufferToHash (textEncoder_encode body) "SHA-512" = inr checksum
        /\ header "Checksum" (rq_headers r) = Some checksum)
  /\ (forall a fault store locs inputs r,
         In r (sent (x_loop (uploadChunk a fault store locs inputs))) ->
         exists chunkHash checksum,
           bufferToHash (up_data a) "SHA-512" = inr chunkHash
           /\ rq_path r = "/v3/upload?" +:+ up_queryParams a +:+ "&hash="
                            +:+ encodeURIComponent chunkHash
           /\ bufferToHash
                (textEncoder_encode
                   (JSON_stringify
                      (parseURLParamsSearch
                         (URLSearchParams
                            (up_queryParams a +:+ "&hash="
                               +:+ encodeURIComponent chunkHash)))))
                "SHA-512" = inr checksum
           /\ header "Checksum" (rq_headers r) = Some checksum).
Proof.
  split.
  - intros a evs r Hin Hpost.
    pose proof (doAPIRequest_inv (fun a c r => r = api_request a c) a evs
                  (fun c _ => eq_refl)) as (_ & _ & Hall).
    rewrite List.Forall_forall in Hall.
    destruct (Hall r Hin) as (c & Hc & ->).
    simpl in Hpost. exists (JSON_stringify (api_data a)), c.
    simpl. rewrite Hpost. simpl. repeat split.
    unfold api_checksum in Hc. cbv zeta in Hc.
    rewrite typeof_defined in Hc. exact Hc.
  - intros a fault store locs inputs r Hin.
    pose proof (uploadChunk_inv a fault store locs inputs) as (_ & _ & Hall).
    rewrite List.Forall_forall in Hall.
    destruct (Hall r Hin) as (chunkHash & Hh & checksum & Hc & ->).
    exists chunkHash, checksum. repeat split; assumption.
Qed.


(** C9 (as amended). Every request that [doAPIRequest] issues goes to
    the host [gateway.filen.io], port 443, whatever [constants.apiServers]
    lists; no entry is drawn. [getAPIServer], which the request does
    not use, returns the entry of [constants.apiServers] at the index
    that [getRandomArbitrary(0, length - 1)] yields. *)
Theorem api_host_fixed :
  (forall a evs r,
      In r (sent (doAPIRequest a evs)) ->
      rq_hostname r = "gateway.filen.io" /\ rq_port r = 443%Z)
  /\ (forall getRandomArbitrary,
         let i := getRandomArbitrary 0%Z (Z.of_nat (length apiServers) - 1)%Z in
         (0 <= i < Z.of_nat (length apiServers))%Z ->
         exists host, getAPIServer getRandomArbitrary = Some host
                      /\ nth_error apiServers (Z.to_nat i) = Some host).
Proof.
  split.
  - intros a evs r Hin.
    pose proof (doAPIRequest_inv (fun a c r => r = api_request a c) a evs
                  (fun c _ => eq_refl)) as (_ & _ & Hall).
    rewrite List.Forall_forall in Hall.
    destruct (Hall r Hin) as (c & _ & ->). split; reflexivity.
  - intros rnd i Hi. unfold getAPIServer. fold i.
    destruct (i <? 0)%Z eqn:Hneg; [apply Z.ltb_lt in Hneg; lia|].
    destruct (nth_error apiServers (Z.to_nat i)) as [host|] eqn:Hnth.
    + exists host. split; reflexivity.
    + apply nth_error_None in Hnth. lia.
Qed.

End TransportClaims.

(** ** Asynchronous calls: what a call may touch *)

Lemma extends_with_refl Q w : extends_with Q w w.
Proof.
  repeat split. exists []. split; [symmetry; apply app_nil_r | constructor].
Qed.

Lemma extends_with_trans Q w1 w2 w3 :
  extends_with Q w1 w2 -> extends_with Q w2 w3 -> extends_with Q w1 w3.
Proof.
  intros (Hp & Hd & es & Hl & Hq) (Hp' & Hd' & es' & Hl' & Hq').
  repeat split; try congruence.
  exists (es ++ es'). split.
  - rewrite Hl', Hl. symmetry. apply app_assoc.
  - apply Forall_app. split; assumption.
Qed.

Lemma extends_with_weaken (Q Q' : Event -> Prop) w w' :
  (forall e, Q e -> Q' e) -> extends_with Q w w' -> extends_with Q' w w'.
Proof.
  intros HQ (Hp & Hd & es & Hl & Hq). repeat split; try assumption.
  exists es. split; [exact Hl|]. eapply List.Forall_impl; [exact HQ | exact Hq].
Qed.

Lemma count_releases_app l1 l2 :
  count_releases (l1 ++ l2) = (count_releases l1 + count_releases l2)%nat.
Proof. unfold count_releases. rewrite List.filter_app, length_app. reflexivity. Qed.

Lemma count_logouts_app l1 l2 :
  count_logouts (l1 ++ l2) = (count_logouts l1 + count_logouts l2)%nat.
Proof. unfold count_logouts. rewrite List.filter_app, length_app. reflexivity. Qed.

Lemma quiet_events_no_release es :
  Forall quiet_event es -> count_releases es = 0%nat.
Proof.
  induction 1 as [|e es He _ IH]; [reflexivity|].
  destruct e; simpl in He; try contradiction; exact IH.
Qed.

Lemma quiet_events_not_shared es :
  Forall quiet_event es -> List.filter is_shared_event es = [].
Proof.
  induction 1 as [|e es He _ IH]; [reflexivity|].
  destruct e; simpl in He; try contradiction; exact IH.
Qed.

Lemma http_events_no_logout es :
  Forall http_event es -> count_logouts es = 0%nat.
Proof.
  induction 1 as [|e es He _ IH]; [reflexivity|].
  destruct e; simpl in He; try contradiction; exact IH.
Qed.

Lemma http_events_are_http rs : Forall http_event (map EvHttp rs).
Proof. induction rs; constructor; simpl; auto. Qed.

Lemma only_ret Q {A} (a : A) : only Q (ret a).
Proof. intros w w' o Hr. inversion Hr; subst. apply extends_with_refl. Qed.

Lemma only_throw Q {A} e : only Q (@throw A e).
Proof. intros w w' o Hr. inversion Hr; subst. apply extends_with_refl. Qed.

Lemma only_lift Q {A} (r : Exn + A) : only Q (lift r).
Proof. destruct r; [apply only_throw | apply only_ret]. Qed.

Lemma only_await Q {A} (o : Outcome A) : only Q (await o).
Proof. intros w w' o' Hr. inversion Hr; subst. apply extends_with_refl. Qed.

Lemma only_db_get Q env key : only Q (db_get env key).
Proof.
  intros w w' o Hr. unfold db_get in Hr.
  destruct (db_get_fault env key); inversion Hr; subst; apply extends_with_refl.
Qed.

Lemma only_bind Q {A B} (c : M A) (k : A -> M B) :
  only Q c -> (forall a, only Q (k a)) -> only Q (bind c k).
Proof.
  intros Hc Hk w w' o Hr. unfold bind in Hr.
  destruct (c w) as [w1 [a|e|]] eqn:Hcw.
  - eapply extends_with_trans; [eapply Hc, Hcw | eapply Hk, Hr].
  - inversion Hr; subst. eapply Hc, Hcw.
  - inversion Hr; subst. eapply Hc, Hcw.
Qed.

Lemma only_emit_all (Q : Event -> Prop) es : Forall Q es -> only Q (emit_all es).
Proof.
  intros Hq w w' o Hr. inversion Hr; subst. simpl.
  repeat split. exists es. split; [reflexivity | exact Hq].
Qed.

Lemma only_weaken (Q Q' : Event -> Prop) {A} (c : M A) :
  (forall e, Q e -> Q' e) -> only Q c -> only Q' c.
Proof.
  intros HQ Hc w w' o Hr. eapply extends_with_weaken; [exact HQ | eapply Hc, Hr].
Qed.

Lemma http_is_quiet e : http_event e -> quiet_event e.
Proof. destruct e; simpl; auto. Qed.






(** Walk through a computation, one statement at a time. *)
Ltac only_steps :=
  repeat match goal with
         | |- only _ (ret _) => apply only_ret
         | |- only _ (throw _) => apply only_throw
         | |- only _ (lift _) => apply only_lift
         | |- only _ (await _) => apply only_await
         | |- only _ (db_get _ _) => apply only_db_get
         | |- only _ (bind _ _) => apply only_bind; [| intros ?]
         | |- only _ (match ?x with _ => _ end) => destruct x
         end.

Section CallFacts.
Context `{Runtime} `{Crypto} `{Constants}.
Variable env : Env.

Lemma call_doAPIRequest_http a : only http_event (call_doAPIRequest env a).
Proof.
  unfold call_doAPIRequest. only_steps.
  apply only_emit_all, http_events_are_http.
Qed.

Lemma logout_quiet : only quiet_event logout.
Proof.
  intros w w' o Hr. inversion Hr; subst. simpl.
  repeat split. exists [EvLogout]. split; [reflexivity | repeat constructor].
Qed.

Lemma apiRequest_response_http method endpoint data apiKey includeRaw :
  only http_event (apiRequest_response env method endpoint data apiKey includeRaw).
Proof.
  unfold apiRequest_response. only_steps; apply call_doAPIRequest_http.
Qed.

Lemma apiRequest_quiet method endpoint data apiKey includeRaw :
  only quiet_event (apiRequest env method endpoint data apiKey includeRaw).
Proof.
  unfold apiRequest. only_steps;
    solve [ eapply only_weaken; [apply http_is_quiet | apply apiRequest_response_http]
          | apply logout_quiet ].
Qed.

Lemma createFolder_response_quiet uuid name parent :
  only quiet_event (createFolder_response env uuid name parent).
Proof.
  unfold createFolder_response. only_steps. apply apiRequest_quiet.
Qed.

Lemma bind_resolved {A B} (c : M A) (k : A -> M B) w w1 a :
  c w = (w1, Resolved a) -> bind c k w = k a w1.
Proof. intros Hc. unfold bind. rewrite Hc. reflexivity. Qed.

Lemma swallow_not_found_spec codes fs onSuccess w :
  truthy (assoc "status" fs) = false ->
  swallowed_or_failed codes fs w
    (swallow_not_found codes (Some (JObj fs)) onSuccess w).
Proof.
  intros Hst. unfold swallowed_or_failed, swallow_not_found, bind, lift. simpl.
  unfold ret. rewrite Hst. simpl.
  destruct (includes codes (assoc "code" fs)); split; intros Hc;
    try discriminate; reflexivity.
Qed.

End CallFacts.

(** ** Session invalidation, createFolder, trash / move / rename *)

Section CallClaims.
Context `{Runtime} `{Crypto} `{Constants}.
Variable env : Env.

(** C3 (as amended). When the value that [doAPIRequest] resolves with
    is an object that carries a string [code] and a string [message],
    and the lower-cased message contains "api key not found" or
    "invalid api key", or the code is "api_key_not_found", then
    [apiRequest] calls [logout] exactly once and rejects with the error
    "Session invalidated", whatever the method, the endpoint and the
    data are. *)
Theorem session_invalidated :
  forall method endpoint data apiKey includeRaw w w1 fs c m,
    apiRequest_response env method endpoint data apiKey includeRaw w
      = (w1, Resolved (Some (JObj fs))) ->
    assoc "code" fs = Some (JStr c) ->
    assoc "message" fs = Some (JStr m) ->
    indexOf (toLowerCase m) "api key not found" <> (-1)%Z
    \/ indexOf (toLowerCase m) "invalid api key" <> (-1)%Z
    \/ c = "api_key_not_found" ->
    apiRequest env method endpoint data apiKey includeRaw w
      = (logged_out w1, Rejected (JsError (Some (JStr "Session invalidated"))))
    /\ count_logouts (log (logged_out w1)) = S (count_logouts (log w)).
Proof.
  intros method endpoint data apiKey includeRaw w w1 fs c m Hresp Hcode Hmsg Hbad.
  assert (Hcond :
            negb (indexOf (toLowerCase m) "api key not found" =? -1)%Z
            || negb (indexOf (toLowerCase m) "invalid api key" =? -1)%Z
            || (c =? "api_key_not_found") = true).
  { destruct Hbad as [Hb | [Hb | Hb]].
    - apply Z.eqb_neq in Hb. rewrite Hb. reflexivity.
    - apply Z.eqb_neq in Hb. rewrite Hb. apply orb_true_iff. left.
      apply orb_true_r.
    - apply String.eqb_eq in Hb. rewrite Hb. apply orb_true_r. }
  split.
  - unfold apiRequest. rewrite (bind_resolved _ _ _ _ _ Hresp).
    simpl. unfold bind, lift, ret. rewrite Hcode, Hmsg, Hcond. reflexivity.
  - destruct (apiRequest_response_http env _ _ _ _ _ _ _ _ Hresp)
      as (_ & _ & es & Hlog & Hes).
    simpl. rewrite Hlog, !count_logouts_app, (http_events_no_logout _ Hes).
    unfold count_logouts. simpl. lia.
Qed.

(** C4. When the response to [/v3/dir/create] has a false status and
    its [data] carries [existsUUID], [createFolder] releases the permit
    and resolves with that value; when the status is false and there is
    no [existsUUID] ([data] absent, or an object without the field), it
    releases the permit and rejects with an error made of the server
    message. In both cases no metadata propagation is started. *)
Theorem createFolder_existing :
  forall uuid name parent w w1 fs,
    (0 < permits w)%Z ->
    createFolder_response env uuid name parent (acquired w)
      = (w1, Resolved (Some (JObj fs))) ->
    truthy (assoc "status" fs) = false ->
    (forall dfs u,
        assoc "data" fs = Some (JObj dfs) ->
        assoc "existsUUID" dfs = Some u ->
        createFolder env uuid name parent w = (released w1, Resolved (Some u)))
    /\ (assoc "data" fs = None
        \/ (exists dfs, assoc "data" fs = Some (JObj dfs)
                        /\ assoc "existsUUID" dfs = None) ->
        createFolder env uuid name parent w
          = (released w1, Rejected (JsError (assoc "message" fs))))
    /\ List.filter is_shared_event (log (released w1))
       = List.filter is_shared_event (log w).
Proof.
  intros uuid name parent w w1 fs Hperm Hresp Hstatus.
  assert (Hacq : acquire w = (acquired w, Resolved tt)).
  { unfold acquire. apply Z.ltb_lt in Hperm. rewrite Hperm. reflexivity. }
  split; [|split].
  - intros dfs u Hdata Hu.
    unfold createFolder. rewrite (bind_resolved _ _ _ _ _ Hacq).
    unfold try_catch. rewrite (bind_resolved _ _ _ _ _ Hresp).
    unfold bind, lift, ret. simpl. rewrite Hstatus. simpl.
    rewrite Hdata. simpl. rewrite Hu. destruct u; reflexivity.
  - intros Hnone.
    unfold createFolder. rewrite (bind_resolved _ _ _ _ _ Hacq).
    unfold try_catch. rewrite (bind_resolved _ _ _ _ _ Hresp).
    unfold bind, lift, ret. simpl. rewrite Hstatus. simpl.
    destruct Hnone as [Hdata | (dfs & Hdata & Hu)].
    + rewrite Hdata. simpl. reflexivity.
    + rewrite Hdata. simpl. rewrite Hu. simpl. reflexivity.
  - destruct (createFolder_response_quiet env _ _ _ _ _ _ Hresp)
      as (_ & _ & es & Hlog & Hes).
    simpl. rewrite Hlog. simpl.
    rewrite !List.filter_app, (quiet_events_not_shared _ Hes). simpl.
    rewrite !app_nil_r. reflexivity.
Qed.

(** C5. For a response with a false status, [trashItem] resolves when
    the code is [folder_not_found] or [file_not_found], [moveFile] and
    [renameFile] when it is [file_not_found], [moveFolder] and
    [renameFolder] when it is [folder_not_found]; nothing more is done.
    With any other code the call rejects with an error made of the
    server message. *)
Theorem not_found_is_swallowed :
  forall w w1 fs,
    truthy (assoc "status" fs) = false ->
    (forall type uuid,
        trashItem_response env type uuid w = (w1, Resolved (Some (JObj fs))) ->
        swallowed_or_failed ["folder_not_found"; "file_not_found"] fs w1
          (trashItem env type uuid w))
    /\ (forall file parent,
           moveFile_response env file parent w = (w1, Resolved (Some (JObj fs))) ->
           swallowed_or_failed ["file_not_found"] fs w1 (moveFile env file parent w))
    /\ (forall folder parent,
           moveFolder_response env folder parent w = (w1, Resolved (Some (JObj fs))) ->
           swallowed_or_failed ["folder_not_found"] fs w1
             (moveFolder env folder parent w))
    /\ (forall file name,
           renameFile_response env file name w = (w1, Resolved (Some (JObj fs))) ->
           swallowed_or_failed ["file_not_found"] fs w1 (renameFile env file name w))
    /\ (forall folder name,
           renameFolder_response env folder name w = (w1, Resolved (Some (JObj fs))) ->
           swallowed_or_failed ["folder_not_found"] fs w1
             (renameFolder env folder name w)).
Proof.
  intros w w1 fs Hstatus.
  repeat apply conj; intros ? ? Hresp.
  - unfold trashItem. rewrite (bind_resolved _ _ _ _ _ Hresp).
    apply swallow_not_found_spec, Hstatus.
  - unfold moveFile. rewrite (bind_resolved _ _ _ _ _ Hresp).
    apply swallow_not_found_spec, Hstatus.
  - unfold moveFolder. rewrite (bind_resolved _ _ _ _ _ Hresp).
    apply swallow_not_found_spec, Hstatus.
  - unfold renameFile. rewrite (bind_resolved _ _ _ _ _ Hresp).
    apply swallow_not_found_spec, Hstatus.
  - unfold renameFolder. rewrite (bind_resolved _ _ _ _ _ Hresp).
    apply swallow_not_found_spec, Hstatus.
Qed.


End CallClaims.

(** ** The pause gate *)

Section GateFacts.
Variable step : XferInput -> Xfer -> Xfer.
Variable from : string.
Variable loc : option string.
Variable start : Xfer.

Hypothesis start_at_gate : x_phase start = Gate /\ sent (x_loop start) = [].

Hypothesis gate_step :
  forall i x,
    x_phase x = Gate -> sent (x_loop x) = [] ->
    (x_phase (step i x) = Gate /\ sent (x_loop (step i x)) = [])
    \/ (exists onLine, i = Poll true onLine
        /\ paused_now from loc (x_db x) (x_pausedLocations x) = false).

(** Either the machine still waits at the gate and has sent nothing,
    or some poll found the gate open. *)
Lemma gate_run_cases inputs :
  let run := fun l => fold_left (fun x i => step i x) l start in
  (x_phase (run inputs) = Gate /\ sent (x_loop (run inputs)) = [])
  \/ gate_opened run from loc inputs.
Proof.
  intros run. induction inputs as [|i l IH] using rev_ind.
  - left. exact start_at_gate.
  - assert (Hsnoc : run (l ++ [i]) = step i (run l)).
    { unfold run. rewrite fold_left_app. reflexivity. }
    rewrite Hsnoc.
    destruct IH as [(Hg & Hs) | (pre & onLine & post & -> & Hpre)].
    + destruct (gate_step i (run l) Hg Hs) as [Hstay | (onLine & -> & Hclear)].
      * left. exact Hstay.
      * right. exists l, onLine, []. repeat split; assumption.
    + right. exists pre, onLine, (post ++ [i]). split; [|exact Hpre].
      rewrite <- app_assoc. reflexivity.
Qed.

End GateFacts.

Section TransferClaims.
Context `{Runtime} `{Crypto} `{Constants}.

Lemma upload_gate_step a apiKey chunkHash loc i x :
  x_phase x = Gate -> sent (x_loop x) = [] ->
  (x_phase (upload_step a apiKey chunkHash loc i x) = Gate
   /\ sent (x_loop (upload_step a apiKey chunkHash loc i x)) = [])
  \/ (exists onLine, i = Poll true onLine
      /\ paused_now (up_from a) loc (x_db x) (x_pausedLocations x) = false).
Proof.
  intros Hg Hs. destruct i as [ok onLine | e | key v | uuid p]; simpl.
  - rewrite Hg.
    destruct ok; [|left; split; [exact Hg | exact Hs]].
    destruct (paused_now (up_from a) loc (x_db x) (x_pausedLocations x)) eqn:Hp.
    + left. split; [exact Hg | exact Hs].
    + right. exists onLine. split; reflexivity.
  - rewrite Hg. left. split; [exact Hg | exact Hs].
  - left. split; [exact Hg | exact Hs].
  - left. split; [exact Hg | exact Hs].
Qed.

Lemma download_gate_step a loc i x :
  x_phase x = Gate -> sent (x_loop x) = [] ->
  (x_phase (download_step a loc i x) = Gate
   /\ sent (x_loop (download_step a loc i x)) = [])
  \/ (exists onLine, i = Poll true onLine
      /\ paused_now (dl_from a) loc (x_db x) (x_pausedLocations x) = false).
Proof.
  intros Hg Hs. destruct i as [ok onLine | e | key v | uuid p]; simpl.
  - rewrite Hg.
    destruct ok; [|left; split; [exact Hg | exact Hs]].
    destruct (paused_now (dl_from a) loc (x_db x) (x_pausedLocations x)) eqn:Hp.
    + left. split; [exact Hg | exact Hs].
    + right. exists onLine. split; reflexivity.
  - rewrite Hg. left. split; [exact Hg | exact Hs].
  - left. split; [exact Hg | exact Hs].
  - left. split; [exact Hg | exact Hs].
Qed.

(** C6. When the body of a 200 response to an upload attempt parses to
    an object with a false status and a string message, the promise is
    rejected with that message; if the lower-cased message contains
    "storage", the store then holds [paused = true] and
    [maxStorageReached = true] (nothing else is written), and if it
    does not, the store is left as it was. *)
Theorem storage_exhaustion :
  forall a apiKey chunkHash loc x body fs m,
    x_phase x = Attempts ->
    ctl (x_loop x) = InFlight ->
    JSON_parse body = Some (JObj fs) ->
    truthy (assoc "status" fs) = false ->
    assoc "message" fs = Some (JStr m) ->
    let x' := upload_step a apiKey chunkHash loc (Net (Response 200 body)) x in
    loop_outcome (x_loop x') = Rejected (Reason (Some (JStr m)))
    /\ (indexOf (toLowerCase m) "storage" <> (-1)%Z ->
        x_db x' !! "paused" = Some (JBool true)
        /\ x_db x' !! "maxStorageReached" = Some (JBool true)
        /\ x_db x' = <["maxStorageReached" := JBool true]>
                       (<["paused" := JBool true]> (x_db x)))
    /\ (indexOf (toLowerCase m) "storage" = (-1)%Z -> x_db x' = x_db x).
Proof.
  intros a apiKey chunkHash loc x body fs m Hph Hctl Hparse Hstatus Hmsg x'.
  subst x'. unfold upload_step. rewrite Hph, Hctl.
  unfold upload_on_response. simpl. rewrite Hparse. simpl.
  rewrite Hstatus, Hmsg. simpl.
  destruct (indexOf (toLowerCase m) "storage" =? -1)%Z eqn:Hidx; simpl.
  - apply Z.eqb_eq in Hidx. split; [reflexivity|].
    split; [intros Hne; contradiction | intros _; reflexivity].
  - apply Z.eqb_neq in Hidx. split; [reflexivity|]. split.
    + intros _. split; [|split; [|reflexivity]].
      * rewrite lookup_insert_ne by discriminate. apply lookup_insert_eq.
      * apply lookup_insert_eq.
    + intros Heq. contradiction.
Qed.

(** C7 (as amended). The flags a poll consults are: the global
    [paused] and the pause state of the location for a sync transfer
    with a location, the global [paused] for a sync transfer without
    one, [downloadPaused] or [uploadPaused] for a source that names
    that direction, the global [paused] otherwise. At the gate, a poll
    that finds such a flag set, or whose read fails, sends nothing and
    schedules the next poll 1000 ms later. An [uploadChunk] or
    [downloadChunk] call sends its first request only after a poll has
    found no applicable flag set; until then nothing is sent. *)
Theorem pause_gate_before_first_attempt :
  (forall store locs,
      (forall u, paused_now "sync" (Some u) store locs
                 = truthy (store !! "paused") || bool_decide (u ∈ locs))
      /\ paused_now "sync" None store locs = truthy (store !! "paused")
      /\ (forall from loc,
             from <> "sync" -> indexOf from "download" <> (-1)%Z ->
             paused_now from loc store locs = truthy (store !! "downloadPaused"))
      /\ (forall from loc,
             from <> "sync" -> indexOf from "download" = (-1)%Z ->
             indexOf from "upload" <> (-1)%Z ->
             paused_now from loc store locs = truthy (store !! "uploadPaused"))
      /\ (forall from loc,
             from <> "sync" -> indexOf from "download" = (-1)%Z ->
             indexOf from "upload" = (-1)%Z ->
             paused_now from loc store locs = truthy (store !! "paused")))
  /\ (forall a apiKey chunkHash loc x ok onLine,
         x_phase x = Gate ->
         ok = false
         \/ paused_now (up_from a) loc (x_db x) (x_pausedLocations x) = true ->
         upload_step a apiKey chunkHash loc (Poll ok onLine) x
         = with_loop x (reschedule 1000 (x_loop x)))
  /\ (forall a loc x ok onLine,
         x_phase x = Gate ->
         ok = false
         \/ paused_now (dl_from a) loc (x_db x) (x_pausedLocations x) = true ->
         download_step a loc (Poll ok onLine) x
         = with_loop x (reschedule 1000 (x_loop x)))
  /\ (forall a fault store locs inputs,
         sent (x_loop (uploadChunk a fault store locs inputs)) <> [] ->
         exists loc,
           gate_location (up_from a) (up_location a) = inr loc
           /\ gate_opened (uploadChunk a fault store locs) (up_from a) loc inputs)
  /\ (forall a fault store locs inputs,
         sent (x_loop (downloadChunk a fault store locs inputs)) <> [] ->
         exists loc,
           gate_location (dl_from a) (dl_location a) = inr loc
           /\ gate_opened (downloadChunk a fault store locs) (dl_from a) loc inputs).
Proof.
  split; [|split; [|split; [|split]]].
  - intros store locs. unfold paused_now, pause_key. repeat split.
    + intros from loc Hns Hd. apply String.eqb_neq in Hns. rewrite Hns.
      apply Z.eqb_neq in Hd. rewrite Hd. reflexivity.
    + intros from loc Hns Hd Hu. apply String.eqb_neq in Hns. rewrite Hns.
      apply Z.eqb_eq in Hd. rewrite Hd. apply Z.eqb_neq in Hu. rewrite Hu.
      reflexivity.
    + intros from loc Hns Hd Hu. apply String.eqb_neq in Hns. rewrite Hns.
      apply Z.eqb_eq in Hd. rewrite Hd. apply Z.eqb_eq in Hu. rewrite Hu.
      reflexivity.
  - intros a apiKey chunkHash loc x ok onLine Hg Hheld. simpl. rewrite Hg.
    destruct Hheld as [-> | ->]; [reflexivity|].
    rewrite andb_false_r. reflexivity.
  - intros a loc x ok onLine Hg Hheld. simpl. rewrite Hg.
    destruct Hheld as [-> | ->]; [reflexivity|].
    rewrite andb_false_r. reflexivity.
  - intros a fault store locs inputs Hsent. unfold uploadChunk in Hsent |- *.
    destruct fault as [e|]; [exfalso; apply Hsent; reflexivity|].
    destruct (bufferToHash (up_data a) "SHA-512") as [e|chunkHash];
      [exfalso; apply Hsent; reflexivity|].
    destruct (truthy (store !! "maxStorageReached"));
      [exfalso; apply Hsent; reflexivity|].
    destruct (gate_location (up_from a) (up_location a)) as [e|loc];
      [exfalso; apply Hsent; reflexivity|].
    exists loc. split; [reflexivity|].
    destruct (gate_run_cases
                (fun i x => upload_step a (store !! "apiKey") chunkHash loc i x)
                (up_from a) loc (xfer_start store locs)
                (conj eq_refl eq_refl)
                (upload_gate_step a (store !! "apiKey") chunkHash loc) inputs)
      as [(_ & Hnone) | Hopen].
    + exfalso. apply Hsent. exact Hnone.
    + exact Hopen.
  - intros a fault store locs inputs Hsent. unfold downloadChunk in Hsent |- *.
    destruct fault as [e|]; [exfalso; apply Hsent; reflexivity|].
    destruct (gate_location (dl_from a) (dl_location a)) as [e|loc];
      [exfalso; apply Hsent; reflexivity|].
    exists loc. split; [reflexivity|].
    destruct (gate_run_cases
                (fun i x => download_step a loc i x)
                (dl_from a) loc (xfer_start store locs)
                (conj eq_refl eq_refl)
                (download_gate_step a loc) inputs)
      as [(_ & Hnone) | Hopen].
    + exfalso. apply Hsent. exact Hnone.
    + exact Hopen.
Qed.

End TransferClaims.

(** ** The items of a folder *)

Section PropagatorFacts.
Context `{Runtime} `{Crypto}.
Variable masterKeys : JSValue.
Variable metaData_uuid : string.

Lemma files_loop_spec files : forall acc acc',
  files_loop masterKeys files acc = inr acc' ->
  acc' = acc ++ spec_file_items masterKeys files.
Proof.
  induction files as [|f rest IH]; intros acc acc' Hrun; simpl in *.
  - inversion Hrun. symmetry. apply app_nil_r.
  - destruct (file_item masterKeys f) as [e | [it|]]; [discriminate | |].
    + rewrite (IH _ _ Hrun), <- app_assoc. reflexivity.
    + apply IH, Hrun.
Qed.

(** As long as no decryption of a folder name throws, the loop over the
    folders adds the decryptable folders, and only them. *)
Lemma folders_loop_spec folders :
  (forall d, In d folders ->
             exists v s, decryptFolderName (fo_name d) masterKeys = inr v
                         /\ striptags v = inr s) ->
  forall i decrypted acc,
    folders_loop masterKeys metaData_uuid i folders decrypted acc
    = acc ++ spec_folder_items masterKeys metaData_uuid i folders.
Proof.
  induction folders as [|d rest IH]; intros Hok i decrypted acc; simpl.
  - symmetry. apply app_nil_r.
  - destruct (Hok d (or_introl eq_refl)) as (v & s & Hv & Hs).
    rewrite IH by (intros d' Hd'; apply Hok; right; exact Hd').
    unfold folder_decrypted, folder_push, folder_name_of. rewrite Hv, Hs.
    destruct (s =? "") eqn:Hempty; simpl; [reflexivity|].
    destruct (negb (fo_uuid d =? metaData_uuid) && negb (fo_parent d =? "base"));
      [|reflexivity].
    rewrite <- app_assoc. reflexivity.
Qed.

(** The list is the one the specification describes whenever every
    folder name decrypts without an exception. *)
Lemma itemsToShare_when_decryption_returns name parent files folders l :
  (forall d, In d folders ->
             exists v s, decryptFolderName (fo_name d) masterKeys = inr v
                         /\ striptags v = inr s) ->
  itemsToShare masterKeys metaData_uuid name parent files folders = inr l ->
  l = spec_items masterKeys metaData_uuid name parent files folders
  /\ itemsToLink masterKeys metaData_uuid name parent files folders = inr l.
Proof.
  intros Hok Hrun. unfold itemsToShare in Hrun. unfold itemsToLink.
  destruct (files_loop masterKeys files _) as [e|acc] eqn:Hfiles; [discriminate|].
  inversion Hrun; subst. split; [|reflexivity].
  rewrite (files_loop_spec _ _ _ Hfiles), (folders_loop_spec _ Hok).
  unfold spec_items. reflexivity.
Qed.

End PropagatorFacts.

(* ================================================================= *)
(** * The claims on concrete runs *)

Section Examples.
#[local] Existing Instance Sample.runtime.
#[local] Existing Instance Sample.crypto.
#[local] Existing Instance Sample.constants.

(** C8. A folder whose name does not decrypt is listed all the same
    when it follows one that does: [contents.folders] holds a folder
    [a] that decrypts to ["A"], then a folder [b] on which
    [decryptFolderName] throws. The list built ends with an entry for
    [b] that carries the name of [a]; the list the specification
    describes stops after [a]. Both fan-outs build the same list. *)
Theorem stale_folder_name_is_listed :
  let folders :=
    [ {| fo_uuid := "a"; fo_parent := "root"; fo_name := "A" |};
      {| fo_uuid := "b"; fo_parent := "root"; fo_name := "bad blob" |} ] in
  let listed :=
    [ {| it_uuid := "root"; it_parent := "parent";
         it_metadata := Some (JStr "Root"); it_type := "folder" |};
      {| it_uuid := "a"; it_parent := "none";
         it_metadata := Some (JStr "A"); it_type := "folder" |};
      {| it_uuid := "b"; it_parent := "root";
         it_metadata := Some (JStr "A"); it_type := "folder" |} ] in
  decryptFolderName "bad blob" (Some (JArr [JStr "mk"])) = inl (Foreign "decrypt")
  /\ itemsToShare (Some (JArr [JStr "mk"])) "root" "Root" "parent" [] folders
     = inr listed
  /\ itemsToLink (Some (JArr [JStr "mk"])) "root" "Root" "parent" [] folders
     = inr listed
  /\ spec_items (Some (JArr [JStr "mk"])) "root" "Root" "parent" [] folders
     = removelast listed.
Proof. repeat split. Qed.

(** C1 on a run: the body [{email: a@b}] of scenario 1. *)
Lemma checksum_faithful_witness :
  let a := Sample.post "/v3/auth/info" (JObj [("email", JStr "a@b")]) in
  let r := api_request a
             ("SHA-512:" +:+ Sample.stringify (JObj [("email", JStr "a@b")])) in
  In r (sent (doAPIRequest a [Timer true]))
  /\ rq_method r = "POST"
  /\ exists body checksum,
        rq_body r = Some (Text body)
        /\ body = JSON_stringify (api_data a)
        /\ bufferToHash (textEncoder_encode body) "SHA-512" = inr checksum
        /\ header "Checksum" (rq_headers r) = Some checksum.
Proof.
  intros a r.
  assert (Hin : In r (sent (doAPIRequest a [Timer true])))
    by (vm_compute; left; reflexivity).
  assert (Hpost : rq_method r = "POST") by reflexivity.
  split; [exact Hin | split; [exact Hpost|]].
  exact (proj1 checksum_faithful a [Timer true] r Hin Hpost).
Defined.


(** C3 as stated fails: the body carries the message "Invalid API key"
    and no code; [apiRequest] returns it and [logout] is not called. *)
Lemma message_without_code_is_returned :
  let r := apiRequest (Sample.env_replying Sample.r_message_only)
             "POST" "/v3/user/info" None None false Sample.world in
  get (Some Sample.r_message_only) "message" = inr (Some (JStr "Invalid API key"))
  /\ indexOf (toLowerCase "Invalid API key") "invalid api key" = 0%Z
  /\ snd r = Resolved (Some Sample.r_message_only)
  /\ count_logouts (log (fst r)) = 0%nat.
Proof. vm_compute. repeat split. Qed.

Lemma session_invalidated_witness :
  let env := Sample.env_replying Sample.r_invalid_key in
  let w1 := fst (apiRequest_response env "POST" "/v3/dir/trash" None None false
                   Sample.world) in
  apiRequest env "POST" "/v3/dir/trash" None None false Sample.world
    = (logged_out w1, Rejected (JsError (Some (JStr "Session invalidated"))))
  /\ count_logouts (log (logged_out w1)) = 1%nat.
Proof.
  intros env w1.
  refine (session_invalidated env "POST" "/v3/dir/trash" None None false
            Sample.world w1
            [ ("status", JBool false); ("code", JStr "invalid_api_key");
              ("message", JStr "Invalid API key") ]
            "invalid_api_key" "Invalid API key" _ _ _ _).
  - vm_compute. reflexivity.
  - reflexivity.
  - reflexivity.
  - right. left. vm_compute. discriminate.
Defined.

(** C4 on a run: the server answers that the folder exists. *)
Lemma createFolder_existing_witness :
  let env := Sample.env_replying Sample.r_exists in
  let w1 := fst (createFolder_response env "new-uuid" "Docs" "parent"
                   (acquired Sample.world)) in
  createFolder env "new-uuid" "Docs" "parent" Sample.world
    = (released w1, Resolved (Some (JStr "uuid-of-existing"))).
Proof.
  intros env w1.
  refine (proj1 (createFolder_existing env "new-uuid" "Docs" "parent"
                   Sample.world w1
                   [ ("status", JBool false); ("code", JStr "folder_exists");
                     ("message", JStr "Folder already exists");
                     ("data", JObj [("existsUUID", JStr "uuid-of-existing")]) ]
                   _ _ _)
                [("existsUUID", JStr "uuid-of-existing")]
                (JStr "uuid-of-existing") _ _).
  - vm_compute. reflexivity.
  - vm_compute. reflexivity.
  - reflexivity.
  - reflexivity.
  - reflexivity.
Defined.

(** C5 on a run: trashing a file that is already gone. *)
Lemma not_found_is_swallowed_witness :
  let env := Sample.env_replying Sample.r_file_not_found in
  let w1 := fst (trashItem_response env "file" "f1" Sample.world) in
  trashItem env "file" "f1" Sample.world = (w1, Resolved tt).
Proof.
  intros env w1.
  refine (proj1 (proj1 (not_found_is_swallowed env Sample.world w1
                          [ ("status", JBool false); ("code", JStr "file_not_found");
                            ("message", JStr "File not found") ] _)
                   "file" "f1" _) _).
  - reflexivity.
  - vm_compute. reflexivity.
  - reflexivity.
Defined.

(** C6 on a run: scenario 6, a storage message. *)
Lemma storage_exhaustion_witness :
  let x := uploadChunk Sample.upload None Sample.store ∅
             [Poll true true; Net (Timer true)] in
  let x' := upload_step Sample.upload (Some (JStr "key")) "SHA-512:ab" None
              (Net (Response 200 (Sample.stringify Sample.r_storage))) x in
  loop_outcome (x_loop x') = Rejected (Reason (Some (JStr "Storage limit reached")))
  /\ x_db x' !! "paused" = Some (JBool true)
  /\ x_db x' !! "maxStorageReached" = Some (JBool true).
Proof.
  intros x x'.
  destruct (storage_exhaustion Sample.upload (Some (JStr "key")) "SHA-512:ab" None x
              (Sample.stringify Sample.r_storage)
              [ ("status", JBool false); ("message", JStr "Storage limit reached") ]
              "Storage limit reached")
    as (Hrej & Hset & _).
  - vm_compute. reflexivity.
  - vm_compute. reflexivity.
  - vm_compute. reflexivity.
  - reflexivity.
  - reflexivity.
  - destruct Hset as (Hp & Hm & _); [vm_compute; discriminate|].
    split; [exact Hrej | split; [exact Hp | exact Hm]].
Defined.

(** C7 as stated fails: the gate is passed once, before the first
    attempt. Here the store is paused after the first attempt; that
    attempt is answered 500 and the retry goes out although [paused] is
    set, for an upload and for a download. *)
Lemma retry_while_paused :
  let up := uploadChunk Sample.upload None Sample.store ∅ in
  let down := downloadChunk Sample.download None Sample.store ∅ in
  let before_up :=
    [ Poll true true; Net (Timer true); StoreSet "paused" (JBool true);
      Net (Response 500 "") ] in
  let before_down :=
    [ Poll true true; StoreSet "paused" (JBool true); Net (Response 500 "") ] in
  (paused_now "sync" None (x_db (up before_up)) (x_pausedLocations (up before_up))
   = true
   /\ map rq_hostname (sent (x_loop (up before_up))) = ["ingest.filen.io"]
   /\ map rq_hostname (sent (x_loop (up (before_up ++ [Net (Timer true)]))))
      = ["ingest.filen.io"; "ingest.filen.io"])
  /\ (paused_now "sync" None (x_db (down before_down))
        (x_pausedLocations (down before_down)) = true
      /\ map rq_hostname (sent (x_loop (down before_down))) = ["down.filen.io"]
      /\ map rq_hostname (sent (x_loop (down (before_down ++ [Net (Timer true)]))))
         = ["down.filen.io"; "down.filen.io"]).
Proof. vm_compute. repeat split. Qed.

(** C7 as amended, on a run: while [paused] is set a poll only
    schedules the next poll; the request follows the poll that finds
    the flag cleared. *)
Lemma pause_gate_witness :
  let paused := <["paused" := JBool true]> Sample.store in
  let inputs :=
    [ Poll true true; StoreSet "paused" (JBool false); Poll true true;
      Net (Timer true) ] in
  upload_step Sample.upload (Some (JStr "key")) "SHA-512:ab" None (Poll true true)
    (xfer_start paused ∅)
  = with_loop (xfer_start paused ∅) (reschedule 1000 loop_init)
  /\ gate_opened (uploadChunk Sample.upload None paused ∅) "sync" None inputs.
Proof.
  intros paused inputs.
  destruct pause_gate_before_first_attempt as (_ & Hhold & _ & Hfirst & _).
  split.
  - apply (Hhold Sample.upload (Some (JStr "key")) "SHA-512:ab" None
             (xfer_start paused ∅) true true).
    + reflexivity.
    + right. vm_compute. reflexivity.
  - destruct (Hfirst Sample.upload None paused ∅ inputs) as (loc & Hloc & Hopen).
    + vm_compute. discriminate.
    + simpl in Hloc. inversion Hloc; subst. exact Hopen.
Defined.

(** C9 as stated fails: with two gateways configured and a draw that
    picks the second, the request still goes to [gateway.filen.io]. *)
Lemma api_host_not_drawn :
  let a := Sample.post "/v3/user/info" (JObj []) in
  apiServers = ["gateway.filen.io"; "gateway.filen.net"]
  /\ getAPIServer (fun _ _ => 1%Z) = Some "gateway.filen.net"
  /\ map rq_hostname (sent (doAPIRequest a [Timer true])) = ["gateway.filen.io"].
Proof. vm_compute. repeat split. Qed.

Lemma api_host_fixed_witness :
  let a := Sample.post "/v3/user/info" (JObj []) in
  let r := api_request a "SHA-512:{}" in
  In r (sent (doAPIRequest a [Timer true]))
  /\ rq_hostname r = "gateway.filen.io" /\ rq_port r = 443%Z.
Proof.
  intros a r.
  assert (Hin : In r (sent (doAPIRequest a [Timer true])))
    by (vm_compute; left; reflexivity).
  split; [exact Hin|].
  exact (proj1 api_host_fixed a [Timer true] r Hin).
Defined.


(** ** Further runs *)

(** A 503, an offline spell, then a 200: two requests, the two retry
    delays, and the decoded object. *)
Example retry_then_succeed :
  let st := doAPIRequest (Sample.post "/v3/user/info" (JObj []))
              [ Timer true; Response 503 ""; Timer false; Timer true;
                Response 200 (Sample.stringify Sample.r_ok) ] in
  loop_outcome st = Resolved (Some Sample.r_ok)
  /\ length (sent st) = 2%nat
  /\ sleeps st = [1000%Z; 1000%Z].
Proof. vm_compute. repeat split. Qed.

(** With [includeRaw] the value handed to [apiRequest] is the wrapper
    [{data, raw}]: the code and the message of the body are not looked
    at, and the wrapper is returned. *)
Example raw_response_is_not_inspected :
  let r := apiRequest (Sample.env_replying Sample.r_invalid_key)
             "POST" "/v3/dir/tree" None None true Sample.world in
  snd r = Resolved (Some (JObj [ ("data", Sample.r_invalid_key);
                                 ("raw", JStr (Sample.stringify Sample.r_invalid_key)) ]))
  /\ count_logouts (log (fst r)) = 0%nat.
Proof. vm_compute. repeat split. Qed.

(** A successful create: one request, the propagation for the new
    folder under its parent, the release, the uuid. *)
Example createFolder_created :
  let r := createFolder (Sample.env_replying Sample.r_ok)
             "new-uuid" "Docs" "parent" Sample.world in
  snd r = Resolved (Some (JStr "new-uuid"))
  /\ List.filter is_shared_event (log (fst r))
     = [ EvShared "folder" "parent"
           (JObj [("uuid", JStr "new-uuid"); ("name", JStr "Docs")]) ]
  /\ count_releases (log (fst r)) = 1%nat
  /\ permits (fst r) = 1%Z.
Proof. vm_compute. repeat split. Qed.

(** The propagation never settles: the call stays pending and keeps
    the permit. *)
Example createFolder_pending_keeps_permit :
  let env :=
    {| network := network (Sample.env_replying Sample.r_ok);
       db_get_fault := fun _ => None;
       shared_outcome := fun _ _ _ => Pending;
       shared_for_rename_outcome := fun _ _ _ => Pending |} in
  let r := createFolder env "new-uuid" "Docs" "parent" Sample.world in
  snd r = Pending
  /\ count_releases (log (fst r)) = 0%nat
  /\ permits (fst r) = 0%Z.
Proof. vm_compute. repeat split. Qed.

(** [moveFile] does not swallow [folder_not_found]. *)
Example moveFile_folder_not_found :
  snd (moveFile (Sample.env_replying Sample.r_folder_not_found)
         Sample.file "parent" Sample.world)
  = Rejected (JsError (Some (JStr "Folder not found"))).
Proof. vm_compute. reflexivity. Qed.

(** The first folder is the mutated folder itself: it is left out, and
    no entry gets the parent ["none"]. *)
Example first_folder_excluded :
  itemsToShare (Some (JArr [JStr "mk"])) "root" "Root" "parent"
    [ {| fe_uuid := "f"; fe_parent := "root"; fe_metadata := "a.txt" |} ]
    [ {| fo_uuid := "root"; fo_parent := "base"; fo_name := "Root" |};
      {| fo_uuid := "a"; fo_parent := "root"; fo_name := "A" |} ]
  = inr [ {| it_uuid := "root"; it_parent := "parent";
             it_metadata := Some (JStr "Root"); it_type := "folder" |};
          {| it_uuid := "f"; it_parent := "root";
             it_metadata :=
               Some (JObj [ ("name", JStr "a.txt"); ("size", JNum 1);
                            ("mime", JStr "text/plain"); ("key", JStr "k");
                            ("lastModified", JNum 0) ]);
             it_type := "file" |};
          {| it_uuid := "a"; it_parent := "root";
             it_metadata := Some (JStr "A"); it_type := "folder" |} ].
Proof. vm_compute. reflexivity. Qed.

End Examples.

(* ================================================================= *)
(** * Further properties *)

(** ** The request loop of doAPIRequest *)

Section TransportMore.
Context `{Runtime} `{Crypto} `{Constants}.

Lemma api_run_app a c l1 l2 st :
  api_run a c (l1 ++ l2) st = api_run a c l2 (api_run a c l1 st).
Proof. unfold api_run. apply fold_left_app. Qed.









(** [typeof v === "string" && v === lit] is [v === lit]. *)
Lemma is_str_typeof v lit :
  (typeof v =? "string") && is_str v lit = is_str v lit.
Proof. destruct v as [[| | | | |]|]; reflexivity. Qed.

Lemma api_settled_by_more a evs e st o :
  api_settled_by a evs st o -> api_settled_by a (evs ++ [e]) st o.
Proof.
  intros [Hmax | (body & Hin & Hans)]; [left; exact Hmax | right].
  exists body. split; [apply in_or_app; left; exact Hin | exact Hans].
Qed.

Lemma api_step_outcome a c evs e st :
  Z.of_nat (length (sent st)) = currentTries st ->
  (forall o, ctl st = Settled o -> api_settled_by a evs st o) ->
  Z.of_nat (length (sent (api_step a c e st))) = currentTries (api_step a c e st)
  /\ (forall o, ctl (api_step a c e st) = Settled o ->
                api_settled_by a (evs ++ [e]) (api_step a c e st) o).
Proof.
  intros Hlen Hset.
  assert (Hkeep : forall o, ctl st = Settled o -> api_settled_by a (evs ++ [e]) st o)
    by (intros o Ho; apply api_settled_by_more, Hset, Ho).
  unfold api_step.
  destruct (ctl st) eqn:Hctl; destruct e as [onLine | statusCode body | | ];
    try (split; [exact Hlen | rewrite Hctl; exact Hkeep]);
    try (split; [exact Hlen | cbn [reschedule ctl]; discriminate]).
  - (* a scheduled run of doRequest *)
    unfold api_doRequest.
    destruct onLine; cbn [negb].
    + destruct (maxRetryAPIRequest <=? currentTries st)%Z eqn:Hmax.
      * split; [exact Hlen|]. cbn [settle ctl sent]. intros o Ho.
        injection Ho as <-. left. split; [reflexivity|].
        apply Z.leb_le in Hmax. cbn [settle sent]. lia.
      * split; [|cbn [issue ctl]; discriminate].
        cbn [issue sent currentTries]. rewrite length_app. simpl length. lia.
    + split; [exact Hlen | cbn [reschedule ctl]; discriminate].
  - (* the answer to the request in flight *)
    unfold api_on_response.
    destruct (negb (statusCode =? 200)%Z) eqn:Hsc.
    { split; [exact Hlen | cbn [reschedule ctl]; discriminate]. }
    apply negb_false_iff, Z.eqb_eq in Hsc. subst statusCode.
    assert (Hin : In (Response 200 body) (evs ++ [Response 200 body]))
      by (apply in_or_app; right; left; reflexivity).
    destruct (JSON_parse body) as [obj|] eqn:Hparse.
    + destruct (get (Some obj) "code") as [e|code] eqn:Hcode.
      * split; [exact Hlen|]. cbn [settle ctl]. intros o Ho. injection Ho as <-.
        right. exists body. split; [exact Hin|].
        unfold api_answer. rewrite Hparse, Hcode. reflexivity.
      * rewrite is_str_typeof.
        destruct (is_str code "internal_error") eqn:Hie.
        { split; [exact Hlen | cbn [reschedule ctl]; discriminate]. }
        assert (Hans : api_answer a body
                         (inr (api_result (arg_includeRaw a) body obj)))
          by (unfold api_answer; rewrite Hparse, Hcode; split; [exact Hie | reflexivity]).
        unfold api_result in Hans.
        destruct (arg_includeRaw a); (split; [exact Hlen|]);
          cbn [settle ctl]; intros o Ho; injection Ho as <-;
          right; exists body; (split; [exact Hin | exact Hans]).
    + split; [exact Hlen|]. cbn [settle ctl]. intros o Ho. injection Ho as <-.
      right. exists body. split; [exact Hin|].
      unfold api_answer. rewrite Hparse. reflexivity.
Qed.

Lemma api_run_outcome a c evs :
  let st := api_run a c evs loop_init in
  Z.of_nat (length (sent st)) = currentTries st
  /\ (forall o, ctl st = Settled o -> api_settled_by a evs st o).
Proof.
  induction evs as [|e evs IH] using rev_ind.
  - split; [reflexivity | discriminate].
  - cbv zeta in *. rewrite api_run_app. cbn [api_run fold_left].
    destruct IH as [Hlen Hset]. apply api_step_outcome; assumption.
Qed.

(** X2. What [doAPIRequest] settles with. Once the promise has settled,
    either the checksum could not be computed and nothing was sent; or
    the call was rejected with the maximum-retries error, after at least
    [maxRetryAPIRequest] requests; or some request was answered 200 with
    a body that decides the result: rejected with the error of
    [JSON.parse] or of the read of [code], else resolved with the parsed
    object (wrapped with the raw text under [includeRaw]), whose code is
    not "internal_error". No transport error, timeout or status other
    than 200 ever settles the promise. *)
Theorem doAPIRequest_outcome :
  forall a evs o,
    ctl (doAPIRequest a evs) = Settled o ->
    (exists e, api_checksum a = inl e /\ o = inl e
               /\ sent (doAPIRequest a evs) = [])
    \/ ((exists c, api_checksum a = inr c)
        /\ api_settled_by a evs (doAPIRequest a evs) o).
Proof.
  intros a evs o Hctl. unfold doAPIRequest in *.
  destruct (api_checksum a) as [e|c] eqn:Hc.
  - left. exists e. cbn [settle ctl] in Hctl. injection Hctl as <-.
    repeat apply conj; reflexivity.
  - right. split; [exists c; reflexivity|].
    apply (api_run_outcome a c evs), Hctl.
Qed.



End TransportMore.

(** ** The attempt loops of uploadChunk and downloadChunk *)

Section TransferMore.
Context `{Runtime} `{Crypto} `{Constants}.



Lemma xfer_rejected_at_gate store locs e : at_gate_inv (xfer_rejected store locs e).
Proof. intros Hp. discriminate. Qed.
















End TransferMore.

(** ** apiRequest and the functions built on it *)

Section WrappersMore.
Context `{Runtime} `{Crypto} `{Constants}.
Variable env : Env.

Lemma loop_outcome_resolved st v :
  loop_outcome st = Resolved v -> ctl st = Settled (inr v).
Proof.
  unfold loop_outcome. destruct (ctl st) as [| |[e|v']]; try discriminate.
  intros [= ->]. reflexivity.
Qed.

(** A resolved [doAPIRequest] hands over the parse of a 200 body. *)
Lemma doAPIRequest_resolved a evs v :
  loop_outcome (doAPIRequest a evs) = Resolved v ->
  exists body obj code,
    In (Response 200 body) evs
    /\ JSON_parse body = Some obj
    /\ get (Some obj) "code" = inr code
    /\ is_str code "internal_error" = false
    /\ v = api_result (arg_includeRaw a) body obj.
Proof.
  intros Hr. apply loop_outcome_resolved in Hr. unfold doAPIRequest in Hr.
  destruct (api_checksum a) as [e|c]; [discriminate|].
  destruct (api_run_outcome a c evs) as [_ Hset].
  destruct (Hset _ Hr) as [[Hmax _] | (body & Hin & Hans)]; [discriminate|].
  unfold api_answer in Hans.
  destruct (JSON_parse body) as [obj|] eqn:Hp; [|discriminate].
  destruct (get (Some obj) "code") as [e|code] eqn:Hcode; [discriminate|].
  destruct Hans as [Hie Hv]. injection Hv as ->.
  exists body, obj, code. repeat apply conj; auto.
Qed.

(** The first two lines of [apiRequest]: unless the read of the store
    fails, one call of [doAPIRequest] with the chosen key. *)
Lemma apiRequest_response_run method endpoint data apiKey includeRaw w :
  let a := api_args method endpoint data includeRaw (chosen_key apiKey (db w)) in
  let st := doAPIRequest a (network env a) in
  apiRequest_response env method endpoint data apiKey includeRaw w
  = ({| db := db w; permits := permits w; log := log w ++ map EvHttp (sent st) |},
     loop_outcome st)
  \/ exists e,
       db_get_fault env "apiKey" = Some e
       /\ apiRequest_response env method endpoint data apiKey includeRaw w
          = (w, Rejected e).
Proof.
  cbv zeta. unfold apiRequest_response, chosen_key, api_args.
  assert (Hread :
            forall k : JSValue -> M JSValue,
              bind (db_get env "apiKey") k w = k (db w !! "apiKey") w
              \/ exists e, db_get_fault env "apiKey" = Some e
                           /\ bind (db_get env "apiKey") k w = (w, Rejected e)).
  { intros k. unfold bind, db_get.
    destruct (db_get_fault env "apiKey") as [e|];
      [right; exists e; split; reflexivity | left; reflexivity]. }
  destruct apiKey as [[| | |k| |]|];
    try (destruct (String.length k =? 64)%nat; [left; reflexivity|]);
    match goal with
    | |- bind _ ?k w = _ \/ _ =>
        destruct (Hread k) as [Hk | (e & Hf & Hk)];
          [left; rewrite Hk; reflexivity | right; exists e; split; assumption]
    end.
Qed.

(** The rest of [apiRequest]: the response is handed on, or a read of
    it throws, or the session is invalidated. *)
Lemma apiRequest_tail method endpoint data apiKey includeRaw w w1 o1 :
  apiRequest_response env method endpoint data apiKey includeRaw w = (w1, o1) ->
  (exists o, apiRequest env method endpoint data apiKey includeRaw w = (w1, o)
             /\ (forall v, o = Resolved v -> o1 = Resolved v))
  \/ (exists fs c m,
         o1 = Resolved (Some (JObj fs))
         /\ assoc "code" fs = Some (JStr c)
         /\ assoc "message" fs = Some (JStr m)
         /\ apiRequest env method endpoint data apiKey includeRaw w
            = (logged_out w1, Rejected (JsError (Some (JStr "Session invalidated"))))).
Proof.
  intros Hresp. unfold apiRequest.
  match goal with
  | |- context [bind _ ?k w] =>
      assert (Hb : bind (apiRequest_response env method endpoint data apiKey includeRaw)
                     k w
                   = match o1 with
                     | Resolved response => k response w1
                     | Rejected e => (w1, Rejected e)
                     | Pending => (w1, Pending)
                     end)
        by (unfold bind at 1; rewrite Hresp; destruct o1; reflexivity);
      rewrite !Hb; clear Hb
  end.
  destruct o1 as [response | e |];
    [| left; eexists; split; [reflexivity | discriminate]
     | left; eexists; split; [reflexivity | discriminate]].
  destruct response as [[| b | n | s | items | fs]|]; cbn;
    try (left; eexists; split; [reflexivity | intros v Hv; first [exact Hv | discriminate]]).
  destruct (assoc "code" fs) as [[| | |c| |]|] eqn:Hcode;
    destruct (assoc "message" fs) as [[| | |m| |]|] eqn:Hmsg; cbn;
    try (left; eexists; split; [reflexivity | intros v Hv; exact Hv]).
  destruct (negb (indexOf (toLowerCase m) "api key not found" =? -1)%Z
            || negb (indexOf (toLowerCase m) "invalid api key" =? -1)%Z
            || (c =? "api_key_not_found")); cbn.
  - right. exists fs, c, m.
    repeat apply conj; [reflexivity | exact Hcode | exact Hmsg | reflexivity].
  - left. eexists. split; [reflexivity | intros v Hv; exact Hv].
Qed.

(** What a call of [apiRequest] does, in terms of the loop it runs. *)
Lemma apiRequest_run method endpoint data apiKey includeRaw w w' o :
  apiRequest env method endpoint data apiKey includeRaw w = (w', o) ->
  let a := api_args method endpoint data includeRaw (chosen_key apiKey (db w)) in
  let st := doAPIRequest a (network env a) in
  db w' = db w /\ permits w' = permits w
  /\ exists rs tail,
       log w' = log w ++ map EvHttp rs ++ tail
       /\ (rs = [] \/ rs = sent st)
       /\ (forall v, o = Resolved v -> rs = sent st /\ loop_outcome st = Resolved v)
       /\ (tail = []
           \/ (tail = [EvLogout]
               /\ o = Rejected (JsError (Some (JStr "Session invalidated")))
               /\ includeRaw = false)).
Proof.
  intros Hrun a st.
  destruct (apiRequest_response_run method endpoint data apiKey includeRaw w)
    as [Hresp | (e & Hf & Hresp)]; fold a in Hresp; fold st in Hresp.
  - destruct (apiRequest_tail _ _ _ _ _ _ _ _ Hresp)
      as [(o' & Hr & Hv) | (fs & c & m & Ho1 & Hcode & Hmsg & Hr)];
      rewrite Hr in Hrun; injection Hrun as <- <-.
    + repeat apply conj; [reflexivity | reflexivity |].
      exists (sent st), []. rewrite app_nil_r.
      repeat apply conj; [reflexivity | right; reflexivity | | left; reflexivity].
      intros v Hv'. split; [reflexivity | apply Hv, Hv'].
    + repeat apply conj; [reflexivity | reflexivity |].
      exists (sent st), [EvLogout].
      repeat apply conj;
        [cbn; rewrite <- app_assoc; reflexivity | right; reflexivity
        | discriminate |].
      right. repeat apply conj; [reflexivity | reflexivity |].
      destruct (doAPIRequest_resolved a (network env a) _ Ho1)
        as (body & obj & code & _ & _ & _ & _ & Hv).
      unfold api_result in Hv. subst a. cbn [api_args arg_includeRaw] in Hv.
      destruct includeRaw; [|reflexivity].
      injection Hv as ->. cbn in Hcode. discriminate.
  - destruct (apiRequest_tail _ _ _ _ _ _ _ _ Hresp)
      as [(o' & Hr & Hv) | (fs & c & m & Ho1 & _)]; [|discriminate].
    rewrite Hr in Hrun. injection Hrun as <- <-.
    repeat apply conj; [reflexivity | reflexivity |].
    exists [], []. rewrite app_nil_r.
    repeat apply conj; [reflexivity | left; reflexivity | | left; reflexivity].
    intros v Hv'. apply Hv in Hv'. discriminate.
Qed.

Lemma api_request_shape a c :
  is_api_request_of (arg_method a) (arg_endpoint a) (arg_apiKey a) (api_request a c).
Proof. repeat apply conj; reflexivity. Qed.

(** X6. What a call of [apiRequest] does. It leaves the store and the
    semaphore alone; it logs the requests of its one [doAPIRequest]
    loop, at most [maxRetryAPIRequest] of them, each to port 443 of
    gateway.filen.io, with the endpoint as path, the upper-cased method,
    and the bearer token made from the key passed when that is a string
    of 64 characters and from the stored key otherwise; a [logout] comes
    at most once, after the last request, and then the call fails with
    "Session invalidated". Under [includeRaw] there is never a
    [logout]. *)
Theorem apiRequest_effects :
  forall method endpoint data apiKey includeRaw w w' o,
    apiRequest env method endpoint data apiKey includeRaw w = (w', o) ->
    db w' = db w /\ permits w' = permits w
    /\ exists rs tail,
        log w' = log w ++ map EvHttp rs ++ tail
        /\ (Z.of_nat (length rs) <= Z.max 0 maxRetryAPIRequest)%Z
        /\ Forall (is_api_request_of method endpoint (chosen_key apiKey (db w))) rs
        /\ (tail = []
            \/ (tail = [EvLogout]
                /\ o = Rejected (JsError (Some (JStr "Session invalidated")))
                /\ includeRaw = false)).
Proof.
  intros method endpoint data apiKey includeRaw w w' o Hrun.
  destruct (apiRequest_run _ _ _ _ _ _ _ _ Hrun)
    as (Hdb & Hpermits & rs & tail & Hlog & Hrs & _ & Htail).
  repeat apply conj; [exact Hdb | exact Hpermits |].
  exists rs, tail. repeat apply conj; [exact Hlog | | | exact Htail].
  - destruct Hrs as [-> | ->]; [simpl; lia|].
    match goal with
    | |- context [doAPIRequest ?args ?evs] =>
        destruct (doAPIRequest_inv (fun _ _ _ => True) args evs) as (Hlen & Hle & _);
          [intros; exact I | rewrite Hlen; exact Hle]
    end.
  - destruct Hrs as [-> | ->]; [constructor|].
    match goal with
    | |- context [doAPIRequest ?args ?evs] =>
        destruct (doAPIRequest_inv
                    (fun b _ r => is_api_request_of (arg_method b) (arg_endpoint b)
                                    (arg_apiKey b) r) args evs) as (_ & _ & Hall);
          [intros; apply api_request_shape|]
    end.
    eapply List.Forall_impl; [|exact Hall].
    intros r (c & _ & Hr). exact Hr.
Qed.

Lemma bind_inv {A B} (c : M A) (k : A -> M B) w w' o :
  bind c k w = (w', o) ->
  (exists w1 a, c w = (w1, Resolved a) /\ k a w1 = (w', o))
  \/ (exists e, c w = (w', Rejected e) /\ o = Rejected e)
  \/ (c w = (w', Pending) /\ o = Pending).
Proof.
  unfold bind. destruct (c w) as [w1 [a | e |]]; intros Hk.
  - left. exists w1, a. split; [reflexivity | exact Hk].
  - right. left. injection Hk as <- <-. exists e. split; reflexivity.
  - right. right. injection Hk as <- <-. split; reflexivity.
Qed.

(** A test of the response changes nothing. *)
Lemma checked_world response w : fst (checked response w) = w.
Proof.
  unfold checked, bind, lift, ret, throw.
  destruct (get response "status") as [e|status]; [reflexivity|].
  destruct (negb (truthy status)).
  - destruct (get response "message"); reflexivity.
  - destruct (get response "data"); reflexivity.
Qed.

Lemma chosen_key_stored store : chosen_key (store !! "apiKey") store = store !! "apiKey".
Proof.
  unfold chosen_key. destruct (store !! "apiKey") as [[| | |k| |]|]; try reflexivity.
  destruct (String.length k =? 64)%nat; reflexivity.
Qed.

Lemma chosen_key_falsy v store : truthy v = false -> chosen_key v store = store !! "apiKey".
Proof.
  unfold chosen_key. destruct v as [[| | |k| |]|]; try reflexivity.
  destruct k; [reflexivity | discriminate].
Qed.

(** The requests of a loop whose arguments carry no data and a method
    other than POST. *)
Lemma doAPIRequest_without_data a evs :
  arg_data a = None ->
  Forall (fun r =>
            is_api_request_of (arg_method a) (arg_endpoint a) (arg_apiKey a) r
            /\ (exists c,
                   bufferToHash (textEncoder_encode (JSON_stringify (JObj []))) "SHA-512"
                   = inr c
                   /\ header "Checksum" (rq_headers r) = Some c)
            /\ (toUpperCase (arg_method a) <> "POST" -> rq_body r = None))
         (sent (doAPIRequest a evs)).
Proof.
  intros Hdata.
  destruct (doAPIRequest_inv (fun b c r => r = api_request b c) a evs) as (_ & _ & Hall);
    [reflexivity|].
  eapply List.Forall_impl; [|exact Hall].
  intros r (c & Hc & ->). repeat apply conj; try reflexivity.
  - exists c. split; [|reflexivity].
    unfold api_checksum, api_data in Hc. rewrite Hdata in Hc. exact Hc.
  - intros Hm. cbn [api_request rq_body].
    apply String.eqb_neq in Hm. rewrite Hm. reflexivity.
Qed.

(** X7. The requests of [userInfo]. Each is a GET of /v3/user/info
    without a body, whose checksum is that of the empty object. The
    bearer token is made from the key passed only when that is a string
    of 64 characters; any other argument, truthy or not, is replaced by
    the stored key. *)
Theorem userInfo_requests :
  forall passedApiKey w w' o,
    userInfo env passedApiKey w = (w', o) ->
    exists rs tail,
      log w' = log w ++ map EvHttp rs ++ tail
      /\ (tail = [] \/ tail = [EvLogout])
      /\ Forall (fun r =>
                   is_api_request_of "GET" "/v3/user/info"
                     (chosen_key passedApiKey (db w)) r
                   /\ (exists c,
                          bufferToHash (textEncoder_encode (JSON_stringify (JObj [])))
                            "SHA-512" = inr c
                          /\ header "Checksum" (rq_headers r) = Some c)
                   /\ (toUpperCase "GET" <> "POST" -> rq_body r = None))
                rs.
Proof.
  intros passedApiKey w w' o Hrun. unfold userInfo in Hrun.
  assert (Hcall :
            forall key w1 o1,
              chosen_key key (db w) = chosen_key passedApiKey (db w) ->
              bind (apiRequest env "GET" "/v3/user/info" None key false) checked w
              = (w1, o1) ->
              exists rs tail,
                log w1 = log w ++ map EvHttp rs ++ tail
                /\ (tail = [] \/ tail = [EvLogout])
                /\ Forall (fun r =>
                             is_api_request_of "GET" "/v3/user/info"
                               (chosen_key passedApiKey (db w)) r
                             /\ (exists c,
                                    bufferToHash
                                      (textEncoder_encode (JSON_stringify (JObj [])))
                                      "SHA-512" = inr c
                                    /\ header "Checksum" (rq_headers r) = Some c)
                             /\ (toUpperCase "GET" <> "POST" -> rq_body r = None))
                          rs).
  { intros key w1 o1 Hkey Hb.
    assert (Hreq : exists o2, apiRequest env "GET" "/v3/user/info" None key false w
                              = (w1, o2)).
    { apply bind_inv in Hb as [(w2 & response & Hr & Hc) | [(e & Hr & _) | [Hr _]]];
        [|eexists; exact Hr ..].
      exists (Resolved response). rewrite Hr. f_equal.
      rewrite <- (checked_world response w2), Hc. reflexivity. }
    destruct Hreq as [o2 Hreq].
    destruct (apiRequest_run _ _ _ _ _ _ _ _ Hreq)
      as (_ & _ & rs & tail & Hlog & Hrs & _ & Htail).
    exists rs, tail. repeat apply conj; [exact Hlog | |].
    - destruct Htail as [-> | [-> _]]; [left | right]; reflexivity.
    - destruct Hrs as [-> | ->]; [constructor|]. rewrite Hkey.
      apply (doAPIRequest_without_data
               (api_args "GET" "/v3/user/info" None false
                  (chosen_key passedApiKey (db w)))).
      reflexivity. }
  apply bind_inv in Hrun as [(w1 & key & Hkey & Hb) | [(e & Hkey & _) | [Hkey _]]].
  - destruct (truthy passedApiKey) eqn:Ht.
    + injection Hkey as <- <-. apply (Hcall passedApiKey w' o); [reflexivity | exact Hb].
    + unfold db_get in Hkey. destruct (db_get_fault env "apiKey"); [discriminate|].
      injection Hkey as <- <-. apply (Hcall (db w !! "apiKey") w' o); [|exact Hb].
      rewrite chosen_key_stored, (chosen_key_falsy _ _ Ht). reflexivity.
  - destruct (truthy passedApiKey); [discriminate|].
    unfold db_get in Hkey. destruct (db_get_fault env "apiKey"); [|discriminate].
    injection Hkey as <- _. exists [], []. cbn [map app]. rewrite app_nil_r.
    repeat apply conj; [reflexivity | left; reflexivity | constructor].
  - destruct (truthy passedApiKey); [discriminate|].
    unfold db_get in Hkey. destruct (db_get_fault env "apiKey"); discriminate.
Qed.


End WrappersMore.

(** ** Progress reports of the two transfers *)

Lemma last_cons_default {A} (x d : A) (l : list A) :
  List.last (x :: l) d = List.last l x.
Proof.
  revert x d. induction l as [|y l IH]; intros x d; [reflexivity|].
  change (List.last (x :: y :: l) d) with (List.last (y :: l) d).
  rewrite (IH y d), (IH y x). reflexivity.
Qed.

Lemma calcProgress_difference lastBytes written :
  calcProgress lastBytes written = ((written - lastBytes)%Z, written).
Proof.
  unfold calcProgress. destruct (lastBytes =? 0)%Z eqn:Hz; [|reflexivity].
  apply Z.eqb_eq in Hz. subst. rewrite Z.sub_0_r. reflexivity.
Qed.

Lemma upload_progress_from_total from uuid transferred : forall lastBytes,
  reported_bytes (upload_progress_from from uuid lastBytes transferred)
  = (List.last transferred lastBytes - lastBytes)%Z
  /\ length (upload_progress_from from uuid lastBytes transferred)
     = length transferred.
Proof.
  induction transferred as [|written rest IH]; intros lastBytes.
  - split; [unfold reported_bytes; simpl; lia | reflexivity].
  - cbn [upload_progress_from]. rewrite calcProgress_difference.
    destruct (IH written) as [Hsum Hlen].
    unfold reported_bytes in *. cbn [map fold_right pe_bytes length].
    rewrite Hsum, Hlen, last_cons_default. split; [lia | reflexivity].
Qed.

(** X9. Progress of an upload attempt. Whatever totals the progress
    stream reports, [calcProgress] sends one event per report and the
    byte counts of the events add up to the last total reported: the
    special case for [lastBytes === 0] computes the same difference as
    the general one. Every attempt starts again from 0, so a chunk that
    is sent twice is reported twice. *)
Theorem upload_progress_total :
  forall from uuid transferred again,
    reported_bytes (upload_progress from uuid transferred)
    = List.last transferred 0%Z
    /\ length (upload_progress from uuid transferred) = length transferred
    /\ reported_bytes (upload_progress from uuid transferred
                         ++ upload_progress from uuid again)
       = (List.last transferred 0 + List.last again 0)%Z.
Proof.
  intros from uuid transferred again. unfold upload_progress.
  destruct (upload_progress_from_total from uuid transferred 0%Z) as [Hsum Hlen].
  destruct (upload_progress_from_total from uuid again 0%Z) as [Hsum' _].
  rewrite Z.sub_0_r in Hsum, Hsum'.
  repeat apply conj; [exact Hsum | exact Hlen |].
  unfold reported_bytes in *. rewrite map_app, fold_right_app.
  rewrite Hsum'.
  generalize dependent (List.last again 0%Z). intros z _.
  rewrite <- Hsum. clear.
  induction (map pe_bytes (upload_progress_from from uuid 0 transferred)) as [|b l IH];
    cbn [fold_right]; lia.
Qed.

Lemma string_length_append s1 s2 :
  String.length (s1 +:+ s2) = (String.length s1 + String.length s2)%nat.
Proof. induction s1 as [|c s1 IH]; simpl; [reflexivity | rewrite IH; reflexivity]. Qed.

(** X10. Progress of a download attempt. The byte counts of the events
    sent while the slices of a response arrive add up to the length of
    the buffer the attempt resolves with, one event per slice. *)
Theorem download_progress_total :
  forall from uuid chunks,
    reported_bytes (download_progress from uuid chunks)
    = Z.of_nat (String.length (buffer_concat chunks))
    /\ length (download_progress from uuid chunks) = length chunks.
Proof.
  intros from uuid chunks. unfold download_progress, buffer_concat, reported_bytes.
  split; [|apply length_map].
  rewrite map_map. cbn [pe_bytes].
  induction chunks as [|chunk rest IH]; [reflexivity|].
  cbn [map fold_right]. rewrite IH.
  destruct rest as [|next rest].
  - simpl. lia.
  - change (String.concat "" (chunk :: next :: rest))
      with (chunk +:+ "" +:+ String.concat "" (next :: rest)).
    rewrite !string_length_append. simpl String.length. lia.
Qed.

(** ** The two fan-outs of the metadata propagator *)

Section TickLoop.
Context {R X : Type}.
Variable settles : R -> Outcome unit.
Variable total : nat.
Variable enc : X -> Outcome string.
Variable mk : X -> string -> R.

Lemma dispatch_once x st :
  let st' := dispatch settles total (enc x) (mk x) st in
  arm_requests st'
  = arm_requests st ++ match enc x with Resolved e => [mk x e] | _ => [] end
  /\ arm_count st'
     = (arm_count st + if chain_settles settles (enc x) (mk x) then 1 else 0)%nat
  /\ arm_done st'
     = arm_done st
       || (chain_settles settles (enc x) (mk x) && (total <=? S (arm_count st))%nat).
Proof.
  unfold dispatch, send_and_tick, chain_settles.
  destruct (enc x) as [e | e |]; [destruct (settles (mk x e)) as [u | e' |] | |];
    cbn [arm_tick arm_send arm_requests arm_count arm_done andb];
    rewrite ?app_nil_r, ?orb_false_r;
    repeat apply conj; try reflexivity; lia.
Qed.

(** A loop that starts one chain per element: what it has called, how
    far its counter is, and whether its flag is set. *)
Lemma tick_loop xs : forall st,
  let st' := fold_left (fun st x => dispatch settles total (enc x) (mk x) st) xs st in
  arm_requests st' = arm_requests st ++ dispatched enc mk xs
  /\ arm_count st' = (arm_count st + settled_chains settles enc mk xs)%nat
  /\ arm_done st'
     = arm_done st
       || ((0 <? settled_chains settles enc mk xs)%nat
           && (total <=? arm_count st + settled_chains settles enc mk xs)%nat).
Proof.
  induction xs as [|x xs IH]; intros st; cbv zeta.
  - unfold dispatched, settled_chains. cbn.
    rewrite app_nil_r, Nat.add_0_r, orb_false_r. auto.
  - cbn [fold_left].
    destruct (IH (dispatch settles total (enc x) (mk x) st)) as (Hr & Hc & Hd).
    destruct (dispatch_once x st) as (Hr1 & Hc1 & Hd1). cbv zeta in Hr1, Hc1, Hd1.
    rewrite Hr, Hc, Hd, Hr1, Hc1, Hd1. clear IH Hr Hc Hd Hr1 Hc1 Hd1.
    unfold dispatched, settled_chains. cbn [flat_map List.filter].
    set (n := length (List.filter (fun x => chain_settles settles (enc x) (mk x)) xs)).
    rewrite <- app_assoc.
    destruct (chain_settles settles (enc x) (mk x));
      cbn [length andb]; fold n; (repeat apply conj; [reflexivity | lia |]).
    + destruct (arm_done st); cbn [orb]; [reflexivity|].
      destruct (Nat.leb_spec total (S (arm_count st)));
        destruct (Nat.ltb_spec 0 n);
        destruct (Nat.leb_spec total (arm_count st + 1 + n));
        destruct (Nat.leb_spec total (arm_count st + S n));
        destruct (Nat.ltb_spec 0 (S n));
        cbn; try reflexivity; lia.
    + rewrite orb_false_r, Nat.add_0_r. reflexivity.
Qed.

Lemma settled_chains_le xs : (settled_chains settles enc mk xs <= length xs)%nat.
Proof.
  unfold settled_chains. induction xs as [|x xs IH]; cbn; [lia|].
  destruct (chain_settles settles (enc x) (mk x)); cbn; lia.
Qed.

Lemma settled_chains_all xs :
  settled_chains settles enc mk xs = length xs
  <-> Forall (fun x => chain_settles settles (enc x) (mk x) = true) xs.
Proof.
  unfold settled_chains. induction xs as [|x xs IH]; cbn.
  - split; [constructor | reflexivity].
  - assert (Hle := settled_chains_le xs). unfold settled_chains in Hle.
    destruct (chain_settles settles (enc x) (mk x)) eqn:Hx; cbn.
    + split.
      * intros Hl. constructor; [exact Hx | apply IH; lia].
      * intros Hall. inversion Hall; subst. f_equal. apply IH. assumption.
    + split; [lia|]. intros Hall. inversion Hall; subst. congruence.
Qed.

Lemma dispatched_length xs : (length (dispatched enc mk xs) <= length xs)%nat.
Proof.
  unfold dispatched. induction xs as [|x xs IH]; cbn; [lia|].
  rewrite length_app. destruct (enc x); cbn; lia.
Qed.

End TickLoop.

(** Started with the counter at 0 and the length of the list as total,
    the loop sets its flag exactly when the list is not empty and every
    chain comes to an end. *)
Lemma tick_loop_done {R X} (settles : R -> Outcome unit) (enc : X -> Outcome string)
      (mk : X -> string -> R) (xs : list X) :
  arm_done (fold_left (fun st x => dispatch settles (length xs) (enc x) (mk x) st)
              xs arm_idle)
  = true
  <-> xs <> [] /\ Forall (fun x => chain_settles settles (enc x) (mk x) = true) xs.
Proof.
  destruct (tick_loop settles (length xs) enc mk xs arm_idle) as (_ & _ & Hd).
  cbv zeta in Hd. rewrite Hd. cbn [arm_idle arm_done arm_count orb Nat.add].
  rewrite <- settled_chains_all.
  assert (Hle := settled_chains_le settles enc mk xs).
  destruct (Nat.ltb_spec 0 (settled_chains settles enc mk xs));
    destruct (Nat.leb_spec (length xs) (settled_chains settles enc mk xs)); cbn.
  - split; [|reflexivity]. intros _. split; [|lia].
    intros ->. cbn in *. lia.
  - split; [discriminate|]. intros [_ Heq]. lia.
  - split; [discriminate|]. intros [Hne Heq].
    destruct xs; [congruence | cbn in *; lia].
  - split; [discriminate|]. intros [_ Heq]. lia.
Qed.

Section FanoutFacts.
Context `{Runtime} `{Crypto}.
Variable F : Fanout.
Variable masterKeys : JSValue.

Lemma rendezvous_outcome {S L} (share : Arm S) (link : Arm L) :
  (fr_outcome (rendezvous share link) = Resolved (Some (JBool true))
   <-> arm_done share = true /\ arm_done link = true)
  /\ (fr_outcome (rendezvous share link) = Resolved (Some (JBool true))
      \/ fr_outcome (rendezvous share link) = Pending).
Proof.
  unfold rendezvous. cbn [fr_outcome].
  destruct (arm_done share), (arm_done link); cbn; split;
    try (split; [intros; split; congruence | intros [? ?]; congruence]);
    auto.
Qed.

Lemma rename_share_arm_loop type uuid md sdata :
  isSharingItem_outcome F uuid = Resolved sdata ->
  truthy (sh_sharing sdata) = true ->
  rename_share_arm F type uuid md
  = fold_left
      (fun st u =>
         dispatch (renameSharedItem_outcome F) (length (sh_users sdata))
           (encryptMetadataPublicKey F (rename_text type md) (user_publicKey u))
           (rename_share_request uuid u) st)
      (sh_users sdata) arm_idle.
Proof. intros Hs Ht. unfold rename_share_arm. rewrite Hs, Ht. reflexivity. Qed.

Lemma rename_link_arm_loop type uuid md ldata :
  isItemInPublicLink_outcome F uuid = Resolved ldata ->
  truthy (lk_linking ldata) = true ->
  rename_link_arm F masterKeys type uuid md
  = fold_left
      (fun st l =>
         dispatch (renameItemInPublicLink_outcome F) (length (lk_links ldata))
           (rename_link_encrypted F masterKeys type md l)
           (rename_link_request uuid l) st)
      (lk_links ldata) arm_idle.
Proof. intros Hl Ht. unfold rename_link_arm. rewrite Hl, Ht. reflexivity. Qed.

(** X11. When [checkIfItemIsSharedForRename] settles. For an item that
    is shared and linked, the call resolves exactly when there is at
    least one recipient and at least one link and every chain started
    for them comes to an end (its encryption fails, or the call it makes
    settles either way); otherwise it stays pending for ever: it never
    rejects, and with an empty list of recipients or of links its flag
    is never set. One call goes out per recipient and per link whose
    metadata could be encrypted, in the order of the lists. *)
Theorem rename_fanout_settles :
  forall type uuid md sdata ldata,
    isSharingItem_outcome F uuid = Resolved sdata ->
    truthy (sh_sharing sdata) = true ->
    isItemInPublicLink_outcome F uuid = Resolved ldata ->
    truthy (lk_linking ldata) = true ->
    let run := checkIfItemIsSharedForRename F masterKeys None type uuid md in
    (fr_outcome run = Resolved (Some (JBool true))
     <-> (sh_users sdata <> []
          /\ Forall (fun u => rename_share_settles F type uuid md u = true)
               (sh_users sdata))
         /\ (lk_links ldata <> []
             /\ Forall (fun l => rename_link_settles F masterKeys type uuid md l = true)
                  (lk_links ldata)))
    /\ (fr_outcome run = Resolved (Some (JBool true)) \/ fr_outcome run = Pending)
    /\ arm_requests (fr_share run)
       = dispatched
           (fun u => encryptMetadataPublicKey F (rename_text type md) (user_publicKey u))
           (rename_share_request uuid) (sh_users sdata)
    /\ arm_requests (fr_link run)
       = dispatched (rename_link_encrypted F masterKeys type md)
           (rename_link_request uuid) (lk_links ldata).
Proof.
  intros type uuid md sdata ldata Hs Hst Hl Hlt run. subst run.
  unfold checkIfItemIsSharedForRename.
  destruct (rendezvous_outcome (rename_share_arm F type uuid md)
              (rename_link_arm F masterKeys type uuid md)) as [Hiff Hor].
  split; [|split; [|split]].
  - rewrite Hiff.
    rewrite (rename_share_arm_loop type uuid md sdata Hs Hst).
    rewrite (rename_link_arm_loop type uuid md ldata Hl Hlt).
    rewrite (tick_loop_done (renameSharedItem_outcome F)
               (fun u => encryptMetadataPublicKey F (rename_text type md) (user_publicKey u))
               (rename_share_request uuid) (sh_users sdata)).
    rewrite (tick_loop_done (renameItemInPublicLink_outcome F)
               (rename_link_encrypted F masterKeys type md)
               (rename_link_request uuid) (lk_links ldata)).
    apply iff_refl.
  - exact Hor.
  - cbn [rendezvous fr_share].
    rewrite (rename_share_arm_loop type uuid md sdata Hs Hst).
    apply (tick_loop (renameSharedItem_outcome F) (length (sh_users sdata))
             (fun u => encryptMetadataPublicKey F (rename_text type md) (user_publicKey u))
             (rename_share_request uuid) (sh_users sdata) arm_idle).
  - cbn [rendezvous fr_link].
    rewrite (rename_link_arm_loop type uuid md ldata Hl Hlt).
    apply (tick_loop (renameItemInPublicLink_outcome F) (length (lk_links ldata))
             (rename_link_encrypted F masterKeys type md)
             (rename_link_request uuid) (lk_links ldata) arm_idle).
Qed.

Lemma share_file_loop_eq type parent md us :
  share_file_loop F type parent md us
  = fold_left
      (fun st u =>
         dispatch (shareItem_outcome F) (length us)
           (encryptMetadataPublicKey F (metadata_text md) (user_publicKey u))
           (share_file_request type parent md u) st)
      us arm_idle.
Proof. reflexivity. Qed.

Lemma flag_by_count_tick {R} total (st : Arm R) :
  flag_by_count total st -> flag_by_count total (arm_tick total st).
Proof.
  unfold flag_by_count. cbn [arm_tick arm_done arm_count]. intros ->.
  destruct (Nat.ltb_spec 0 (arm_count st));
    destruct (Nat.leb_spec total (arm_count st));
    destruct (Nat.leb_spec total (S (arm_count st)));
    cbn; try reflexivity; lia.
Qed.

Lemma unsettled_app {R} (settles : R -> Outcome unit) l1 l2 :
  unsettled settles (l1 ++ l2) = (unsettled settles l1 + unsettled settles l2)%nat.
Proof. unfold unsettled. rewrite List.filter_app, length_app. reflexivity. Qed.

(** A call followed by its tick: the counter or the number of calls
    outstanding grows by one. *)
Lemma send_and_tick_inv {R} (settles : R -> Outcome unit) total (P : R -> Prop) r
      (st : Arm R) :
  flag_by_count total st -> P r -> Forall P (arm_requests st) ->
  let st' := send_and_tick settles total r st in
  flag_by_count total st'
  /\ (arm_count st' + unsettled settles (arm_requests st')
      = S (arm_count st + unsettled settles (arm_requests st)))%nat
  /\ Forall P (arm_requests st')
  /\ arm_requests st' = arm_requests st ++ [r].
Proof.
  intros Hflag Hr Hall. unfold send_and_tick.
  assert (Hall' : Forall P (arm_requests st ++ [r]))
    by (apply Forall_app; split; [exact Hall | constructor; [exact Hr | constructor]]).
  destruct (settles r) as [u | e |] eqn:Hs; cbv zeta.
  - repeat apply conj; [apply flag_by_count_tick, Hflag | | exact Hall' | reflexivity].
    cbn [arm_tick arm_send arm_count arm_requests].
    rewrite unsettled_app. unfold unsettled at 2. cbn [List.filter]. rewrite Hs.
    cbn [length]. lia.
  - repeat apply conj; [apply flag_by_count_tick, Hflag | | exact Hall' | reflexivity].
    cbn [arm_tick arm_send arm_count arm_requests].
    rewrite unsettled_app. unfold unsettled at 2. cbn [List.filter]. rewrite Hs.
    cbn [length]. lia.
  - repeat apply conj; [exact Hflag | | exact Hall' | reflexivity].
    cbn [arm_send arm_count arm_requests].
    rewrite unsettled_app. unfold unsettled at 2. cbn [List.filter]. rewrite Hs.
    cbn [length]. lia.
Qed.

Lemma link_file_round_inv type parent md total links i s link :
  In link links ->
  link_file_inv F type parent md total links i s ->
  link_file_inv F type parent md total links (S i)
    (link_file_round F masterKeys type parent md total s link).
Proof.
  intros Hin (Hflag & Hrun & Hstuck & Hall & Hlen).
  assert (Hstop : forall s', sl_arm s' = sl_arm s -> sl_stopped s' = true ->
                             sl_stopped s = false ->
                             link_file_inv F type parent md total links (S i) s').
  { intros s' Harm Hs' Hs. unfold link_file_inv. rewrite Harm, Hs'.
    repeat apply conj; [exact Hflag | discriminate | | exact Hall | lia].
    intros _. rewrite (Hrun Hs). lia. }
  assert (Htick : forall s', sl_arm s' = arm_tick total (sl_arm s) ->
                             sl_stopped s' = false -> sl_stopped s = false ->
                             link_file_inv F type parent md total links (S i) s').
  { intros s' Harm Hs' Hs. unfold link_file_inv. rewrite Harm, Hs'.
    repeat apply conj;
      [apply flag_by_count_tick, Hflag | | discriminate | exact Hall
      | cbn [arm_tick arm_requests]; lia].
    intros _. cbn [arm_tick arm_count arm_requests]. rewrite <- (Hrun Hs). lia. }
  unfold link_file_round.
  destruct (sl_stopped s) eqn:Hs.
  { unfold link_file_inv. rewrite Hs.
    repeat apply conj; [exact Hflag | discriminate | | exact Hall | lia].
    intros _. specialize (Hstuck eq_refl). lia. }
  set (key := fun d : Outcome JSValue =>
                match d with Resolved v => v | _ => sl_key s end).
  assert (Hsettled :
            forall d,
              link_file_inv F type parent md total links (S i)
                match key d with
                | Some (JStr k) =>
                    if negb (k =? "") then
                      match encryptMetadata (metadata_text md) (Some (JStr k)) with
                      | Pending =>
                          {| sl_arm := sl_arm s; sl_key := key d;
                             sl_encrypted := sl_encrypted s; sl_stopped := true |}
                      | enc =>
                          let encrypted :=
                            match enc with
                            | Resolved e => Some (JStr e)
                            | _ => sl_encrypted s
                            end in
                          {| sl_arm :=
                               match encrypted with
                               | Some (JStr e) =>
                                   if negb (e =? "") then
                                     send_and_tick (addItemToPublicLink_outcome F) total
                                       (link_file_request type parent md link e) (sl_arm s)
                                   else arm_tick total (sl_arm s)
                               | _ => arm_tick total (sl_arm s)
                               end;
                             sl_key := key d; sl_encrypted := encrypted;
                             sl_stopped := false |}
                      end
                    else
                      {| sl_arm := arm_tick total (sl_arm s); sl_key := key d;
                         sl_encrypted := sl_encrypted s; sl_stopped := false |}
                | _ =>
                    {| sl_arm := arm_tick total (sl_arm s); sl_key := key d;
                       sl_encrypted := sl_encrypted s; sl_stopped := false |}
                end).
  { intros d.
    assert (Hsent : forall e k' enc',
               (e =? "") = false ->
               link_file_inv F type parent md total links (S i)
                 {| sl_arm := send_and_tick (addItemToPublicLink_outcome F) total
                                (link_file_request type parent md link e) (sl_arm s);
                    sl_key := k'; sl_encrypted := enc'; sl_stopped := false |}).
    { intros e k' enc' He.
      destruct (send_and_tick_inv (addItemToPublicLink_outcome F) total
                  (fun r => exists link e,
                       In link links /\ e <> ""
                       /\ r = link_file_request type parent md link e)
                  (link_file_request type parent md link e) (sl_arm s) Hflag)
        as (Hf' & Hc' & Ha' & Hreqs); [|exact Hall|].
      { exists link, e. repeat apply conj; [exact Hin | | reflexivity].
        intros ->. discriminate. }
      unfold link_file_inv. cbn [sl_arm sl_stopped].
      repeat apply conj; [exact Hf' | | discriminate | exact Ha' |].
      - intros _. cbv zeta in Hc'. rewrite Hc', (Hrun eq_refl). reflexivity.
      - cbv zeta in Hreqs. rewrite Hreqs, length_app. cbn [length]. lia. }
    destruct (key d) as [[| | |k| |]|]; try (apply Htick; reflexivity).
    destruct (k =? ""); cbn [negb]; [apply Htick; reflexivity|].
    destruct (encryptMetadata (metadata_text md) (Some (JStr k))) as [e | e |].
    - cbv zeta. destruct (e =? "") eqn:He; cbn [negb];
        [apply Htick; reflexivity | apply Hsent, He].
    - cbv zeta. destruct (sl_encrypted s) as [[| | |e'| |]|];
        try (apply Htick; reflexivity).
      destruct (e' =? "") eqn:He; cbn [negb];
        [apply Htick; reflexivity | apply Hsent, He].
    - apply Hstop; reflexivity. }
  destruct (decryptFolderLinkKey F (link_linkKey link) masterKeys) as [v | e |] eqn:Hd.
  - apply (Hsettled (Resolved v)).
  - apply (Hsettled (Rejected e)).
  - apply Hstop; [reflexivity | reflexivity | reflexivity].
Qed.

Lemma link_file_rounds_inv type parent md total links ls : forall i s,
  (forall l, In l ls -> In l links) ->
  link_file_inv F type parent md total links i s ->
  link_file_inv F type parent md total links (i + length ls)
    (fold_left (link_file_round F masterKeys type parent md total) ls s).
Proof.
  induction ls as [|l ls IH]; intros i s Hsub Hinv; cbn [fold_left length].
  - rewrite Nat.add_0_r. exact Hinv.
  - replace (i + S (length ls))%nat with (S i + length ls)%nat by lia.
    apply IH; [intros l' Hl'; apply Hsub; right; exact Hl'|].
    apply link_file_round_inv; [apply Hsub; left; reflexivity | exact Hinv].
Qed.

Lemma link_file_loop_inv type parent md ls :
  link_file_inv F type parent md (length ls) ls (length ls)
    (link_file_loop F masterKeys type parent md ls).
Proof.
  unfold link_file_loop.
  apply (link_file_rounds_inv type parent md (length ls) ls ls 0); [auto|].
  unfold link_file_inv, flag_by_count. cbn.
  repeat apply conj; [reflexivity | reflexivity | discriminate | constructor | lia].
Qed.

(** As long as no awaited promise stays pending, the loop runs on. *)
Lemma link_file_round_runs type parent md total s link :
  sl_stopped s = false ->
  decryptFolderLinkKey F (link_linkKey link) masterKeys <> Pending ->
  (forall k, encryptMetadata (metadata_text md) k <> Pending) ->
  sl_stopped (link_file_round F masterKeys type parent md total s link) = false.
Proof.
  intros Hs Hd He. unfold link_file_round. rewrite Hs.
  destruct (decryptFolderLinkKey F (link_linkKey link) masterKeys) as [v | e |];
    [| | congruence].
  - destruct v as [[| | |k| |]|]; try reflexivity.
    destruct (k =? ""); cbn [negb]; [reflexivity|].
    specialize (He (Some (JStr k))).
    destruct (encryptMetadata (metadata_text md) (Some (JStr k)));
      [reflexivity | reflexivity | congruence].
  - destruct (sl_key s) as [[| | |k| |]|]; try reflexivity.
    destruct (k =? ""); cbn [negb]; [reflexivity|].
    specialize (He (Some (JStr k))).
    destruct (encryptMetadata (metadata_text md) (Some (JStr k)));
      [reflexivity | reflexivity | congruence].
Qed.

Lemma link_file_rounds_run type parent md total ls : forall s,
  sl_stopped s = false ->
  (forall l, In l ls -> decryptFolderLinkKey F (link_linkKey l) masterKeys <> Pending) ->
  (forall k, encryptMetadata (metadata_text md) k <> Pending) ->
  sl_stopped (fold_left (link_file_round F masterKeys type parent md total) ls s) = false.
Proof.
  induction ls as [|l ls IH]; intros s Hs Hd He; cbn [fold_left]; [exact Hs|].
  apply IH; [|intros l' Hl'; apply Hd; right; exact Hl' | exact He].
  apply link_file_round_runs; [exact Hs | apply Hd; left; reflexivity | exact He].
Qed.

Lemma unsettled_none {R} (settles : R -> Outcome unit) rs :
  unsettled settles rs = 0%nat <-> Forall (fun r => settles r <> Pending) rs.
Proof.
  unfold unsettled. induction rs as [|r rs IH]; cbn [List.filter].
  - split; [constructor | reflexivity].
  - destruct (settles r) eqn:Hr; cbn [length].
    + rewrite IH. split; [intros Hall; constructor; [congruence | exact Hall]|].
      intros Hall. inversion Hall; assumption.
    + rewrite IH. split; [intros Hall; constructor; [congruence | exact Hall]|].
      intros Hall. inversion Hall; assumption.
    + split; [discriminate|]. intros Hall. inversion Hall; congruence.
Qed.

(** X12. A file under a shared and linked parent. With the awaited
    decryptions and encryptions settling, [checkIfItemParentIsShared]
    resolves exactly when there is a recipient and a link, every chain
    started for a recipient ends, and every [addItemToPublicLink] call
    settles; otherwise it stays pending, and never rejects. One
    [shareItem] call goes out per recipient whose encryption resolves;
    at most one [addItemToPublicLink] call goes out per link, each for
    this file under this parent, naming a link of the list with that
    link's own key and a non-empty metadata. *)
Theorem parent_fanout_file_settles :
  forall parent md sdata ldata,
    isSharingFolder_outcome F parent = Resolved sdata ->
    truthy (sh_sharing sdata) = true ->
    isPublicLinkingFolder_outcome F parent = Resolved ldata ->
    truthy (lk_linking ldata) = true ->
    (forall l, In l (lk_links ldata) ->
               decryptFolderLinkKey F (link_linkKey l) masterKeys <> Pending) ->
    (forall k, encryptMetadata (metadata_text md) k <> Pending) ->
    let run := checkIfItemParentIsShared F masterKeys None "file" parent md in
    (fr_outcome run = Resolved (Some (JBool true))
     <-> (sh_users sdata <> []
          /\ Forall (fun u => share_file_settles F "file" parent md u = true)
               (sh_users sdata))
         /\ (lk_links ldata <> []
             /\ Forall (fun r => addItemToPublicLink_outcome F r <> Pending)
                  (arm_requests (fr_link run))))
    /\ (fr_outcome run = Resolved (Some (JBool true)) \/ fr_outcome run = Pending)
    /\ arm_requests (fr_share run)
       = dispatched
           (fun u => encryptMetadataPublicKey F (metadata_text md) (user_publicKey u))
           (share_file_request "file" parent md) (sh_users sdata)
    /\ (length (arm_requests (fr_link run)) <= length (lk_links ldata))%nat
    /\ Forall (fun r => exists link e,
                   In link (lk_links ldata) /\ e <> ""
                   /\ r = link_file_request "file" parent md link e)
         (arm_requests (fr_link run)).
Proof.
  intros parent md sdata ldata Hs Hst Hl Hlt Hdec Henc run. subst run.
  unfold checkIfItemParentIsShared.
  assert (Hshare : share_arm F masterKeys "file" parent md
                   = share_file_loop F "file" parent md (sh_users sdata))
    by (unfold share_arm; rewrite Hs, Hst; reflexivity).
  assert (Hlink : link_arm F masterKeys "file" parent md
                  = sl_arm (link_file_loop F masterKeys "file" parent md (lk_links ldata)))
    by (unfold link_arm; rewrite Hl, Hlt; reflexivity).
  destruct (rendezvous_outcome (share_arm F masterKeys "file" parent md)
              (link_arm F masterKeys "file" parent md)) as [Hiff Hor].
  cbn [rendezvous fr_share fr_link] in *.
  rewrite Hshare, Hlink in *. clear Hshare Hlink.
  destruct (link_file_loop_inv "file" parent md (lk_links ldata))
    as (Hflag & Hrun & _ & Hall & Hlen).
  assert (Hgo : sl_stopped (link_file_loop F masterKeys "file" parent md (lk_links ldata))
                = false)
    by (apply link_file_rounds_run; [reflexivity | exact Hdec | exact Henc]).
  specialize (Hrun Hgo).
  set (arm := sl_arm (link_file_loop F masterKeys "file" parent md (lk_links ldata))) in *.
  split; [|split; [|split; [|split]]].
  - rewrite Hiff, share_file_loop_eq.
    rewrite (tick_loop_done (shareItem_outcome F)
               (fun u => encryptMetadataPublicKey F (metadata_text md) (user_publicKey u))
               (share_file_request "file" parent md) (sh_users sdata)).
    rewrite <- unsettled_none. unfold flag_by_count in Hflag. rewrite Hflag.
    assert (Hdone : (0 <? arm_count arm)%nat && (length (lk_links ldata) <=? arm_count arm)%nat
                    = true
                    <-> lk_links ldata <> []
                        /\ unsettled (addItemToPublicLink_outcome F) (arm_requests arm)
                           = 0%nat).
    { destruct (Nat.ltb_spec 0 (arm_count arm));
        destruct (Nat.leb_spec (length (lk_links ldata)) (arm_count arm)); cbn.
      - split; [|reflexivity]. intros _. split; [|lia].
        intros Hnil. rewrite Hnil in *. cbn in *. lia.
      - split; [discriminate|]. intros [_ Hu]. lia.
      - split; [discriminate|]. intros [Hne Hu].
        destruct (lk_links ldata); [congruence | cbn in *; lia].
      - split; [discriminate|]. intros [_ Hu]. lia. }
    rewrite Hdone. apply iff_refl.
  - exact Hor.
  - rewrite share_file_loop_eq.
    apply (tick_loop (shareItem_outcome F) (length (sh_users sdata))
             (fun u => encryptMetadataPublicKey F (metadata_text md) (user_publicKey u))
             (share_file_request "file" parent md) (sh_users sdata) arm_idle).
  - exact Hlen.
  - exact Hall.
Qed.

Lemma send_and_tick_requests {R} (settles : R -> Outcome unit) total r (st : Arm R) :
  arm_requests (send_and_tick settles total r st) = arm_requests st ++ [r].
Proof. unfold send_and_tick. destruct (settles r); reflexivity. Qed.

(** A round of the loop over the links of a file adds at most a call. *)
Lemma link_file_round_extends type parent md total s link :
  exists extra,
    arm_requests (sl_arm (link_file_round F masterKeys type parent md total s link))
    = arm_requests (sl_arm s) ++ extra.
Proof.
  unfold link_file_round.
  assert (Hsame : exists extra, arm_requests (sl_arm s) = arm_requests (sl_arm s) ++ extra)
    by (exists []; rewrite app_nil_r; reflexivity).
  destruct (sl_stopped s); [exact Hsame|].
  assert (Hkey : forall key : JSValue,
             exists extra,
               arm_requests
                 (sl_arm
                    match key with
                    | Some (JStr k) =>
                        if negb (k =? "") then
                          match encryptMetadata (metadata_text md) (Some (JStr k)) with
                          | Pending =>
                              {| sl_arm := sl_arm s; sl_key := key;
                                 sl_encrypted := sl_encrypted s; sl_stopped := true |}
                          | enc =>
                              let encrypted :=
                                match enc with
                                | Resolved e => Some (JStr e)
                                | _ => sl_encrypted s
                                end in
                              {| sl_arm :=
                                   match encrypted with
                                   | Some (JStr e) =>
                                       if negb (e =? "") then
                                         send_and_tick (addItemToPublicLink_outcome F) total
                                           (link_file_request type parent md link e)
                                           (sl_arm s)
                                       else arm_tick total (sl_arm s)
                                   | _ => arm_tick total (sl_arm s)
                                   end;
                                 sl_key := key; sl_encrypted := encrypted;
                                 sl_stopped := false |}
                          end
                        else
                          {| sl_arm := arm_tick total (sl_arm s); sl_key := key;
                             sl_encrypted := sl_encrypted s; sl_stopped := false |}
                    | _ =>
                        {| sl_arm := arm_tick total (sl_arm s); sl_key := key;
                           sl_encrypted := sl_encrypted s; sl_stopped := false |}
                    end)
               = arm_requests (sl_arm s) ++ extra).
  { intros key.
    destruct key as [[| | |k| |]|]; try exact Hsame.
    destruct (negb (k =? "")); [|exact Hsame].
    destruct (encryptMetadata (metadata_text md) (Some (JStr k))) as [e | e |];
      cbv zeta; cbn [sl_arm]; [| |exact Hsame].
    - destruct (negb (e =? "")); [|exact Hsame].
      eexists. apply send_and_tick_requests.
    - destruct (sl_encrypted s) as [[| | |e'| |]|]; try exact Hsame.
      destruct (negb (e' =? "")); [|exact Hsame].
      eexists. apply send_and_tick_requests. }
  destruct (decryptFolderLinkKey F (link_linkKey link) masterKeys) as [v | e |].
  - apply (Hkey v).
  - apply (Hkey (sl_key s)).
  - exact Hsame.
Qed.

Lemma link_file_rounds_extend type parent md total ls : forall s r,
  In r (arm_requests (sl_arm s)) ->
  In r (arm_requests
          (sl_arm (fold_left (link_file_round F masterKeys type parent md total) ls s))).
Proof.
  induction ls as [|l ls IH]; intros s r Hr; cbn [fold_left]; [exact Hr|].
  apply IH.
  destruct (link_file_round_extends type parent md total s l) as [extra ->].
  apply in_or_app. left. exact Hr.
Qed.

(** A round that finds a usable key, its own or the one left by an
    earlier round, and encrypts under it. *)
Lemma link_file_round_sends type parent md total s link k enc :
  sl_stopped s = false ->
  (decryptFolderLinkKey F (link_linkKey link) masterKeys = Resolved (Some (JStr k))
   \/ (exists e, decryptFolderLinkKey F (link_linkKey link) masterKeys = Rejected e)
      /\ sl_key s = Some (JStr k)) ->
  k <> "" ->
  encryptMetadata (metadata_text md) (Some (JStr k)) = Resolved enc ->
  enc <> "" ->
  let s' := link_file_round F masterKeys type parent md total s link in
  sl_stopped s' = false
  /\ sl_key s' = Some (JStr k)
  /\ In (link_file_request type parent md link enc) (arm_requests (sl_arm s')).
Proof.
  intros Hs Hkey Hk Henc He. cbv zeta. unfold link_file_round. rewrite Hs.
  apply String.eqb_neq in Hk. apply String.eqb_neq in He.
  destruct Hkey as [Hd | [[e Hd] Hstale]]; rewrite Hd; cbv zeta;
    rewrite ?Hstale, Hk; cbn [negb]; rewrite Henc, He; cbn [negb sl_arm sl_key sl_stopped];
    (repeat apply conj; [reflexivity | reflexivity |]);
    rewrite send_and_tick_requests; apply in_or_app; right; left; reflexivity.
Qed.

(** X13. A stale link key is used. In the loop over the links of a
    file, [key] is a [var] assigned inside a [try] block. When the key
    of a link cannot be decrypted, the round goes on with the key of the
    link before it: the metadata sent for that link is the one
    encrypted under the other link's key. *)
Theorem stale_link_key_is_used :
  forall type parent md pre l1 l2 post k e enc,
    (forall l, In l pre ->
               decryptFolderLinkKey F (link_linkKey l) masterKeys <> Pending) ->
    (forall key, encryptMetadata (metadata_text md) key <> Pending) ->
    decryptFolderLinkKey F (link_linkKey l1) masterKeys = Resolved (Some (JStr k)) ->
    k <> "" ->
    encryptMetadata (metadata_text md) (Some (JStr k)) = Resolved enc ->
    enc <> "" ->
    decryptFolderLinkKey F (link_linkKey l2) masterKeys = Rejected e ->
    let arm := sl_arm (link_file_loop F masterKeys type parent md
                         (pre ++ l1 :: l2 :: post)) in
    In (link_file_request type parent md l1 enc) (arm_requests arm)
    /\ In (link_file_request type parent md l2 enc) (arm_requests arm).
Proof.
  intros type parent md pre l1 l2 post k e enc Hpre Hall Hd1 Hk Henc He Hd2 arm.
  subst arm. unfold link_file_loop. rewrite fold_left_app. cbn [fold_left].
  set (total := length (pre ++ l1 :: l2 :: post)).
  set (s1 := fold_left (link_file_round F masterKeys type parent md total) pre _).
  assert (Hs1 : sl_stopped s1 = false)
    by (apply link_file_rounds_run; [reflexivity | exact Hpre | exact Hall]).
  destruct (link_file_round_sends type parent md total s1 l1 k enc Hs1
              (or_introl Hd1) Hk Henc He) as (Hs2 & Hkey2 & Hin1).
  set (s2 := link_file_round F masterKeys type parent md total s1 l1) in *.
  destruct (link_file_round_sends type parent md total s2 l2 k enc Hs2
              (or_intror (conj (ex_intro _ e Hd2) Hkey2)) Hk Henc He)
    as (_ & _ & Hin2).
  split; apply link_file_rounds_extend; [|exact Hin2].
  destruct (link_file_round_extends type parent md total s2 l2) as [extra ->].
  apply in_or_app. left. exact Hin1.
Qed.

(** *** The entries of a folder can all be serialized *)

Lemma file_item_has_text f it :
  file_item masterKeys f = inr (Some it) -> item_has_text it.
Proof.
  unfold file_item. intros Hf.
  repeat match type of Hf with
         | context [match ?x with _ => _ end] => destruct x eqn:?; try discriminate
         end.
  injection Hf as <-. unfold item_has_text, item_text.
  cbn [it_type it_metadata]. cbn. eexists. reflexivity.
Qed.

Lemma files_loop_has_text files : forall acc acc',
  Forall item_has_text acc ->
  files_loop masterKeys files acc = inr acc' ->
  Forall item_has_text acc' /\ exists more, acc' = acc ++ more.
Proof.
  induction files as [|f rest IH]; intros acc acc' Hacc Hrun; cbn [files_loop] in Hrun.
  - injection Hrun as <-. split; [exact Hacc | exists []; symmetry; apply app_nil_r].
  - destruct (file_item masterKeys f) as [e | [it|]] eqn:Hf; [discriminate | |].
    + destruct (IH (acc ++ [it]) acc') as [Hall [more ->]]; [|exact Hrun|].
      * apply Forall_app. split; [exact Hacc|].
        constructor; [apply (file_item_has_text f it Hf) | constructor].
      * split; [exact Hall|]. exists (it :: more). rewrite <- app_assoc. reflexivity.
    + apply IH; assumption.
Qed.

Lemma folders_loop_has_text uuid folders : forall i decrypted acc,
  Forall item_has_text acc ->
  Forall item_has_text (folders_loop masterKeys uuid i folders decrypted acc)
  /\ exists more, folders_loop masterKeys uuid i folders decrypted acc = acc ++ more.
Proof.
  induction folders as [|d rest IH]; intros i decrypted acc Hacc; cbn [folders_loop].
  - split; [exact Hacc | exists []; symmetry; apply app_nil_r].
  - set (decrypted' := folder_decrypted masterKeys d decrypted).
    assert (Hpush : Forall item_has_text (folder_push uuid i d decrypted' acc)
                    /\ exists more, folder_push uuid i d decrypted' acc = acc ++ more).
    { unfold folder_push.
      assert (Hsame : Forall item_has_text acc /\ exists more, acc = acc ++ more)
        by (split; [exact Hacc | exists []; symmetry; apply app_nil_r]).
      destruct decrypted' as [[| | |s| |]|]; try exact Hsame.
      destruct (negb (s =? "")); [|exact Hsame].
      destruct (negb (fo_uuid d =? uuid) && negb (fo_parent d =? "base")); [|exact Hsame].
      split; [|eexists; reflexivity].
      apply Forall_app. split; [exact Hacc|].
      constructor; [|constructor]. eexists. reflexivity. }
    destruct Hpush as [Hall [more Hmore]].
    destruct (IH (S i) decrypted' _ Hall) as [Hall' [more' Hmore']].
    split; [exact Hall'|].
    exists (more ++ more'). rewrite Hmore', Hmore, <- app_assoc. reflexivity.
Qed.

Lemma itemsToShare_has_text parent md files folders items :
  itemsToShare masterKeys (md_uuid md) (md_name md) parent files folders = inr items ->
  Forall item_has_text items /\ exists rest, items = folder_itself parent md :: rest.
Proof.
  unfold itemsToShare. intros Hrun.
  destruct (files_loop masterKeys files _) as [e|acc] eqn:Hfiles; [discriminate|].
  injection Hrun as <-.
  destruct (files_loop_has_text files [folder_itself parent md] acc)
    as [Hall [more ->]]; [|exact Hfiles|].
  { constructor; [eexists; reflexivity | constructor]. }
  destruct (folders_loop_has_text (md_uuid md) folders 0 None _ Hall)
    as [Hall' [more' Hmore']].
  rewrite Hmore' in Hall' |- *.
  split; [exact Hall'|]. eexists. reflexivity.
Qed.

(** *** The share side for a folder *)

Lemma share_pairs_loop_fold total pairs : forall st,
  Forall (fun p => item_has_text (fst p)) pairs ->
  share_pairs_loop F total pairs st
  = fold_left
      (fun st p =>
         dispatch (shareItem_outcome F) total (share_item_encrypted F p)
           (share_item_request (fst p) (snd p)) st)
      pairs st.
Proof.
  induction pairs as [|[it u] rest IH]; intros st Hall; [reflexivity|].
  inversion Hall as [|p l [text Ht] Hrest]; subst.
  cbn [share_pairs_loop fold_left fst snd] in *.
  unfold share_item_encrypted at 2, item_text_of. cbn [fst snd].
  rewrite Ht. apply IH, Hrest.
Qed.

Lemma list_prod_has_text {B} (items : list Item) (ys : list B) :
  Forall item_has_text items ->
  Forall (fun p => item_has_text (fst p)) (list_prod items ys).
Proof.
  intros Hall. apply List.Forall_forall. intros [it y] Hin.
  apply in_prod_iff in Hin as [Hit _].
  cbn [fst]. revert it Hit. apply List.Forall_forall. exact Hall.
Qed.

(** X14. A folder under a shared parent. Once the contents of the
    folder are listed, the share side encrypts the metadata of every
    entry for every recipient, entry by entry, and calls [shareItem]
    for each encryption that resolves: with all of them resolving,
    entries times recipients calls, the first of them for the folder
    itself. Its flag is set exactly when there is a recipient and all
    these chains come to an end. *)
Theorem parent_fanout_folder_share :
  forall type parent md sdata contents items,
    (type =? "file") = false ->
    isSharingFolder_outcome F parent = Resolved sdata ->
    truthy (sh_sharing sdata) = true ->
    getFolderContents_outcome F (md_uuid md) = Resolved contents ->
    itemsToShare masterKeys (md_uuid md) (md_name md) parent
      (ct_files contents) (ct_folders contents) = inr items ->
    let arm := share_arm F masterKeys type parent md in
    let pairs := list_prod items (sh_users sdata) in
    arm_requests arm
    = dispatched (share_item_encrypted F)
        (fun p => share_item_request (fst p) (snd p)) pairs
    /\ (arm_done arm = true
        <-> sh_users sdata <> []
            /\ Forall (fun p => share_item_settles F p = true) pairs)
    /\ ((forall p, In p pairs -> is_resolved (share_item_encrypted F p) = true) ->
        length (arm_requests arm) = (length items * length (sh_users sdata))%nat)
    /\ exists rest, items = folder_itself parent md :: rest.
Proof.
  intros type parent md sdata contents items Htype Hs Hst Hc Hitems arm pairs.
  destruct (itemsToShare_has_text parent md _ _ items Hitems) as [Htexts [rest Hrest]].
  assert (Harm : arm
                 = fold_left
                     (fun st p =>
                        dispatch (shareItem_outcome F) (length pairs)
                          (share_item_encrypted F p)
                          (share_item_request (fst p) (snd p)) st)
                     pairs arm_idle).
  { subst arm. unfold share_arm. rewrite Hs, Hst, Htype, Hc, Hitems. cbn [negb].
    rewrite share_pairs_loop_fold by (apply list_prod_has_text, Htexts).
    subst pairs. rewrite length_prod. reflexivity. }
  destruct (tick_loop (shareItem_outcome F) (length pairs) (share_item_encrypted F)
              (fun p => share_item_request (fst p) (snd p)) pairs arm_idle)
    as (Hreqs & _ & _).
  cbv zeta in Hreqs. rewrite <- Harm in Hreqs. cbn [arm_idle arm_requests app] in Hreqs.
  split; [exact Hreqs | split; [|split; [|exists rest; exact Hrest]]].
  - rewrite Harm.
    rewrite (tick_loop_done (shareItem_outcome F) (share_item_encrypted F)
               (fun p => share_item_request (fst p) (snd p)) pairs).
    assert (Hne : pairs <> [] <-> sh_users sdata <> []).
    { subst pairs. rewrite Hrest. destruct (sh_users sdata) as [|u us].
      - split; [intros Hp _; apply Hp|intros Hu; congruence].
        clear. induction rest; [reflexivity | assumption].
      - split; [discriminate | intros _; discriminate]. }
    rewrite Hne. apply iff_refl.
  - intros Hres. rewrite Hreqs. subst pairs. rewrite <- length_prod.
    generalize dependent (list_prod items (sh_users sdata)). intros l _ _ Hres.
    unfold dispatched. induction l as [|p l IH]; [reflexivity|].
    cbn [flat_map]. rewrite length_app.
    assert (Hp := Hres p (or_introl eq_refl)).
    destruct (share_item_encrypted F p); try discriminate.
    cbn [length]. rewrite IH; [reflexivity|].
    intros q Hq. apply Hres. right. exact Hq.
Qed.

(** *** The link side for a folder *)

Lemma link_item_rounds_stopped total qs : forall s,
  sl_stopped s = true ->
  fold_left (link_item_round F masterKeys total) qs s = s.
Proof.
  induction qs as [|q qs IH]; intros s Hs; [reflexivity|].
  cbn [fold_left]. unfold link_item_round at 2. rewrite Hs. apply IH, Hs.
Qed.

(** A round adds at most one call, for the entry and the link of the
    round. *)
Lemma link_item_round_step total s p :
  exists extra,
    arm_requests (sl_arm (link_item_round F masterKeys total s p))
    = arm_requests (sl_arm s) ++ extra
    /\ (length extra <= 1)%nat
    /\ Forall (fun r => exists enc,
                   enc <> "" /\ r = link_item_request (fst p) (snd p) enc)
         extra.
Proof.
  assert (Hsame : exists extra,
             arm_requests (sl_arm s) = arm_requests (sl_arm s) ++ extra
             /\ (length extra <= 1)%nat
             /\ Forall (fun r => exists enc,
                            enc <> "" /\ r = link_item_request (fst p) (snd p) enc)
                  extra).
  { exists []. rewrite app_nil_r. repeat apply conj; [reflexivity | cbn; lia | constructor]. }
  assert (Hsend : forall enc,
             (enc =? "") = false ->
             exists extra,
               arm_requests
                 (send_and_tick (addItemToPublicLink_outcome F) total
                    (link_item_request (fst p) (snd p) enc) (sl_arm s))
               = arm_requests (sl_arm s) ++ extra
               /\ (length extra <= 1)%nat
               /\ Forall (fun r => exists enc,
                              enc <> "" /\ r = link_item_request (fst p) (snd p) enc)
                    extra).
  { intros enc He. eexists. rewrite send_and_tick_requests.
    repeat apply conj; [reflexivity | cbn; lia |].
    constructor; [|constructor]. exists enc. split; [|reflexivity].
    intros ->. discriminate. }
  unfold link_item_round.
  destruct (sl_stopped s); [exact Hsame|].
  destruct (decryptFolderLinkKey F (link_linkKey (snd p)) masterKeys)
    as [[[| | |k| |]|] | e |]; try exact Hsame.
  destruct (negb (k =? "")); [|exact Hsame].
  destruct (item_text (fst p)) as [e|text]; [exact Hsame|].
  destruct (encryptMetadata text (Some (JStr k))) as [enc | e |];
    cbv zeta; cbn [sl_arm]; [| |exact Hsame].
  - destruct (enc =? "") eqn:He; cbn [negb]; [exact Hsame | apply Hsend, He].
  - destruct (sl_encrypted s) as [[| | |enc| |]|]; try exact Hsame.
    destruct (enc =? "") eqn:He; cbn [negb]; [exact Hsame | apply Hsend, He].
Qed.

Lemma link_item_rounds_requests total qs : forall s,
  exists extra,
    arm_requests (sl_arm (fold_left (link_item_round F masterKeys total) qs s))
    = arm_requests (sl_arm s) ++ extra
    /\ (length extra <= length qs)%nat
    /\ Forall (fun r => exists q enc,
                   In q qs /\ enc <> ""
                   /\ r = link_item_request (fst q) (snd q) enc)
         extra.
Proof.
  induction qs as [|q qs IH]; intros s; cbn [fold_left].
  - exists []. rewrite app_nil_r. repeat apply conj; [reflexivity | cbn; lia | constructor].
  - destruct (IH (link_item_round F masterKeys total s q)) as (extra' & Hr' & Hl' & Ha').
    destruct (link_item_round_step total s q) as (extra & Hr & Hl & Ha).
    exists (extra ++ extra'). rewrite Hr', Hr, <- app_assoc.
    repeat apply conj; [reflexivity | rewrite length_app; cbn [length]; lia |].
    apply Forall_app. split.
    + eapply List.Forall_impl; [|exact Ha].
      intros r (enc & He & ->). exists q, enc.
      repeat apply conj; [left; reflexivity | exact He | reflexivity].
    + eapply List.Forall_impl; [|exact Ha'].
      intros r (q' & enc & Hq' & He & ->). exists q', enc.
      repeat apply conj; [right; exact Hq' | exact He | reflexivity].
Qed.

Lemma link_item_round_runs total s p :
  sl_stopped s = false ->
  (exists v, decryptFolderLinkKey F (link_linkKey (snd p)) masterKeys = Resolved v) ->
  item_has_text (fst p) ->
  (forall text key, encryptMetadata text key <> Pending) ->
  sl_stopped (link_item_round F masterKeys total s p) = false.
Proof.
  intros Hs [v Hd] [text Ht] Henc. unfold link_item_round. rewrite Hs, Hd, Ht.
  destruct v as [[| | |k| |]|]; try reflexivity.
  destruct (negb (k =? "")); [|reflexivity].
  specialize (Henc text (Some (JStr k))).
  destruct (encryptMetadata text (Some (JStr k))); [reflexivity | reflexivity | congruence].
Qed.

Lemma link_item_rounds_run total qs : forall s,
  sl_stopped s = false ->
  (forall q, In q qs ->
             exists v, decryptFolderLinkKey F (link_linkKey (snd q)) masterKeys
                       = Resolved v) ->
  Forall (fun q => item_has_text (fst q)) qs ->
  (forall text key, encryptMetadata text key <> Pending) ->
  sl_stopped (fold_left (link_item_round F masterKeys total) qs s) = false.
Proof.
  induction qs as [|q qs IH]; intros s Hs Hd Ht Henc; cbn [fold_left]; [exact Hs|].
  inversion Ht; subst.
  apply IH; [|intros q' Hq'; apply Hd; right; exact Hq' | assumption | exact Henc].
  apply link_item_round_runs; [exact Hs | apply Hd; left; reflexivity | assumption | exact Henc].
Qed.

(** X15. A folder under a linked parent: a link key that cannot be
    decrypted ends the loop. [key] is awaited outside any [try], so the
    rejection leaves the callback and its [catch] sets [linkCheckDone]:
    the link side counts as done although only the entries and links
    that came before got their call, at most one each. When this is the
    key of the first link, the folder is added to no link at all. *)
Theorem folder_link_ends_at_failed_key :
  forall type parent md ldata contents items pre p post e,
    (type =? "file") = false ->
    isPublicLinkingFolder_outcome F parent = Resolved ldata ->
    truthy (lk_linking ldata) = true ->
    getFolderContents_outcome F (md_uuid md) = Resolved contents ->
    itemsToLink masterKeys (md_uuid md) (md_name md) parent
      (ct_files contents) (ct_folders contents) = inr items ->
    list_prod items (lk_links ldata) = pre ++ p :: post ->
    (forall q, In q pre ->
               exists v, decryptFolderLinkKey F (link_linkKey (snd q)) masterKeys
                         = Resolved v) ->
    (forall text key, encryptMetadata text key <> Pending) ->
    decryptFolderLinkKey F (link_linkKey (snd p)) masterKeys = Rejected e ->
    let arm := link_arm F masterKeys type parent md in
    arm_done arm = true
    /\ (length (arm_requests arm) <= length pre)%nat
    /\ Forall (fun r => exists q enc,
                   In q pre /\ enc <> ""
                   /\ r = link_item_request (fst q) (snd q) enc)
         (arm_requests arm).
Proof.
  intros type parent md ldata contents items pre p post e
         Htype Hl Hlt Hc Hitems Hpairs Hpre Henc Hd arm.
  assert (Htexts : Forall item_has_text items)
    by (apply (itemsToShare_has_text parent md _ _ items Hitems)).
  assert (Hpre_texts : Forall (fun q => item_has_text (fst q)) pre).
  { assert (Hall := list_prod_has_text items (lk_links ldata) Htexts).
    rewrite Hpairs in Hall. apply Forall_app in Hall. apply Hall. }
  subst arm. unfold link_arm. rewrite Hl, Hlt, Htype, Hc, Hitems. cbn [negb].
  rewrite Hpairs, fold_left_app. cbn [fold_left].
  set (total := (length items * length (lk_links ldata))%nat).
  set (init := {| sl_arm := arm_idle; sl_key := None; sl_encrypted := None;
                  sl_stopped := false |}).
  assert (Hs1 : sl_stopped (fold_left (link_item_round F masterKeys total) pre init)
                = false)
    by (apply link_item_rounds_run; [reflexivity | exact Hpre | exact Hpre_texts | exact Henc]).
  destruct (link_item_rounds_requests total pre init) as (extra & Hr & Hlen & Hall).
  remember (fold_left (link_item_round F masterKeys total) pre init) as s1 eqn:Hs1def.
  clear Hs1def. cbn [init sl_arm arm_idle arm_requests app] in Hr.
  assert (Hround : link_item_round F masterKeys total s1 p
                   = {| sl_arm := arm_finish (sl_arm s1); sl_key := sl_key s1;
                        sl_encrypted := sl_encrypted s1; sl_stopped := true |})
    by (unfold link_item_round; rewrite Hs1, Hd; reflexivity).
  rewrite Hround, link_item_rounds_stopped by reflexivity.
  cbn [sl_arm arm_finish arm_done arm_requests]. rewrite Hr.
  repeat apply conj; [reflexivity | exact Hlen | exact Hall].
Qed.

End FanoutFacts.

(** ** createFolder behind its semaphore *)

Section CallMore.
Context `{Runtime} `{Crypto} `{Constants}.
Variable env : Env.

(** X16. A propagation that never settles blocks folder creation. When
    the folder was created but [checkIfItemParentIsShared] stays
    pending, [createFolder] stays pending as well and never gives its
    permit back: with the one permit taken, every later call of
    [createFolder], whatever its arguments, waits in [acquire] and
    sends nothing. *)
Theorem createFolder_blocked_by_hanging_propagation :
  forall uuid name parent w w1 response status,
    permits w = 1%Z ->
    createFolder_response env uuid name parent (acquired w) = (w1, Resolved response) ->
    get response "status" = inr status ->
    truthy status = true ->
    shared_outcome env "folder" parent (JObj [("uuid", JStr uuid); ("name", JStr name)])
    = Pending ->
    let r := createFolder env uuid name parent w in
    snd r = Pending
    /\ permits (fst r) = 0%Z
    /\ count_releases (log (fst r)) = count_releases (log w)
    /\ forall env' uuid' name' parent',
         createFolder env' uuid' name' parent' (fst r) = (fst r, Pending).
Proof.
  intros uuid name parent w w1 response status Hperm Hresp Hget Hstatus Hhang r.
  assert (Hacq : acquire w = (acquired w, Resolved tt)).
  { unfold acquire.
    replace (0 <? permits w)%Z with true by (rewrite Hperm; reflexivity).
    reflexivity. }
  assert (Hr : r = ({| db := db w1; permits := permits w1;
                       log := log w1 ++ [EvShared "folder" parent
                                           (JObj [("uuid", JStr uuid);
                                                  ("name", JStr name)])] |},
                    Pending)).
  { subst r. unfold createFolder. rewrite (bind_resolved _ _ _ _ _ Hacq).
    unfold try_catch. rewrite (bind_resolved _ _ _ _ _ Hresp).
    unfold bind at 1. unfold lift at 1. rewrite Hget. unfold ret at 1.
    rewrite Hstatus. cbn [negb].
    unfold call_checkIfItemParentIsShared, bind, emit, await. rewrite Hhang.
    reflexivity. }
  destruct (createFolder_response_quiet env _ _ _ _ _ _ Hresp)
    as (Hpermits & _ & es & Hlog & Hes).
  rewrite Hr. cbn [fst snd permits log].
  assert (Hzero : permits w1 = 0%Z)
    by (rewrite Hpermits; unfold acquired; cbn [permits]; lia).
  repeat apply conj.
  - reflexivity.
  - exact Hzero.
  - rewrite Hlog. unfold acquired. cbn [log].
    rewrite !count_releases_app, (quiet_events_no_release _ Hes).
    unfold count_releases. cbn. lia.
  - intros env' uuid' name' parent'. unfold createFolder, bind, acquire.
    cbn [permits]. rewrite Hzero. reflexivity.
Qed.

End CallMore.

(** ** Move and rename: the propagation comes last *)

Section MutationsMore.
Context `{Runtime} `{Crypto} `{Constants}.
Variable env : Env.

Lemma swallow_not_found_tail codes response onSuccess w1 w' o :
  swallow_not_found codes response onSuccess w1 = (w', o) ->
  w' = w1 \/ onSuccess w1 = (w', o).
Proof.
  unfold swallow_not_found, bind, lift, ret, throw.
  destruct (get response "status") as [e|status]; [intros [= <- _]; left; reflexivity|].
  destruct (negb (truthy status)); [|intros Hk; right; exact Hk].
  destruct (get response "code") as [e|code]; [intros [= <- _]; left; reflexivity|].
  destruct (includes codes code); [intros [= <- _]; left; reflexivity|].
  destruct (get response "message"); intros [= <- _]; left; reflexivity.
Qed.

(** A response obtained from [apiRequest], decided by
    [swallow_not_found], with a propagation on success. *)
Lemma decided_after_request (c : M JSValue) codes (onSuccess : M unit) ev propagated
      w w' o :
  (forall w1 o1,
      c w = (w1, o1) ->
      (w1 = w /\ forall v, o1 <> Resolved v)
      \/ exists method endpoint data,
           apiRequest env method endpoint data None false w = (w1, o1)) ->
  (forall w1, onSuccess w1
              = ({| db := db w1; permits := permits w1; log := log w1 ++ [ev] |},
                 propagated)) ->
  bind c (fun response => swallow_not_found codes response onSuccess) w = (w', o) ->
  ends_with_propagation w w' o ev propagated.
Proof.
  intros Hc Hsuccess Hrun.
  assert (Hnothing : ends_with_propagation w w o ev propagated).
  { repeat apply conj; try reflexivity. exists [], [].
    cbn [map app]. rewrite app_nil_r. split; [reflexivity | left; reflexivity]. }
  apply bind_inv in Hrun as [(w1 & response & Hresp & Hk) | [(e & Hresp & ->) | [Hresp ->]]].
  - destruct (Hc _ _ Hresp) as [[_ Hno] | (method & endpoint & data & Hreq)];
      [exfalso; apply (Hno response); reflexivity|].
    destruct (apiRequest_run env _ _ _ _ _ _ _ _ Hreq)
      as (Hdb & Hpermits & rs & tail & Hlog & _ & _ & Htail).
    destruct Htail as [-> | (_ & Ho & _)]; [|discriminate].
    rewrite app_nil_r in Hlog.
    apply swallow_not_found_tail in Hk as [-> | Hk].
    + repeat apply conj; [exact Hdb | exact Hpermits |].
      exists rs, []. rewrite app_nil_r. split; [exact Hlog | left; reflexivity].
    + rewrite Hsuccess in Hk. injection Hk as <- <-. cbn [db permits log].
      repeat apply conj; [exact Hdb | exact Hpermits |].
      exists rs, [ev]. rewrite Hlog, <- app_assoc.
      split; [reflexivity | right; right; split; reflexivity].
  - destruct (Hc _ _ Hresp) as [[-> _] | (method & endpoint & data & Hreq)];
      [exact Hnothing|].
    destruct (apiRequest_run env _ _ _ _ _ _ _ _ Hreq)
      as (Hdb & Hpermits & rs & tail & Hlog & _ & _ & Htail).
    repeat apply conj; [exact Hdb | exact Hpermits |].
    exists rs, tail. split; [exact Hlog|].
    destruct Htail as [-> | (-> & Ho & _)];
      [left; reflexivity | right; left; split; [reflexivity | congruence]].
  - destruct (Hc _ _ Hresp) as [[-> _] | (method & endpoint & data & Hreq)];
      [exact Hnothing|].
    destruct (apiRequest_run env _ _ _ _ _ _ _ _ Hreq)
      as (Hdb & Hpermits & rs & tail & Hlog & _ & _ & Htail).
    destruct Htail as [-> | (_ & Ho & _)]; [|discriminate].
    repeat apply conj; [exact Hdb | exact Hpermits |].
    exists rs, []. split; [exact Hlog | left; reflexivity].
Qed.

Lemma direct_request method endpoint data w w1 o1 :
  apiRequest env method endpoint data None false w = (w1, o1) ->
  (w1 = w /\ forall v, o1 <> Resolved v)
  \/ exists method endpoint data,
       apiRequest env method endpoint data None false w = (w1, o1).
Proof. intros Hreq. right. exists method, endpoint, data. exact Hreq. Qed.

(** The store read, the encryptions: nothing is logged before the
    request of a rename. *)
Lemma renameFile_response_request file name w w1 o1 :
  renameFile_response env file name w = (w1, o1) ->
  (w1 = w /\ forall v, o1 <> Resolved v)
  \/ exists method endpoint data,
       apiRequest env method endpoint data None false w = (w1, o1).
Proof.
  unfold renameFile_response. intros Hrun.
  apply bind_inv in Hrun as [(w2 & mk & Hdb & Hrun) | [(e & Hdb & ->) | [Hdb ->]]];
    unfold db_get in Hdb; destruct (db_get_fault env "masterKeys");
    try discriminate; injection Hdb as <- ?; subst;
    try (left; split; [reflexivity | discriminate]).
  apply bind_inv in Hrun as [(w2 & key & Hkey & Hrun) | [(e & Hkey & ->) | [Hkey ->]]];
    unfold lift, ret, throw in Hkey; destruct (last_element (db w !! "masterKeys"));
    try discriminate; injection Hkey as <- ?; subst;
    try (left; split; [reflexivity | discriminate]).
  apply bind_inv in Hrun as [(w2 & pair & Hpair & Hrun) | [(e & Hpair & ->) | [Hpair ->]]];
    unfold await in Hpair; injection Hpair as <- ?;
    try (left; split; [reflexivity | discriminate]).
  right. eexists _, _, _. exact Hrun.
Qed.

Lemma renameFolder_response_request folder name w w1 o1 :
  renameFolder_response env folder name w = (w1, o1) ->
  (w1 = w /\ forall v, o1 <> Resolved v)
  \/ exists method endpoint data,
       apiRequest env method endpoint data None false w = (w1, o1).
Proof.
  unfold renameFolder_response. intros Hrun.
  apply bind_inv in Hrun as [(w2 & mk & Hdb & Hrun) | [(e & Hdb & ->) | [Hdb ->]]];
    unfold db_get in Hdb; destruct (db_get_fault env "masterKeys");
    try discriminate; injection Hdb as <- ?; subst;
    try (left; split; [reflexivity | discriminate]).
  apply bind_inv in Hrun as [(w2 & key & Hkey & Hrun) | [(e & Hkey & ->) | [Hkey ->]]];
    unfold lift, ret, throw in Hkey; destruct (last_element (db w !! "masterKeys"));
    try discriminate; injection Hkey as <- ?; subst;
    try (left; split; [reflexivity | discriminate]).
  apply bind_inv in Hrun as [(w2 & enc & Henc & Hrun) | [(e & Henc & ->) | [Henc ->]]];
    unfold await in Henc; injection Henc as <- ?;
    try (left; split; [reflexivity | discriminate]).
  right. eexists _, _, _. exact Hrun.
Qed.

(** X17. The propagation comes last and decides. [moveFile],
    [moveFolder], [renameFile] and [renameFolder] leave the store and
    the semaphore alone and log their requests first; after them comes
    nothing, or a [logout] with the error "Session invalidated", or the
    one propagation call for the item, and then the call settles as
    the propagation does: pending while it is pending, rejected when it
    rejects. *)
Theorem mutations_end_with_propagation :
  (forall file parent w w' o,
      moveFile env file parent w = (w', o) ->
      let md := JObj (("uuid", JStr (file_uuid file)) :: file_fields (file_name file) file) in
      ends_with_propagation w w' o (EvShared "file" parent md)
        (shared_outcome env "file" parent md))
  /\ (forall folder parent w w' o,
         moveFolder env folder parent w = (w', o) ->
         let md := JObj [ ("name", JStr (folder_name folder));
                          ("uuid", JStr (folder_uuid folder)) ] in
         ends_with_propagation w w' o (EvShared "folder" parent md)
           (shared_outcome env "folder" parent md))
  /\ (forall file name w w' o,
         renameFile env file name w = (w', o) ->
         let md := JObj (file_fields name file) in
         ends_with_propagation w w' o (EvSharedForRename "file" (file_uuid file) md)
           (shared_for_rename_outcome env "file" (file_uuid file) md))
  /\ (forall folder name w w' o,
         renameFolder env folder name w = (w', o) ->
         let md := JObj [("name", JStr name)] in
         ends_with_propagation w w' o
           (EvSharedForRename "folder" (folder_uuid folder) md)
           (shared_for_rename_outcome env "folder" (folder_uuid folder) md)).
Proof.
  repeat apply conj.
  - intros file parent w w' o Hrun md. unfold moveFile in Hrun.
    eapply decided_after_request; [| |exact Hrun].
    + intros w1 o1. unfold moveFile_response. apply direct_request.
    + intros w1. reflexivity.
  - intros folder parent w w' o Hrun md. unfold moveFolder in Hrun.
    eapply decided_after_request; [| |exact Hrun].
    + intros w1 o1. unfold moveFolder_response. apply direct_request.
    + intros w1. reflexivity.
  - intros file name w w' o Hrun md. unfold renameFile in Hrun.
    eapply decided_after_request; [| |exact Hrun].
    + intros w1 o1. apply renameFile_response_request.
    + intros w1. reflexivity.
  - intros folder name w w' o Hrun md. unfold renameFolder in Hrun.
    eapply decided_after_request; [| |exact Hrun].
    + intros w1 o1. apply renameFolder_response_request.
    + intros w1. reflexivity.
Qed.

End MutationsMore.

(** ** Credentials of the transfers *)

Section TransferCredentials.
Context `{Runtime} `{Crypto} `{Constants}.

(** X18. Credentials of the two transfers. Every request of
    [uploadChunk] is a POST of the chunk that carries the bearer token
    made from the API key as it was in the store when the call started:
    a key written while the upload waits at its gate or between two
    attempts is not picked up. No request of [downloadChunk] carries an
    [Authorization] or a [Checksum] header, or a body. *)
Theorem transfer_credentials :
  (forall a fault store locs inputs r,
      In r (sent (x_loop (uploadChunk a fault store locs inputs))) ->
      rq_method r = "POST"
      /\ rq_body r = Some (Bytes (up_data a))
      /\ header "Authorization" (rq_headers r)
         = Some ("Bearer " +:+ ToString (store !! "apiKey")))
  /\ (forall a fault store locs inputs r,
         In r (sent (x_loop (downloadChunk a fault store locs inputs))) ->
         rq_method r = "GET"
         /\ rq_body r = None
         /\ header "Authorization" (rq_headers r) = None
         /\ header "Checksum" (rq_headers r) = None).
Proof.
  split.
  - intros a fault store locs inputs r Hin.
    destruct (uploadChunk_inv a fault store locs inputs) as (_ & _ & Hall).
    rewrite List.Forall_forall in Hall.
    destruct (Hall r Hin) as (chunkHash & _ & checksum & _ & ->).
    repeat apply conj; reflexivity.
  - intros a fault store locs inputs r Hin.
    destruct (downloadChunk_inv a fault store locs inputs) as (_ & _ & Hall).
    rewrite List.Forall_forall in Hall. rewrite (Hall r Hin).
    repeat apply conj; reflexivity.
Qed.

End TransferCredentials.

(** ** The retry schedule of downloadChunk *)

Section DownloadSchedule.
Context `{Runtime} `{Crypto} `{Constants}.



End DownloadSchedule.

(* ================================================================= *)
(** * The further properties on runs *)

Section FurtherExamples.
#[local] Existing Instance Sample.runtime.
#[local] Existing Instance Sample.crypto.
#[local] Existing Instance Sample.constants.


(** X2 on a run: the budget of two requests is used up. *)
Lemma doAPIRequest_outcome_witness :
  let a := Sample.post "/v3/user/info" (JObj []) in
  let evs := [Timer true; Response 503 ""; Timer true; ReqTimeout; Timer true] in
  api_settled_by a evs (doAPIRequest a evs) (inl (api_max_retries_error a)).
Proof.
  intros a evs.
  destruct (doAPIRequest_outcome a evs (inl (api_max_retries_error a)))
    as [(e & He & _) | [_ Hby]].
  - vm_compute. reflexivity.
  - vm_compute in He. discriminate.
  - exact Hby.
Defined.




(** X6 on a run: an invalid key ends the session after one request. *)
Lemma apiRequest_effects_witness :
  let env := Sample.env_replying Sample.r_invalid_key in
  let r := apiRequest env "POST" "/v3/dir/trash" None None false Sample.world in
  db (fst r) = db Sample.world /\ permits (fst r) = permits Sample.world
  /\ exists rs tail,
      log (fst r) = log Sample.world ++ map EvHttp rs ++ tail
      /\ (Z.of_nat (length rs) <= Z.max 0 maxRetryAPIRequest)%Z
      /\ Forall (is_api_request_of "POST" "/v3/dir/trash"
                   (chosen_key None (db Sample.world))) rs
      /\ (tail = []
          \/ (tail = [EvLogout]
              /\ snd r = Rejected (JsError (Some (JStr "Session invalidated")))
              /\ false = false)).
Proof.
  intros env r.
  refine (apiRequest_effects env "POST" "/v3/dir/trash" None None false Sample.world
            (fst r) (snd r) _).
  vm_compute. reflexivity.
Defined.

(** X7 on a run: a key of the wrong length is replaced by the stored
    one. *)
Lemma userInfo_requests_witness :
  let env := Sample.env_replying Sample.r_ok in
  let r := userInfo env (Some (JStr "short")) Sample.world in
  chosen_key (Some (JStr "short")) (db Sample.world) = Some (JStr "key")
  /\ exists rs tail,
      log (fst r) = log Sample.world ++ map EvHttp rs ++ tail
      /\ (tail = [] \/ tail = [EvLogout])
      /\ Forall (fun q =>
                   is_api_request_of "GET" "/v3/user/info"
                     (chosen_key (Some (JStr "short")) (db Sample.world)) q
                   /\ (exists c,
                          bufferToHash (textEncoder_encode (JSON_stringify (JObj [])))
                            "SHA-512" = inr c
                          /\ header "Checksum" (rq_headers q) = Some c)
                   /\ (toUpperCase "GET" <> "POST" -> rq_body q = None))
                rs.
Proof.
  intros env r. split; [vm_compute; reflexivity|].
  refine (userInfo_requests env (Some (JStr "short")) Sample.world (fst r) (snd r) _).
  vm_compute. reflexivity.
Defined.


(** X11 on a run: two recipients and two links; the key of the second
    link does not decrypt, its chain ends in its [catch]. *)
Lemma rename_fanout_settles_witness :
  fr_outcome (checkIfItemIsSharedForRename Cases.fanout Cases.masterKeys None
                "file" "f1" Cases.file_md)
  = Resolved (Some (JBool true)).
Proof.
  destruct (rename_fanout_settles Cases.fanout Cases.masterKeys "file" "f1"
              Cases.file_md Cases.sharing Cases.linking)
    as [[_ Hdone] _].
  - reflexivity.
  - reflexivity.
  - reflexivity.
  - reflexivity.
  - apply Hdone. split; (split; [discriminate | repeat constructor]).
Defined.

(** X12 on a run. *)
Lemma parent_fanout_file_settles_witness :
  let run := checkIfItemParentIsShared Cases.fanout Cases.masterKeys None
               "file" "parent" Cases.file_md in
  (length (arm_requests (fr_link run)) <= 2)%nat
  /\ arm_requests (fr_share run)
     = dispatched
         (fun u => encryptMetadataPublicKey Cases.fanout (metadata_text Cases.file_md)
                     (user_publicKey u))
         (share_file_request "file" "parent" Cases.file_md) [Cases.alice; Cases.bob].
Proof.
  intros run.
  destruct (parent_fanout_file_settles Cases.fanout Cases.masterKeys "parent"
              Cases.file_md Cases.sharing Cases.linking)
    as (_ & _ & Hshare & Hlen & _).
  - reflexivity.
  - reflexivity.
  - reflexivity.
  - reflexivity.
  - intros l [<- | [<- | []]]; vm_compute; discriminate.
  - intros k. vm_compute. discriminate.
  - split; [exact Hlen | exact Hshare].
Defined.

(** X13 on a run: the key of [link2] does not decrypt; the metadata
    sent for it is the one made for [link1]. *)
Lemma stale_link_key_is_used_witness :
  let arm := sl_arm (link_file_loop Cases.fanout Cases.masterKeys "file" "parent"
                       Cases.file_md [Cases.link1; Cases.link2]) in
  let enc := "enc:" +:+ metadata_text Cases.file_md in
  In (link_file_request "file" "parent" Cases.file_md Cases.link1 enc) (arm_requests arm)
  /\ In (link_file_request "file" "parent" Cases.file_md Cases.link2 enc)
       (arm_requests arm).
Proof.
  intros arm enc.
  refine (stale_link_key_is_used Cases.fanout Cases.masterKeys "file" "parent"
            Cases.file_md [] Cases.link1 Cases.link2 [] "key:lk1" (Foreign "decrypt") enc
            _ _ _ _ _ _ _).
  - intros l [].
  - intros key. vm_compute. discriminate.
  - reflexivity.
  - vm_compute. discriminate.
  - reflexivity.
  - vm_compute. discriminate.
  - reflexivity.
Defined.

(** X14 on a run: three entries, two recipients, six calls. *)
Lemma parent_fanout_folder_share_witness :
  length (arm_requests (share_arm Cases.fanout Cases.masterKeys "folder" "parent"
                          Cases.folder_md))
  = 6%nat.
Proof.
  destruct (parent_fanout_folder_share Cases.fanout Cases.masterKeys "folder" "parent"
              Cases.folder_md Cases.sharing Cases.contents Cases.items)
    as (_ & _ & Hcount & _).
  - reflexivity.
  - reflexivity.
  - reflexivity.
  - reflexivity.
  - vm_compute. reflexivity.
  - apply Hcount. intros p _. reflexivity.
Defined.

(** X15 on a run: the key of the second link does not decrypt; the
    folder itself was added to the first link, nothing else was. *)
Lemma folder_link_ends_at_failed_key_witness :
  let arm := link_arm Cases.fanout Cases.masterKeys "folder" "parent" Cases.folder_md in
  arm_done arm = true /\ (length (arm_requests arm) <= 1)%nat.
Proof.
  intros arm.
  destruct (folder_link_ends_at_failed_key Cases.fanout Cases.masterKeys "folder"
              "parent" Cases.folder_md Cases.linking Cases.contents Cases.items
              [(nth 0 Cases.items (folder_itself "parent" Cases.folder_md), Cases.link1)]
              (nth 0 Cases.items (folder_itself "parent" Cases.folder_md), Cases.link2)
              (list_prod (tl Cases.items) [Cases.link1; Cases.link2])
              (Foreign "decrypt"))
    as (Hdone & Hlen & _).
  - reflexivity.
  - reflexivity.
  - reflexivity.
  - reflexivity.
  - vm_compute. reflexivity.
  - reflexivity.
  - intros q [<- | []]. eexists. vm_compute. reflexivity.
  - intros text key. vm_compute. discriminate.
  - reflexivity.
  - split; [exact Hdone | exact Hlen].
Defined.

(** X16 on a run. *)
Lemma createFolder_blocked_witness :
  let r := createFolder Cases.env_hanging "new-uuid" "Docs" "parent" Sample.world in
  snd r = Pending
  /\ permits (fst r) = 0%Z
  /\ count_releases (log (fst r)) = count_releases (log Sample.world)
  /\ forall env' uuid' name' parent',
       createFolder env' uuid' name' parent' (fst r) = (fst r, Pending).
Proof.
  intros r.
  refine (createFolder_blocked_by_hanging_propagation Cases.env_hanging
            "new-uuid" "Docs" "parent" Sample.world
            (fst (createFolder_response Cases.env_hanging "new-uuid" "Docs" "parent"
                    (acquired Sample.world)))
            (Some Sample.r_ok) (Some (JBool true)) _ _ _ _ _).
  - reflexivity.
  - vm_compute. reflexivity.
  - reflexivity.
  - reflexivity.
  - reflexivity.
Defined.

(** X17 on a run: a move that succeeds ends with its propagation. *)
Lemma mutations_end_with_propagation_witness :
  let env := Sample.env_replying Sample.r_ok in
  let r := moveFile env Sample.file "parent" Sample.world in
  let md := JObj (("uuid", JStr (file_uuid Sample.file))
                    :: file_fields (file_name Sample.file) Sample.file) in
  ends_with_propagation Sample.world (fst r) (snd r) (EvShared "file" "parent" md)
    (shared_outcome env "file" "parent" md).
Proof.
  intros env r md.
  refine (proj1 (mutations_end_with_propagation env) Sample.file "parent" Sample.world
            (fst r) (snd r) _).
  vm_compute. reflexivity.
Defined.

(** X18 on a run: the key is replaced while the upload waits; the
    request carries the old one. *)
Lemma transfer_credentials_witness :
  let inputs := [StoreSet "apiKey" (JStr "new key"); Poll true true; Net (Timer true)] in
  let queryParams := upload_queryParams Sample.upload "SHA-512:ab" in
  let checksum := match upload_checksum queryParams with inr c => c | inl _ => "" end in
  let r := upload_request Sample.upload (Some (JStr "key")) queryParams checksum in
  In r (sent (x_loop (uploadChunk Sample.upload None Sample.store ∅ inputs)))
  /\ header "Authorization" (rq_headers r) = Some "Bearer key".
Proof.
  intros inputs queryParams checksum r.
  assert (Hin : In r (sent (x_loop (uploadChunk Sample.upload None Sample.store ∅
                                      inputs))))
    by (vm_compute; left; reflexivity).
  split; [exact Hin|].
  exact (proj2 (proj2 (proj1 transfer_credentials Sample.upload None Sample.store ∅
                         inputs r Hin))).
Defined.


End FurtherExamples.
